(* ===== verification/_CoqProject ===== *)
-Q . S2P
Prelude.v
Int32.v
Monad.v
SeriesStore.v
Profiler.v
World.v
Report.v
Equiv.v
MapStore.v
Power.v
Factorial.v
Word32.v
Duplicates.v
Experiments.v
Main.v
Refinement.v
