(* ===== verification/Prelude.v ===== *)
(** * Verification of the utcn-fa-profiler demo (src/example1.cpp)

    The program is a benchmarking demo.  It runs several algorithm variants
    (two recursive and one iterative power function, a quadratic duplicate
    search, an iterative and a recursive factorial) over growing input sizes
    and records, through a global [Profiler] object, how many operations each
    variant performed and how long it ran.  The algorithms are under src/;
    the profiling core they call (Profiler.h) is not, and is modelled from
    spec.md (sections 3, 4 and 7).

    ** Files, in dependency order

    - [Prelude] (this file): shared tactics, the hint databases, and the
      arithmetic lemmas every loop proof uses.
    - [Int32]: the C++ type [int] as a 32-bit two's-complement integer kept
      in [Z]: [wrap], the wrapped operators, truncating division, the bit
      operators used by [fast_pow_iter], and the ring-homomorphism lemmas
      that let a wrapped product be compared with the mathematical one.
    - [Monad]: the state-and-error monad in which the demo runs, its
      notation scope, the [while] combinator with its rules (total
      correctness, failure, too little fuel, counting loops), [preserves],
      the invariants of the world a program keeps, and [simulates].
    - [SeriesStore]: the Series Store of spec 4.1, as an interface (the
      class [Store] of operations with laws), the ordered association-list
      implementation, its sortedness invariant, and the refinement to a
      finite map.
    - [Profiler]: Operation Handle, Timer Session, Group Registry and
      Session Manager of spec 4.2 to 4.5 over any [Store], the generation
      check that makes a stale handle a no-op, and the session state
      machine ([Call], [call_step], [reachable]).
    - [World]: the state of a run: the global profiler, the output, the
      reports shown, the clock and the random source.  The calls of the
      demo into the profiler are programs on the world; [recorded],
      [timer_started] and the like name the world after each call.
    - [Report]: the report of [showReport] read off the values stored:
      from the [Store] laws, the points listed for a series are the only
      ascending list that holds exactly its values; the names of the
      series and the well-formedness of the store through the steps of a
      run.
    - [Equiv]: the worlds that hold the same measurements: stores that
      answer every lookup alike, as an equivalence for which the store
      operations and the steps of the world are morphisms; writes at
      different keys commute up to it.
    - [MapStore]: the abstract specification of the Series Store made
      executable, a finite map from (series, size) to the value with the
      names in the order of first write, listing its points by sorting on
      demand; it is a second implementation of [Store], and [abstract]
      takes a list store to the map store it stands for.
    - [Power]: [slow_pow], [fast_pow], [fast_pow_iter] (src/example1.cpp,
      lines 10 to 64).
    - [Factorial]: [factorial], [factorial_rec] (lines 88 to 112).
    - [Word32]: the arithmetic of [Int32] checked against coqutil's
      specification of two's-complement machine words at width 32, operator
      by operator.
    - [Duplicates]: [hasDuplicates] (lines 69 to 83).
    - [Experiments]: the specification side of [main]: its constants, the
      sizes each loop visits, the effect of one size on the world, the
      world the program ends in ([main_world]) and what can be observed
      of it.
    - [Main]: [main] (lines 114 to 170), statement by statement, the run
      of each experiment, and the theorems on [main].
    - [Refinement]: the run of a program on the list store against its
      run on the map store.  Each call of the profiler, each function of
      the demo and [main] is simulated, in step, by the same program on
      the abstraction of the world ([Monad.simulates], tactic
      [simulate]); a failure of the one is the same failure of the other.

    ** How the model corresponds to the code

    A C++ function is a program of the monad with the same name.  Its
    local variables that a loop changes are the loop state, a tuple; the
    loop is [while fuel cond body state]; the destructor of an [Operation]
    at the end of its scope is the call [destroyM].  A handle passed by
    reference ([factorial_rec]) is passed in and returned.  The array of
    [main] is a list, and a read outside it is the error [OutOfBounds].

    ** What is proved

    - For each function, its run as an equation: the value returned and
      the world after it, on every [int] argument (the [run_] lemmas and
      the [_run] theorems).  These are total: the right-hand side is
      [Ok], so no loop runs out of fuel.
    - The functions against each other: [slow_pow] and [fast_pow] agree on
      non-negative exponents and differ on negative ones; [fast_pow_iter]
      agrees with [slow_pow] on every exponent; [factorial] and
      [factorial_rec] agree on the value and on the count.
    - Stale handles: [factorial_rec] called with a handle of a session
      that was reset computes the same value and writes nothing.
    - Overflow: n! is exact up to 12, wrong from 13 on, and 0 from 34 on;
      the loop of [factorial] cannot exit for n = [INT_MAX]; 5^n is exact
      up to 13 and wrong from 14 on; [hasDuplicates] on [INT_MIN], where
      [size - 1] wraps around, returns false after [INT_MAX] empty rounds.
    - Cost: [fast_pow_iter] counts at most 2 (log2 n + 1) multiplications,
      fewer than [slow_pow] from n = 6 on.  The recursion of
      [factorial_rec] is exactly n - 1 deep, that of [fast_pow] exactly as
      deep as the exponent has halvings: at most 32, and 32 for [INT_MIN].
    - Timers: [main] leaves none running.
    - Errors: [hasDuplicates] on an array shorter than [size] ends in
      [OutOfBounds] at the first read past the end.
    - [main]: it runs to its end from every world and returns 0; what it
      prints; what the first two experiments leave in the store before
      [reset] drops it, and what the first factorial loop leaves before
      the timer loop overwrites it; how often it reads the clock; what the
      store holds when the report is shown
      (counts for "factorial_rec", times for "factorial_iter", nothing of
      the first two sessions); the report it shows, in full, for every
      store that satisfies the [Store] laws, and the table the list store
      ends with; that it keeps the profiler in a reachable state of the
      session machine and ends in the phase [Reported].
    - The store: the list implementation satisfies the [Store] laws and
      refines a finite map; on it, [slow_pow] is one insertion.  [main]
      shows the same report on every implementation of the interface, and
      the counts it reports fit an [int].
    - Refinement: the finite map is itself an implementation of the
      interface, and the list store is a data refinement of it: [main] on
      the list store and [main] on the map store, started in related
      worlds, return the same and end in related worlds, so they print the
      same, show the same reports and hold the same value at every key.
    - Machine words: on every implementation of 32-bit words the
      operators of [Int32] are the word operators read as signed numbers.
    - Order: the calls of [slow_pow] and [fast_pow] commute up to the
      order in which the store lists its series, which no group of a
      report shows.

    ** Bounds and fuel

    A loop that counts up to a bound runs with its variant at entry
    ([Z.to_nat (n - i)]); a loop with a stride runs with its number of
    iterations; the halving recursion of [fast_pow] and the halving loop
    of [fast_pow_iter] run with [Int32.bits] = 32, one more than the
    digits of an [int] and the least fuel that serves every [int] in
    [fast_pow]; [factorial_rec] runs with its argument.  Each [_run]
    theorem shows the fuel is enough, and the depth theorems that less
    is not.  Integers are 32 bits wide;
    counts kept by the profiler are unbounded ([Z]).

    ** Not modelled

    Profiler.h itself (not under src/): the profiling core is modelled
    from spec.md, as the spec asks it to behave.  The rendering of the
    report (chart or table) is an external collaborator the spec leaves
    out: the model stops at the report handed to it.  The destructor of
    the global profiler at the end of the process is not modelled either.
    The environment is modelled by its operations ([printf],
    [FillRandomArray], the reading of the clock); the values read, real
    time and the distribution of the random numbers, are inputs of a run,
    arbitrary sequences of which nothing is assumed.  [FillRandomArray]
    is declared in Profiler.h and left out by the spec: the model gives
    it what its call in [main] needs, an array of [size] arbitrary
    numbers, and no theorem depends on what the numbers are.  Every line of code of src/example1.cpp is
    modelled; what the map leaves uncovered are blank lines, comments and
    the include.
    Signed overflow is undefined behaviour in C++; the model takes the
    two's-complement result and states the overflow as theorems.

    ** Conventions

    An [int] is a [Z] in the range of [Int32.in_int]; arithmetic that can
    leave the range is written with the wrapped operators of [Int32].
    Theorems in this development that are numbered (C1, C2, ...) are the
    properties listed with the project; the lemmas they rest on are
    shared and never refer to them. *)

From Stdlib Require Export ZArith Lia List Bool.
Import ListNotations.

#[local] Open Scope Z_scope.

(** ** Hint databases

    [arith_db] collects the side conditions on ranges and loop variants that
    [auto with arith_db] is expected to close; [loop_rw] is the rewrite
    database for loop variants. *)

Create HintDb arith_db.
Create Rewrite HintDb loop_rw.

(** ** Tactics *)

(** [inv H] inverts [H], substitutes the equations and clears it. *)
Ltac inv H := inversion H; subst; clear H.

(** [bool_to_prop] replaces the boolean comparisons of the context and the
    goal by the propositions they decide. *)
Ltac bool_to_prop :=
  repeat match goal with
  | H : (_ <? _) = true |- _ => apply Z.ltb_lt in H
  | H : (_ <? _) = false |- _ => apply Z.ltb_ge in H
  | H : (_ <=? _) = true |- _ => apply Z.leb_le in H
  | H : (_ <=? _) = false |- _ => apply Z.leb_gt in H
  | H : (_ =? _) = true |- _ => apply Z.eqb_eq in H
  | H : (_ =? _) = false |- _ => apply Z.eqb_neq in H
  | |- (_ <? _) = true => apply Z.ltb_lt
  | |- (_ <? _) = false => apply Z.ltb_ge
  | |- (_ <=? _) = true => apply Z.leb_le
  | |- (_ <=? _) = false => apply Z.leb_gt
  | |- (_ =? _) = true => apply Z.eqb_eq
  | |- (_ =? _) = false => apply Z.eqb_neq
  end.

(** [case_cmp] splits on the first boolean comparison of the goal, keeping
    the proposition it decides. *)
Ltac case_cmp :=
  match goal with
  | |- context [?a <? ?b] => destruct (Z.ltb_spec a b)
  | |- context [?a <=? ?b] => destruct (Z.leb_spec a b)
  | |- context [?a =? ?b] => destruct (Z.eqb_spec a b)
  end.

(** ** Loop variants

    A counting loop [for (i = a; i < n; ++i)] runs [Z.to_nat (n - a)] times.
    These lemmas step that variant. *)

(** The iterations left in [for (n = ..; n < hi; n += d)], and that one
    iteration uses one of them up. *)
Definition stride_variant (hi d n : Z) : nat := Z.to_nat ((hi - n + d - 1) / d).

Lemma variant_step (n i : Z) :
  i < n -> Z.to_nat (n - i) = S (Z.to_nat (n - (i + 1))).
Proof. intros H. rewrite <- Z2Nat.inj_succ by lia. f_equal. lia. Qed.

Lemma variant_done (n i : Z) : n <= i -> Z.to_nat (n - i) = 0%nat.
Proof. intros H. lia. Qed.

Lemma variant_nonneg (n : Z) : 0 <= n -> Z.of_nat (Z.to_nat n) = n.
Proof. apply Z2Nat.id. Qed.

Lemma stride_variant_step (hi d n : Z) :
  0 < d -> n < hi -> (stride_variant hi d (n + d) < stride_variant hi d n)%nat.
Proof.
  intros Hd Hn. unfold stride_variant.
  replace (hi - n + d - 1) with (hi - n - 1 + 1 * d) by lia.
  replace (hi - (n + d) + d - 1) with (hi - n - 1) by lia.
  rewrite Z.div_add by lia.
  assert (0 <= (hi - n - 1) / d) by (apply Z.div_pos; lia). lia.
Qed.

#[export] Hint Resolve Z.le_refl Z.lt_le_incl : arith_db.
#[export] Hint Rewrite variant_nonneg using lia : loop_rw.

(** ** Lists *)

(** The [k]-th iterate of a function, the shape every loop summary takes. *)
Lemma iter_succ_r {A} (f : A -> A) (k : nat) (a : A) :
  Nat.iter (S k) f a = Nat.iter k f (f a).
Proof. induction k as [|k IH]; simpl in *; congruence. Qed.
