(* ===== verification/Int32.v ===== *)
(** * Int32: the C++ type [int] of src/example1.cpp

    Every variable of the demo is an [int]: 32 bits, two's complement.  An
    [int] is kept as a [Z] in the range [in_int]; an operator whose
    mathematical result can leave the range is followed by [wrap], which
    reduces it modulo 2^32 into the signed range.  This file holds the
    operators the demo uses (times-assign, increment, [/], [%], [&], [>>])
    and the lemmas that relate wrapped arithmetic to arithmetic in [Z]:
    [wrap] is a ring homomorphism onto the residues, so a wrapped iterated
    product is the wrap of the mathematical power or factorial. *)

From S2P Require Import Prelude.

#[local] Open Scope Z_scope.

Module Int32.

(** ** The range *)

Definition modulus : Z := 4294967296.
Definition half_modulus : Z := 2147483648.
Definition INT_MAX : Z := 2147483647.
Definition INT_MIN : Z := -2147483648.

(** The width of an [int]: how often a value can be halved before it is 0. *)
Definition bits : nat := 32.

Definition in_int (z : Z) : Prop := INT_MIN <= z <= INT_MAX.

Definition in_intb (z : Z) : bool := (INT_MIN <=? z) && (z <=? INT_MAX).

(** [wrap z] is the [int] congruent to [z] modulo 2^32. *)
Definition wrap (z : Z) : Z := (z + half_modulus) mod modulus - half_modulus.

(** ** The operators of the demo *)

(** [a * b] on [int], as in [p *= x], [y * y], [res *= i]. *)
Definition imul (a b : Z) : Z := wrap (a * b).

(** [a + b] on [int], as in [++i] and [n += 100]. *)
Definition iadd (a b : Z) : Z := wrap (a + b).

(** [a - b] on [int], as in [n - 1] and [size - 1]. *)
Definition isub (a b : Z) : Z := wrap (a - b).

(** [a / b] on [int]: C++ division truncates toward zero. *)
Definition idiv (a b : Z) : Z := wrap (Z.quot a b).

(** [a % b] on [int]: the remainder of the truncating division. *)
Definition imod (a b : Z) : Z := Z.rem a b.

(** [a & b] on [int]. *)
Definition iand (a b : Z) : Z := Z.land a b.

(** [a >> k] on [int]: the arithmetic shift. *)
Definition ishr (a k : Z) : Z := Z.shiftr a k.

(** ** The bits of a positive [int] *)

(** The number of binary digits of [n], 0 when [n] is not positive. *)
Definition bitlen (n : Z) : nat :=
  match n with Zpos p => Pos.size_nat p | _ => 0%nat end.

Fixpoint pos_popcount (p : positive) : nat :=
  match p with
  | xH => 1
  | xO q => pos_popcount q
  | xI q => S (pos_popcount q)
  end.

(** The number of binary digits of [n] that are 1. *)
Definition popcount (n : Z) : nat :=
  match n with Zpos p => pos_popcount p | _ => 0%nat end.

(** ** [wrap] and the range *)

Lemma in_intb_spec (z : Z) : reflect (in_int z) (in_intb z).
Proof.
  apply iff_reflect. unfold in_intb, in_int.
  rewrite andb_true_iff, Z.leb_le, Z.leb_le. reflexivity.
Qed.

Lemma wrap_in_int (z : Z) : in_int (wrap z).
Proof.
  unfold in_int, wrap, INT_MIN, INT_MAX, half_modulus, modulus.
  pose proof (Z.mod_pos_bound (z + 2147483648) 4294967296). lia.
Qed.

Lemma wrap_small (z : Z) : in_int z -> wrap z = z.
Proof.
  unfold in_int, wrap, INT_MIN, INT_MAX, half_modulus, modulus. intros H.
  rewrite Z.mod_small; lia.
Qed.

Lemma wrap_idem (z : Z) : wrap (wrap z) = wrap z.
Proof. apply wrap_small, wrap_in_int. Qed.

(** ** [wrap] is a congruence modulo 2^32 *)

Lemma wrap_mod (z : Z) : wrap z mod modulus = z mod modulus.
Proof.
  unfold wrap. rewrite Zminus_mod_idemp_l. f_equal. lia.
Qed.

Lemma wrap_congr (a b : Z) : a mod modulus = b mod modulus -> wrap a = wrap b.
Proof.
  intros H. unfold wrap. f_equal.
  rewrite (Z.add_mod a), (Z.add_mod b), H by (unfold modulus; lia).
  reflexivity.
Qed.

Lemma wrap_eq_iff (a b : Z) : wrap a = wrap b <-> a mod modulus = b mod modulus.
Proof.
  split; [|apply wrap_congr].
  intros H. rewrite <- (wrap_mod a), <- (wrap_mod b). congruence.
Qed.

Lemma wrap_mul_l (a b : Z) : wrap (wrap a * b) = wrap (a * b).
Proof.
  apply wrap_congr.
  rewrite Z.mul_mod, wrap_mod, <- Z.mul_mod by (unfold modulus; lia).
  reflexivity.
Qed.

Lemma wrap_mul_r (a b : Z) : wrap (a * wrap b) = wrap (a * b).
Proof. rewrite (Z.mul_comm a), wrap_mul_l. f_equal. apply Z.mul_comm. Qed.

Lemma wrap_add_l (a b : Z) : wrap (wrap a + b) = wrap (a + b).
Proof.
  apply wrap_congr.
  rewrite Z.add_mod, wrap_mod, <- Z.add_mod by (unfold modulus; lia).
  reflexivity.
Qed.

Lemma wrap_add_r (a b : Z) : wrap (a + wrap b) = wrap (a + b).
Proof. rewrite (Z.add_comm a), wrap_add_l. f_equal. apply Z.add_comm. Qed.

(** ** The operators on values that stay in range *)

Lemma imul_in_int (a b : Z) : in_int (imul a b).
Proof. apply wrap_in_int. Qed.

Lemma iadd_small (a b : Z) : in_int (a + b) -> iadd a b = a + b.
Proof. apply wrap_small. Qed.

Lemma isub_small (a b : Z) : in_int (a - b) -> isub a b = a - b.
Proof. apply wrap_small. Qed.

Lemma imul_small (a b : Z) : in_int (a * b) -> imul a b = a * b.
Proof. apply wrap_small. Qed.

(** The product of two wrapped values is the wrap of the product. *)
Lemma imul_wrap (a b : Z) : imul (wrap a) (wrap b) = wrap (a * b).
Proof. unfold imul. rewrite wrap_mul_l, wrap_mul_r. reflexivity. Qed.

(** Halving: [n / 2] on a non-negative [int] is [Z.div], and stays in range. *)
Lemma idiv2_nonneg (n : Z) : 0 <= n -> in_int n -> idiv n 2 = n / 2.
Proof.
  intros Hn Hi. unfold idiv. rewrite Z.quot_div_nonneg by lia.
  apply wrap_small. unfold in_int, INT_MIN, INT_MAX in *.
  pose proof (Z.div_pos n 2). pose proof (Z.div_le_upper_bound n 2 n). lia.
Qed.

(** [n % 2] on a non-negative [int] is [Z.modulo]. *)
Lemma imod2_nonneg (n : Z) : 0 <= n -> imod n 2 = n mod 2.
Proof. intros Hn. unfold imod. apply Z.rem_mod_nonneg; lia. Qed.

(** [n & 1] is the parity bit. *)
Lemma iand1 (n : Z) : iand n 1 = n mod 2.
Proof. unfold iand. change 1 with (Z.ones 1). rewrite Z.land_ones by lia. reflexivity. Qed.

(** [n >> 1] halves. *)
Lemma ishr1 (n : Z) : ishr n 1 = n / 2.
Proof. unfold ishr. rewrite Z.shiftr_div_pow2 by lia. reflexivity. Qed.

Lemma ishr1_in_int (n : Z) : 0 <= n -> in_int n -> in_int (ishr n 1).
Proof.
  intros Hn Hi. rewrite ishr1. unfold in_int, INT_MIN, INT_MAX in *.
  pose proof (Z.div_pos n 2). pose proof (Z.div_le_upper_bound n 2 n). lia.
Qed.

(** ** Iterated products *)

(** One more factor [x] on a wrapped power. *)
Lemma imul_pow_step (x i : Z) : 0 <= i -> imul (wrap (x ^ i)) x = wrap (x ^ (i + 1)).
Proof.
  intros Hi. unfold imul.
  rewrite wrap_mul_l, Z.pow_add_r, Z.pow_1_r by lia. reflexivity.
Qed.

(** Squaring a wrapped power doubles the exponent. *)
Lemma imul_pow_double (x a : Z) :
  0 <= a -> imul (wrap (x ^ a)) (wrap (x ^ a)) = wrap (x ^ (2 * a)).
Proof.
  intros Ha. rewrite imul_wrap, <- Z.pow_add_r by lia. f_equal. f_equal. lia.
Qed.

(** ** Halving, on either sign

    [n / 2] and [n % 2] truncate toward zero, so the absolute value of [n]
    is twice that of [n / 2], plus one when [n] is odd. *)

Lemma imod2_even (n : Z) : (imod n 2 =? 0) = Z.even n.
Proof.
  unfold imod. rewrite Zeven_mod.
  destruct (Z.eqb_spec (Z.rem n 2) 0), (Z.eqb_spec (n mod 2) 0);
    try reflexivity; exfalso; Z.to_euclidean_division_equations; lia.
Qed.

Lemma abs_halve (n : Z) :
  Z.abs n = 2 * Z.abs (Z.quot n 2) + (if Z.even n then 0 else 1).
Proof.
  rewrite <- imod2_even. unfold imod.
  destruct (Z.eqb_spec (Z.rem n 2) 0); Z.to_euclidean_division_equations; lia.
Qed.

Lemma idiv2_small (n : Z) : in_int n -> idiv n 2 = Z.quot n 2.
Proof.
  intros Hn. unfold idiv. apply wrap_small.
  unfold in_int, INT_MIN, INT_MAX in *. Z.to_euclidean_division_equations. lia.
Qed.

(** ** Digits and halving *)

(** Halving a positive number drops its last digit. *)
Lemma halve_pos (n : Z) :
  0 < n ->
  bitlen n = S (bitlen (n / 2)) /\
  popcount n = (popcount (n / 2) + Z.to_nat (n mod 2))%nat.
Proof.
  destruct n as [|p|p]; try lia. intros _.
  destruct p as [q|q|].
  - assert (Z.pos q~1 / 2 = Z.pos q) as ->
      by (rewrite Pos2Z.inj_xI; Z.to_euclidean_division_equations; lia).
    assert (Z.pos q~1 mod 2 = 1) as ->
      by (rewrite Pos2Z.inj_xI; Z.to_euclidean_division_equations; lia).
    simpl. split; [reflexivity | lia].
  - assert (Z.pos q~0 / 2 = Z.pos q) as ->
      by (rewrite Pos2Z.inj_xO; Z.to_euclidean_division_equations; lia).
    assert (Z.pos q~0 mod 2 = 0) as ->
      by (rewrite Pos2Z.inj_xO; Z.to_euclidean_division_equations; lia).
    simpl. split; [reflexivity | lia].
  - split; reflexivity.
Qed.

Lemma bitlen_mono (a b : Z) : 0 < a <= b -> (bitlen a <= bitlen b)%nat.
Proof.
  destruct a as [|p|p], b as [|q|q]; try lia. intros [_ Hle]. simpl.
  destruct (Pos.eq_dec p q) as [->|Hne]; [lia|].
  apply Pos.size_nat_monotone. lia.
Qed.

(** A positive [int] has at most 31 digits, fewer than [bits]. *)
Lemma bitlen_in_int (n : Z) : in_int n -> (bitlen n < bits)%nat.
Proof.
  intros Hn. destruct (Z.leb_spec n 0) as [Hle|Hpos].
  - destruct n; simpl; unfold bits; lia.
  - assert (bitlen n <= bitlen INT_MAX)%nat as Hb
      by (apply bitlen_mono; unfold in_int in Hn; lia).
    change (bitlen INT_MAX) with 31%nat in Hb. unfold bits. lia.
Qed.

Lemma pos_size_nat (p : positive) : Z.of_nat (Pos.size_nat p) = Z.pos (Pos.size p).
Proof.
  induction p as [q IH|q IH|]; cbn [Pos.size_nat Pos.size];
    rewrite ?Nat2Z.inj_succ, ?Pos2Z.inj_succ, ?IH; reflexivity.
Qed.

(** The number of digits of a positive number is its binary logarithm
    plus one. *)
Lemma bitlen_log2 (n : Z) : 0 < n -> Z.of_nat (bitlen n) = Z.log2 n + 1.
Proof.
  destruct n as [|p|p]; try lia. intros _. unfold bitlen. rewrite pos_size_nat.
  destruct p as [q|q|]; cbn [Z.log2 Pos.size]; rewrite ?Pos2Z.inj_succ; lia.
Qed.

Lemma popcount_le_bitlen (n : Z) : (popcount n <= bitlen n)%nat.
Proof.
  destruct n as [|p|p]; simpl; try lia.
  induction p as [q IH|q IH|]; simpl; lia.
Qed.

(** [wrap] commutes with powers. *)
Lemma wrap_pow (x k : Z) : wrap (wrap x ^ k) = wrap (x ^ k).
Proof.
  apply wrap_congr.
  rewrite <- Z.mod_pow_l, wrap_mod, Z.mod_pow_l. reflexivity.
Qed.

Lemma wrap_mul_pow_r (a b k : Z) : wrap (a * wrap b ^ k) = wrap (a * b ^ k).
Proof. rewrite <- wrap_mul_r, wrap_pow, wrap_mul_r. reflexivity. Qed.

Lemma wrap_mul_pow (a b k : Z) : wrap (wrap a * wrap b ^ k) = wrap (a * b ^ k).
Proof. rewrite wrap_mul_l, wrap_mul_pow_r. reflexivity. Qed.

Lemma imul_comm (a b : Z) : imul a b = imul b a.
Proof. unfold imul. rewrite Z.mul_comm. reflexivity. Qed.

(** A multiple of 2^32 wraps to 0. *)
Lemma wrap_multiple (z : Z) : (modulus | z) -> wrap z = 0.
Proof.
  intros [q ->]. unfold wrap.
  rewrite Z.add_comm, Z.mod_add by (unfold modulus; lia).
  reflexivity.
Qed.

(** Outside the range, wrapping changes the value. *)
Lemma wrap_overflow (z : Z) : INT_MAX < z -> wrap z <> z.
Proof. intros Hz He. pose proof (wrap_in_int z) as Hw. rewrite He in Hw.
  unfold in_int, INT_MAX in *. lia.
Qed.

(** ** Digits against the number

    From 16 on a number exceeds twice the count of its binary digits. *)

Lemma twice_digits_lt_pow2 (k : Z) : 4 <= k -> 2 * (k + 1) < 2 ^ k.
Proof.
  intros Hk. pattern k. apply Z.le_ind with (n := 4);
    [intros ? ? ->; reflexivity | reflexivity | | exact Hk].
  intros m Hm IH. rewrite Z.pow_succ_r by lia. lia.
Qed.

Lemma digits_lt (n : Z) : 6 <= n -> Z.of_nat (bitlen n + popcount n) < n.
Proof.
  intros Hn. destruct (Z.lt_ge_cases n 16) as [Hsmall|Hbig].
  - assert (Hc : n = 6 \/ n = 7 \/ n = 8 \/ n = 9 \/ n = 10 \/ n = 11 \/ n = 12 \/
                 n = 13 \/ n = 14 \/ n = 15) by lia.
    repeat destruct Hc as [->|Hc]; try subst n; vm_compute; reflexivity.
  - pose proof (popcount_le_bitlen n). pose proof (bitlen_log2 n ltac:(lia)) as Hb.
    pose proof (Z.log2_le_mono 16 n Hbig) as Hl. change (Z.log2 16) with 4 in Hl.
    pose proof (twice_digits_lt_pow2 _ Hl). pose proof (proj1 (Z.log2_spec n ltac:(lia))).
    lia.
Qed.

End Int32.

(** [int_lia] closes range goals: it unfolds the bounds for [lia]. *)
Ltac int_lia :=
  unfold Int32.in_int, Int32.INT_MIN, Int32.INT_MAX, Int32.modulus,
    Int32.half_modulus in *; lia.

#[export] Hint Resolve Int32.wrap_in_int Int32.imul_in_int : arith_db.
#[export] Hint Rewrite Int32.wrap_idem Int32.wrap_mul_l Int32.wrap_mul_r
  Int32.wrap_add_l Int32.wrap_add_r : loop_rw.
