(* ===== verification/Monad.v ===== *)
(** * Monad: programs over a world, with errors

    The demo is sequential C++ that mutates a global profiler, reads a
    clock, prints, and can misuse the profiler (a [stopTimer] with no
    [startTimer]).  A program that returns an [A] is a function from the
    world to either an error or a result with the next world.  This file
    holds that monad over an arbitrary world type, its notation (scope
    [prog_scope]), pointwise program equivalence with its [Proper]
    instances, the [while] loop with the rules loops are proved with,
    [preserves] (an invariant of the world a program keeps) and
    [simulates] (a program on one world matched, in step, by a program on
    another), each with the rules that take a program apart. *)

From Stdlib Require Import String Morphisms RelationClasses.
From S2P Require Import Prelude.

(** ** Errors and results *)

(** What a run can end with instead of a value. *)
Inductive error : Type :=
| UnmatchedStop (series : string) (size : Z)  (* stopTimer without startTimer *)
| OutOfBounds (index : Z)                     (* read outside an array *)
| OutOfFuel.                                  (* a loop exceeded its variant *)

Inductive result (A : Type) : Type :=
| Ok (a : A)
| Err (e : error).

Arguments Ok {A} a.
Arguments Err {A} e.

(** The value a run returned and the world it ended in, when it ended
    without an error. *)
Definition returned {A W} (r : result (A * W)) : option A :=
  match r with
  | Ok (a, _) => Some a
  | Err _ => None
  end.

Definition final {A W} (r : result (A * W)) : option W :=
  match r with
  | Ok (_, w) => Some w
  | Err _ => None
  end.

(** ** The monad *)

Definition M (W A : Type) : Type := W -> result (A * W).

Section Ops.
Context {W : Type}.

Definition ret {A} (a : A) : M W A := fun w => Ok (a, w).

Definition bind {A B} (c : M W A) (k : A -> M W B) : M W B :=
  fun w => match c w with
           | Ok (a, w') => k a w'
           | Err e => Err e
           end.

Definition raise {A} (e : error) : M W A := fun _ => Err e.

Definition get : M W W := fun w => Ok (w, w).

Definition put (w : W) : M W unit := fun _ => Ok (tt, w).

Definition modify (f : W -> W) : M W unit := fun w => Ok (tt, f w).

(** A step that may fail: [f] returns the next world or an error. *)
Definition try_modify (f : W -> result W) : M W unit :=
  fun w => match f w with
           | Ok w' => Ok (tt, w')
           | Err e => Err e
           end.

End Ops.

Declare Scope prog_scope.
Delimit Scope prog_scope with prog.
Bind Scope prog_scope with M.

Notation "x <- c ;; k" := (bind c (fun x => k))
  (at level 100, c at next level, k at level 200, right associativity)
  : prog_scope.
Notation "c ;; k" := (bind c (fun _ => k))
  (at level 100, k at level 200, right associativity) : prog_scope.

#[local] Open Scope prog_scope.

(** ** Loops

    [while fuel cond body s] is [while (cond) body] started in the local
    state [s], allowed [fuel] iterations.  Reaching the test with the
    condition true and no fuel left is the error [OutOfFuel]. *)

Fixpoint while {W L} (fuel : nat) (cond : L -> bool) (body : L -> M W L) (s : L)
  : M W L :=
  if cond s then
    match fuel with
    | O => raise OutOfFuel
    | S fuel' => s' <- body s ;; while fuel' cond body s'
    end
  else ret s.

(** The states in which the body of a loop runs when each iteration takes
    the state [s] to [next s], and the state the loop ends in. *)
Fixpoint visits {L} (fuel : nat) (cond : L -> bool) (next : L -> L) (s : L) : list L :=
  if cond s then
    match fuel with
    | O => nil
    | S fuel' => s :: visits fuel' cond next (next s)
    end
  else nil.

Fixpoint exit_state {L} (fuel : nat) (cond : L -> bool) (next : L -> L) (s : L) : L :=
  if cond s then
    match fuel with
    | O => s
    | S fuel' => exit_state fuel' cond next (next s)
    end
  else s.

(** The world after one effect per visited state, in order. *)
Definition after_each {W L} (effect : L -> W -> W) (l : list L) (w : W) : W :=
  fold_left (fun w s => effect s w) l w.

(** [preserves I c]: a run of [c] that ends without an error takes a world
    that satisfies [I] to one that does. *)
Definition preserves {W A} (I : W -> Prop) (c : M W A) : Prop :=
  forall w a w', I w -> c w = Ok (a, w') -> I w'.

(** [simulates I phi c1 c2]: from a world [w] that satisfies [I], the run
    of [c2] from [phi w] returns what the run of [c1] from [w] returns, in
    the image under [phi] of the world it ends in, which satisfies [I]
    again; when [c1] fails, [c2] fails with the same error. *)
Definition simulates {W1 W2 A} (I : W1 -> Prop) (phi : W1 -> W2)
    (c1 : M W1 A) (c2 : M W2 A) : Prop :=
  forall w, I w ->
    match c1 w with
    | Ok (a, w') => I w' /\ c2 (phi w) = Ok (a, phi w')
    | Err e => c2 (phi w) = Err e
    end.

(** ** Program equivalence *)

(** Two programs are equivalent when they agree on every world. *)
Definition prog_equiv {W A} (c1 c2 : M W A) : Prop := forall w, c1 w = c2 w.

Infix "≈" := prog_equiv (at level 70, no associativity) : prog_scope.

#[export] Instance prog_equiv_equivalence {W A} : Equivalence (@prog_equiv W A).
Proof.
  split.
  - intros c w. reflexivity.
  - intros c1 c2 H w. symmetry. apply H.
  - intros c1 c2 c3 H12 H23 w. rewrite H12. apply H23.
Qed.

#[export] Instance bind_proper {W A B} :
  Proper (prog_equiv ==> pointwise_relation A prog_equiv ==> prog_equiv) (@bind W A B).
Proof.
  intros c1 c2 Hc k1 k2 Hk w. unfold bind. rewrite Hc.
  destruct (c2 w) as [[a w']|e]; [apply Hk | reflexivity].
Qed.

Section Laws.
Context {W : Type}.

Lemma bind_ret_l {A B} (a : A) (k : A -> M W B) : bind (ret a) k ≈ k a.
Proof. intros w. reflexivity. Qed.

Lemma bind_ret_r {A} (c : M W A) : bind c ret ≈ c.
Proof. intros w. unfold bind, ret. destruct (c w) as [[a w']|e]; reflexivity. Qed.

Lemma bind_assoc {A B C} (c : M W A) (k : A -> M W B) (h : B -> M W C) :
  bind (bind c k) h ≈ bind c (fun a => bind (k a) h).
Proof. intros w. unfold bind. destruct (c w) as [[a w']|e]; reflexivity. Qed.

(** The associativity law at a world, for rewriting inside a run. *)
Lemma bind_bind {A B C} (c : M W A) (k : A -> M W B) (h : B -> M W C) w :
  bind (bind c k) h w = bind c (fun a => bind (k a) h) w.
Proof. apply bind_assoc. Qed.

(** Running a bind whose first program is known to succeed. *)
Lemma bind_ok {A B} (c : M W A) (k : A -> M W B) w a w' :
  c w = Ok (a, w') -> bind c k w = k a w'.
Proof. intros H. unfold bind. rewrite H. reflexivity. Qed.

(** Running a bind whose first program is known to fail. *)
Lemma bind_err {A B} (c : M W A) (k : A -> M W B) w e :
  c w = Err e -> bind c k w = Err e.
Proof. intros H. unfold bind. rewrite H. reflexivity. Qed.

(** A bind that succeeds went through a successful first program. *)
Lemma bind_inv_ok {A B} (c : M W A) (k : A -> M W B) w b w'' :
  bind c k w = Ok (b, w'') ->
  exists a w', c w = Ok (a, w') /\ k a w' = Ok (b, w'').
Proof.
  unfold bind. destruct (c w) as [[a w']|e]; [eauto | discriminate].
Qed.

End Laws.

(** ** Loop rules *)

Section While.
Context {W L : Type} (cond : L -> bool) (body : L -> M W L).

Lemma while_exit fuel s : cond s = false -> while fuel cond body s = ret s.
Proof. intros H. destruct fuel; simpl; rewrite H; reflexivity. Qed.

Lemma while_step fuel s w s' w' :
  cond s = true -> body s w = Ok (s', w') ->
  while (S fuel) cond body s w = while fuel cond body s' w'.
Proof. intros Hc Hb. simpl. rewrite Hc. apply bind_ok, Hb. Qed.

Lemma while_out_of_fuel s w :
  cond s = true -> while O cond body s w = Err OutOfFuel.
Proof. intros H. simpl. rewrite H. reflexivity. Qed.

(** Total correctness.  [Inv] relates the local state and the world;
    [variant] bounds the iterations left.  If every iteration from a state
    that satisfies [Inv] succeeds, restores [Inv] and decreases [variant],
    then a loop started with at least [variant s] fuel ends in a state that
    satisfies [Inv] and falsifies the condition. *)
Variable Inv : L -> W -> Prop.
Variable variant : L -> nat.

Hypothesis body_ok : forall s w,
  Inv s w -> cond s = true ->
  exists s' w', body s w = Ok (s', w') /\ Inv s' w' /\ (variant s' < variant s)%nat.

Lemma while_total fuel s w :
  Inv s w -> (variant s <= fuel)%nat ->
  exists s' w', while fuel cond body s w = Ok (s', w') /\ Inv s' w' /\ cond s' = false.
Proof.
  revert s w. induction fuel as [|fuel IH]; intros s w HI Hv.
  - destruct (cond s) eqn:Hc.
    + destruct (body_ok s w HI Hc) as (s' & w' & _ & _ & Hlt). lia.
    + exists s, w. rewrite while_exit by assumption. auto.
  - destruct (cond s) eqn:Hc.
    + destruct (body_ok s w HI Hc) as (s' & w' & Hb & HI' & Hlt).
      rewrite (while_step _ _ _ _ _ Hc Hb). apply IH; [assumption | lia].
    + exists s, w. rewrite while_exit by assumption. auto.
Qed.

(** The same rule for a loop followed by the rest of the program [k]: it is
    enough to run [k] from the states the loop can end in. *)
Lemma while_rule {B} fuel s w (k : L -> M W B) (r : result (B * W)) :
  Inv s w -> (variant s <= fuel)%nat ->
  (forall s' w', Inv s' w' -> cond s' = false -> k s' w' = r) ->
  bind (while fuel cond body s) k w = r.
Proof.
  intros HI Hv Hk.
  destruct (while_total fuel s w HI Hv) as (s' & w' & Hrun & HI' & Hc).
  rewrite (bind_ok _ _ _ _ _ Hrun). apply Hk; assumption.
Qed.

End While.

(** A loop that ends in an error.  [Inv] implies the condition; every
    iteration either fails with [e] or restores [Inv] and decreases
    [variant].  With more fuel than [variant s], the loop fails with [e]:
    it cannot exit, and it cannot go on for ever. *)
Section WhileFails.
Context {W L : Type} (cond : L -> bool) (body : L -> M W L).
Variable Inv : L -> W -> Prop.
Variable variant : L -> nat.
Variable e : error.

Hypothesis body_fails : forall s w,
  Inv s w ->
  cond s = true /\
  (body s w = Err e \/
   exists s' w', body s w = Ok (s', w') /\ Inv s' w' /\ (variant s' < variant s)%nat).

Lemma while_fails fuel s w :
  Inv s w -> (variant s < fuel)%nat -> while fuel cond body s w = Err e.
Proof.
  revert s w. induction fuel as [|fuel IH]; intros s w HI Hv; [lia|].
  destruct (body_fails s w HI) as [Hc [Hb|(s' & w' & Hb & HI' & Hlt)]].
  - simpl. rewrite Hc. apply bind_err, Hb.
  - rewrite (while_step _ _ _ _ _ _ _ Hc Hb). apply IH; [assumption | lia].
Qed.

End WhileFails.

(** Too little fuel.  [rounds] bounds the iterations left from below: an
    iteration from a state with rounds left succeeds, restores [Inv] and
    uses up at most one.  With less fuel than [rounds s], the loop ends
    in [OutOfFuel]. *)
Section WhileShort.
Context {W L : Type} (cond : L -> bool) (body : L -> M W L).
Variable Inv : L -> W -> Prop.
Variable rounds : L -> nat.

Hypothesis body_round : forall s w,
  Inv s w -> (0 < rounds s)%nat ->
  cond s = true /\
  exists s' w', body s w = Ok (s', w') /\ Inv s' w' /\ (rounds s <= S (rounds s'))%nat.

Lemma while_short fuel s w :
  Inv s w -> (fuel < rounds s)%nat -> while fuel cond body s w = Err OutOfFuel.
Proof.
  revert s w. induction fuel as [|fuel IH]; intros s w HI Hv;
    destruct (body_round s w HI) as (Hc & s' & w' & Hb & HI' & Hle); try lia.
  - apply while_out_of_fuel, Hc.
  - rewrite (while_step _ _ _ _ _ _ _ Hc Hb). apply IH; [assumption | lia].
Qed.

End WhileShort.

(** A counting loop.  When the body takes the state [s] to [next s] and the
    world [w] to [effect s w], for the states [P] holds of, the loop ends
    in [exit_state] with the effects of the visited states applied in
    order. *)
Section WhileFor.
Context {W L : Type} (cond : L -> bool) (body : L -> M W L).
Variable next : L -> L.
Variable effect : L -> W -> W.
Variable P : L -> Prop.
Variable variant : L -> nat.

Hypothesis body_run : forall s w,
  P s -> cond s = true -> body s w = Ok (next s, effect s w).
Hypothesis next_ok : forall s,
  P s -> cond s = true -> P (next s) /\ (variant (next s) < variant s)%nat.

Lemma while_for fuel s w :
  P s -> (variant s <= fuel)%nat ->
  while fuel cond body s w =
  Ok (exit_state fuel cond next s, after_each effect (visits fuel cond next s) w).
Proof.
  revert s w. induction fuel as [|fuel IH]; intros s w HP Hv; simpl;
    destruct (cond s) eqn:Hc; try reflexivity;
    destruct (next_ok s HP Hc) as [HP' Hlt]; [lia|].
  rewrite (bind_ok _ _ _ _ _ (body_run s w HP Hc)).
  apply IH; [assumption | lia].
Qed.

End WhileFor.

(** ** Effects applied over a list *)

Section AfterEach.
Context {W L B : Type} (effect : L -> W -> W) (obs : W -> B).

Lemma after_each_app (l1 l2 : list L) (w : W) :
  after_each effect (l1 ++ l2) w = after_each effect l2 (after_each effect l1 w).
Proof. apply fold_left_app. Qed.

Lemma after_each_cons (a : L) (l : list L) (w : W) :
  after_each effect (a :: l) w = after_each effect l (effect a w).
Proof. reflexivity. Qed.

(** A property every effect keeps holds after all of them. *)
Lemma after_each_keeps (P : W -> Prop) (l : list L) (w : W) :
  (forall a w', P w' -> P (effect a w')) -> P w -> P (after_each effect l w).
Proof.
  intros Hstep. revert w. induction l as [|a l IH]; intros w Hw; [assumption|].
  apply IH, Hstep, Hw.
Qed.

(** An observation no effect of the list changes. *)
Lemma after_each_preserved (l : list L) (w : W) :
  (forall s w', In s l -> obs (effect s w') = obs w') ->
  obs (after_each effect l w) = obs w.
Proof.
  revert w. induction l as [|a l IH]; intros w Hp; [reflexivity|].
  simpl. rewrite IH by (intros; apply Hp; right; assumption).
  apply Hp. left. reflexivity.
Qed.

(** An observation only the effect of [a] changes is, after the whole
    list, what it was right after [a]. *)
Lemma after_each_last_write (l1 l2 : list L) (a : L) (w : W) :
  (forall s w', In s l2 -> obs (effect s w') = obs w') ->
  obs (after_each effect (l1 ++ a :: l2) w) = obs (effect a (after_each effect l1 w)).
Proof. intros Hp. rewrite after_each_app. simpl. apply after_each_preserved, Hp. Qed.

End AfterEach.

(** ** Invariants of the world

    [preserves I] is closed under the constructions programs are made of,
    so an invariant of the calls is an invariant of every program, with no
    assumption on its arguments.  The rules are the hints of
    [preserve_db]. *)

Section Preserves.
Context {W : Type} (I : W -> Prop).

Lemma preserves_ret {A} (a : A) : preserves I (ret a).
Proof. intros w a' w' HI Hr. injection Hr as _ <-. exact HI. Qed.

Lemma preserves_raise {A} (e : error) : preserves I (@raise W A e).
Proof. intros w a w' _ Hr. discriminate Hr. Qed.

Lemma preserves_bind {A B} (c : M W A) (k : A -> M W B) :
  preserves I c -> (forall a, preserves I (k a)) -> preserves I (bind c k).
Proof.
  intros Hc Hk w b w'' HI Hr.
  destruct (bind_inv_ok _ _ _ _ _ Hr) as (a & w' & Hca & Hkb).
  exact (Hk a w' b w'' (Hc w a w' HI Hca) Hkb).
Qed.

Lemma preserves_modify (f : W -> W) :
  (forall w, I w -> I (f w)) -> preserves I (modify f).
Proof. intros Hf w a w' HI Hr. injection Hr as _ <-. apply Hf, HI. Qed.

Lemma preserves_while {L} (cond : L -> bool) (body : L -> M W L) fuel s :
  (forall s', preserves I (body s')) -> preserves I (while fuel cond body s).
Proof.
  intros Hb. revert s. induction fuel as [|fuel IH]; intros s; simpl;
    destruct (cond s); auto using preserves_ret, preserves_raise, preserves_bind.
Qed.

End Preserves.

Create HintDb preserve_db discriminated.
#[export] Hint Constants Opaque : preserve_db.
#[export] Hint Resolve preserves_ret preserves_raise preserves_bind preserves_while
  preserves_modify : preserve_db.

(** ** Simulation

    The rules of [simulates]: a program built from simulated parts is
    simulated. *)

Section Simulates.
Context {W1 W2 : Type} (I : W1 -> Prop) (phi : W1 -> W2).

Lemma simulates_ret {A} (a : A) : simulates I phi (ret a) (ret a).
Proof. intros w HI. split; [exact HI | reflexivity]. Qed.

Lemma simulates_raise {A} (e : error) : simulates I phi (@raise W1 A e) (raise e).
Proof. intros w HI. reflexivity. Qed.

Lemma simulates_bind {A B} (c1 : M W1 A) (c2 : M W2 A) (k1 : A -> M W1 B)
    (k2 : A -> M W2 B) :
  simulates I phi c1 c2 -> (forall a, simulates I phi (k1 a) (k2 a)) ->
  simulates I phi (bind c1 k1) (bind c2 k2).
Proof.
  intros Hc Hk w HI. specialize (Hc w HI). unfold bind.
  destruct (c1 w) as [[a w']|e].
  - destruct Hc as [HI' ->]. apply Hk, HI'.
  - rewrite Hc. reflexivity.
Qed.

Lemma simulates_modify (f1 : W1 -> W1) (f2 : W2 -> W2) :
  (forall w, I w -> I (f1 w) /\ phi (f1 w) = f2 (phi w)) ->
  simulates I phi (modify f1) (modify f2).
Proof.
  intros Hf w HI. destruct (Hf w HI) as [HI' E]. split; [exact HI'|].
  unfold modify. rewrite E. reflexivity.
Qed.

Lemma simulates_while {L} (cond : L -> bool) (body1 : L -> M W1 L)
    (body2 : L -> M W2 L) fuel s :
  (forall s', simulates I phi (body1 s') (body2 s')) ->
  simulates I phi (while fuel cond body1 s) (while fuel cond body2 s).
Proof.
  intros Hb. revert s. induction fuel as [|fuel IH]; intros s; simpl;
    destruct (cond s); auto using simulates_ret, simulates_raise, simulates_bind.
Qed.

(** A run of [c1] that ends gives the run of [c2]. *)
Lemma simulates_ok {A} (c1 : M W1 A) (c2 : M W2 A) w a w' :
  simulates I phi c1 c2 -> I w -> c1 w = Ok (a, w') ->
  I w' /\ c2 (phi w) = Ok (a, phi w').
Proof. intros Hc HI Hr. specialize (Hc w HI). rewrite Hr in Hc. exact Hc. Qed.

Lemma simulates_err {A} (c1 : M W1 A) (c2 : M W2 A) w e :
  simulates I phi c1 c2 -> I w -> c1 w = Err e -> c2 (phi w) = Err e.
Proof. intros Hc HI Hr. specialize (Hc w HI). rewrite Hr in Hc. exact Hc. Qed.

(** A program that is simulated keeps the invariant of the simulation. *)
Lemma simulates_preserves {A} (c1 : M W1 A) (c2 : M W2 A) :
  simulates I phi c1 c2 -> preserves I c1.
Proof. intros Hc w a w' HI Hr. exact (proj1 (simulates_ok c1 c2 w a w' Hc HI Hr)). Qed.

End Simulates.

Create HintDb simulate_db discriminated.
#[export] Hint Constants Opaque : simulate_db.
#[export] Hint Resolve simulates_ret simulates_raise simulates_bind simulates_while
  : simulate_db.

(** More fuel than the variant changes nothing. *)
Lemma while_fuel_mono {W L} (cond : L -> bool) (body : L -> M W L) fuel fuel' s w r :
  while fuel cond body s w = Ok r -> (fuel <= fuel')%nat ->
  while fuel' cond body s w = Ok r.
Proof.
  revert fuel' s w. induction fuel as [|fuel IH]; intros fuel' s w H Hle.
  - simpl in H. destruct (cond s) eqn:Hc; [discriminate|].
    rewrite while_exit by assumption. assumption.
  - destruct fuel' as [|fuel']; [lia|]. simpl in *.
    destruct (cond s); [|assumption].
    unfold bind in *. destruct (body s w) as [[s' w']|e]; [|discriminate].
    apply IH; [assumption | lia].
Qed.
