(* ===== verification/SeriesStore.v ===== *)
(** * SeriesStore: the Series Store of the profiling core (spec 4.1)

    The store holds, per named series, a mapping from input size to a
    measured value.  The store is a pure data structure with three
    operations: [setValue] inserts or overwrites the value at a (series,
    size) key and creates the series on first write, [getValue] looks a key
    up, [allSeries] lists the series in the order they were first written,
    each with its points in ascending size.

    The file has three layers.
    - [Store]: the interface the rest of the profiler is written against, a
      class of operations with the laws the spec promises.
    - [SeriesStore]: the implementation, an association list of series in
      insertion order, each an association list of points kept sorted by
      size.  Its invariant is [wf]; [list_store] shows it implements
      [Store].
    - [abs]: the abstract view of a store as a finite map from keys to
      values, with the refinement theorems [abs_getValue] and
      [abs_setValue]: on the abstract side [getValue] is map lookup and
      [setValue] is map insert. *)

From S2P Require Import Prelude.
From stdpp Require Import base option list gmap strings sorting.

#[local] Open Scope Z_scope.

(** ** The implementation *)

Module SeriesStore.

(** The points of one series: (size, value), ascending by size. *)
Abbreviation points := (list (Z * Z)).

(** The store: (series name, points), in order of first write. *)
Abbreviation t := (list (string * list (Z * Z))).

Definition empty : t := [].

(** Insert or overwrite the value at size [n], keeping the order. *)
Fixpoint insert_point (n v : Z) (pts : points) : points :=
  match pts with
  | [] => [(n, v)]
  | (k, x) :: rest =>
      if decide (n < k) then (n, v) :: (k, x) :: rest
      else if decide (n = k) then (n, v) :: rest
      else (k, x) :: insert_point n v rest
  end.

Fixpoint lookup_point (n : Z) (pts : points) : option Z :=
  match pts with
  | [] => None
  | (k, x) :: rest => if decide (n = k) then Some x else lookup_point n rest
  end.

(** [setValue series size value]: insert or overwrite; a series that is
    not there yet is appended with this one point. *)
Fixpoint setValue (s : string) (n v : Z) (st : t) : t :=
  match st with
  | [] => [(s, [(n, v)])]
  | (s', pts) :: rest =>
      if decide (s = s') then (s', insert_point n v pts) :: rest
      else (s', pts) :: setValue s n v rest
  end.

(** [getValue series size]: the value, or [None] when the key was never
    written. *)
Fixpoint getValue (s : string) (n : Z) (st : t) : option Z :=
  match st with
  | [] => None
  | (s', pts) :: rest =>
      if decide (s = s') then lookup_point n pts else getValue s n rest
  end.

(** [allSeries]: every series with its points, for the report. *)
Definition allSeries (st : t) : list (string * points) := st.

(** The points of one series, empty when the series is absent. *)
Fixpoint seriesPoints (s : string) (st : t) : points :=
  match st with
  | [] => []
  | (s', pts) :: rest => if decide (s = s') then pts else seriesPoints s rest
  end.

Definition names (st : t) : list string := st.*1.

(** The invariant: sizes strictly ascending within a series, and no series
    listed twice. *)
Definition sorted_points (pts : points) : Prop := StronglySorted Z.lt pts.*1.

Definition wf (st : t) : Prop :=
  NoDup (names st) /\ Forall (fun sp => sorted_points sp.2) st.

(** The abstract view: the finite map from (series, size) to value. *)
Definition flatten (st : t) : list ((string * Z) * Z) :=
  mbind (M := list) (fun sp => (fun nv => ((sp.1, nv.1), nv.2)) <$> sp.2) st.

Definition abs (st : t) : gmap (string * Z) Z := list_to_map (flatten st).

End SeriesStore.

(** ** The interface *)

(** What the profiler needs of a series store.  The laws of lookup after
    write hold for every store value; those about [store_all] hold for the
    well-formed ones, and every operation keeps a store well formed. *)
Class Store (T : Type) : Type := {
  store_empty : T;
  store_set : string -> Z -> Z -> T -> T;
  store_get : string -> Z -> T -> option Z;
  store_all : T -> list (string * list (Z * Z));
  store_wf : T -> Prop;
  store_get_empty s n : store_get s n store_empty = None;
  store_get_set_eq s n v st : store_get s n (store_set s n v st) = Some v;
  store_get_set_ne s n s' n' v st :
    (s, n) <> (s', n') -> store_get s' n' (store_set s n v st) = store_get s' n' st;
  store_set_set s n v v' st :
    store_set s n v' (store_set s n v st) = store_set s n v' st;
  store_wf_empty : store_wf store_empty;
  store_wf_set s n v st : store_wf st -> store_wf (store_set s n v st);
  store_all_empty : store_all store_empty = [];
  store_all_names s n v st :
    (store_all (store_set s n v st)).*1 =
    if decide (s ∈ (store_all st).*1) then (store_all st).*1
    else (store_all st).*1 ++ [s];
  store_all_nodup st : store_wf st -> NoDup (store_all st).*1;
  store_all_sorted st s pts :
    store_wf st -> (s, pts) ∈ store_all st -> StronglySorted Z.lt pts.*1;
  store_all_get st s n v :
    store_wf st ->
    store_get s n st = Some v <-> exists pts, (s, pts) ∈ store_all st /\ (n, v) ∈ pts
}.

Module SeriesStoreFacts.
Import SeriesStore.

(** ** Points of one series *)

Section Points.
Implicit Types (n k v : Z) (pts : points).

Lemma lookup_insert_point_eq n v pts :
  lookup_point n (insert_point n v pts) = Some v.
Proof.
  induction pts as [|[k x] pts IH]; simpl; repeat case_decide; simpl;
    repeat case_decide; try done; lia.
Qed.

Lemma lookup_insert_point_ne n k v pts :
  n <> k -> lookup_point k (insert_point n v pts) = lookup_point k pts.
Proof.
  intros Hne. induction pts as [|[k' x] pts IH]; simpl; repeat case_decide; simpl;
    repeat case_decide; try done; lia.
Qed.

Lemma insert_insert_point n v v' pts :
  insert_point n v' (insert_point n v pts) = insert_point n v' pts.
Proof.
  induction pts as [|[k x] pts IH]; simpl; repeat case_decide; simpl;
    repeat case_decide; try done; try lia.
  by rewrite IH.
Qed.

(** The sizes after an insertion: the old ones and the new one. *)
Lemma elem_of_insert_point_keys n v k pts :
  k ∈ (insert_point n v pts).*1 <-> k = n \/ k ∈ pts.*1.
Proof.
  induction pts as [|[k' x] pts IH]; simpl; repeat case_decide; simpl;
    rewrite ?elem_of_cons, ?elem_of_nil, ?IH; naive_solver.
Qed.

Lemma insert_point_sorted n v pts :
  sorted_points pts -> sorted_points (insert_point n v pts).
Proof.
  unfold sorted_points.
  induction pts as [|[k x] pts IH]; simpl; intros Hs.
  - repeat constructor.
  - apply StronglySorted_cons in Hs as [Hall Hs].
    repeat case_decide; simpl; subst.
    + apply StronglySorted_cons. split; [|by apply StronglySorted_cons].
      constructor; [done|]. eapply Forall_impl; [exact Hall|]. simpl. lia.
    + by apply StronglySorted_cons.
    + apply StronglySorted_cons. split; [|by apply IH].
      apply Forall_forall. intros k' [->|Hin]%elem_of_insert_point_keys; [lia|].
      by eapply Forall_forall in Hall.
Qed.

(** In a sorted series a size has one value: membership is lookup. *)
Lemma lookup_point_elem_of n v pts :
  sorted_points pts -> lookup_point n pts = Some v <-> (n, v) ∈ pts.
Proof.
  unfold sorted_points.
  induction pts as [|[k x] pts IH]; simpl; intros Hs.
  - rewrite elem_of_nil. naive_solver.
  - apply StronglySorted_cons in Hs as [Hall Hs]. rewrite elem_of_cons.
    case_decide as Hnk; subst.
    + split; [naive_solver|]. intros [?|Hin]; [naive_solver|].
      eapply Forall_forall in Hall; [|apply (list_elem_of_fmap_2 fst _ _ Hin)].
      simpl in Hall. lia.
    + rewrite IH by done. naive_solver.
Qed.

(** The length grows by one for a new size and is unchanged by an
    overwrite. *)
Lemma lookup_point_None n pts : lookup_point n pts = None <-> n ∉ pts.*1.
Proof.
  induction pts as [|[k x] pts IH]; simpl.
  - rewrite elem_of_nil. naive_solver.
  - rewrite not_elem_of_cons. case_decide; naive_solver.
Qed.

Lemma length_insert_point n v pts :
  sorted_points pts ->
  length (insert_point n v pts) =
  match lookup_point n pts with Some _ => length pts | None => S (length pts) end.
Proof.
  unfold sorted_points.
  induction pts as [|[k x] pts IH]; simpl; intros Hs; [done|].
  apply StronglySorted_cons in Hs as [Hall Hs].
  repeat case_decide; simpl; try done; try lia.
  - replace (lookup_point n pts) with (@None Z); [done|].
    symmetry. apply lookup_point_None. intros Hin.
    eapply Forall_forall in Hall; [|exact Hin]. lia.
  - rewrite IH by done. by destruct (lookup_point n pts).
Qed.

End Points.

(** ** The table of series *)

Section Table.
Implicit Types (s : string) (n v : Z) (st : t).

Lemma getValue_setValue_eq s n v st : getValue s n (setValue s n v st) = Some v.
Proof.
  induction st as [|[s' pts] st IH]; simpl; repeat (case_decide; simpl); try done.
  apply lookup_insert_point_eq.
Qed.

Lemma getValue_setValue_ne s n s' n' v st :
  (s, n) <> (s', n') -> getValue s' n' (setValue s n v st) = getValue s' n' st.
Proof.
  intros Hne.
  induction st as [|[s0 pts] st IH]; simpl; repeat (case_decide; simpl);
    simplify_eq; try done.
  apply lookup_insert_point_ne. congruence.
Qed.

Lemma setValue_setValue s n v v' st :
  setValue s n v' (setValue s n v st) = setValue s n v' st.
Proof.
  induction st as [|[s' pts] st IH]; simpl; repeat (case_decide; simpl);
    simplify_eq; rewrite ?insert_insert_point, ?IH; try done; lia.
Qed.

(** A first write appends the series; a later one leaves the order alone. *)
Lemma names_setValue s n v st :
  names (setValue s n v st) =
  if decide (s ∈ names st) then names st else names st ++ [s].
Proof.
  unfold names.
  induction st as [|[s' pts] st IH]; csimpl; [done|].
  destruct (decide (s = s')) as [->|Hne]; csimpl.
  - rewrite decide_True; [done | set_solver].
  - rewrite IH. destruct (decide (s ∈ st.*1)).
    + rewrite decide_True; [done | set_solver].
    + rewrite decide_False; [done | set_solver].
Qed.

Lemma getValue_seriesPoints s n st :
  getValue s n st = lookup_point n (seriesPoints s st).
Proof. induction st as [|[s' pts] st IH]; simpl; [done|]. by case_decide. Qed.

Lemma getValue_not_named s n st : s ∉ names st -> getValue s n st = None.
Proof.
  unfold names. induction st as [|[s' pts] st IH]; simpl; [done|].
  rewrite not_elem_of_cons. intros [? ?]. case_decide; [done | by apply IH].
Qed.

Lemma setValue_wf s n v st : wf st -> wf (setValue s n v st).
Proof.
  intros [Hnd Hs]. split.
  - rewrite names_setValue. case_decide; [done|].
    apply NoDup_app. split_and!; [done | set_solver | apply NoDup_singleton].
  - clear Hnd. induction Hs as [|[s' pts] st Hpts Hs IH]; simpl.
    + repeat constructor.
    + case_decide; constructor; simpl in *; auto using insert_point_sorted.
Qed.

Lemma elem_of_wf s pts st :
  wf st -> (s, pts) ∈ st -> sorted_points pts /\ seriesPoints s st = pts.
Proof.
  intros [Hnd Hs] Hin. split.
  - by eapply Forall_forall in Hs; [|exact Hin].
  - clear Hs. unfold names in Hnd.
    induction st as [|[s' pts'] st IH]; simpl in *; [by apply elem_of_nil in Hin|].
    apply NoDup_cons in Hnd as [Hfresh Hnd].
    apply elem_of_cons in Hin as [?|Hin]; simplify_eq.
    + by rewrite decide_True.
    + rewrite decide_False; [by apply IH|].
      intros ->. apply Hfresh. by apply (list_elem_of_fmap_2 fst _ _ Hin).
Qed.

Lemma seriesPoints_elem_of s st : s ∈ names st -> (s, seriesPoints s st) ∈ st.
Proof.
  unfold names. induction st as [|[s' pts] st IH]; simpl.
  - by intros ?%elem_of_nil.
  - intros Hin. case_decide; simplify_eq; [apply list_elem_of_here|].
    apply list_elem_of_further, IH. set_solver.
Qed.

(** A key holds a value exactly when the report lists it. *)
Lemma getValue_allSeries s n v st :
  wf st ->
  getValue s n st = Some v <-> exists pts, (s, pts) ∈ allSeries st /\ (n, v) ∈ pts.
Proof.
  intros Hwf. unfold allSeries. split.
  - intros Hget. exists (seriesPoints s st).
    destruct (decide (s ∈ names st)) as [Hin|Hout].
    + pose proof (seriesPoints_elem_of _ _ Hin) as Hsp. split; [done|].
      apply lookup_point_elem_of; [by apply (elem_of_wf _ _ _ Hwf Hsp)|].
      by rewrite <- getValue_seriesPoints.
    + by rewrite getValue_not_named in Hget.
  - intros (pts & Hin & Hnv).
    destruct (elem_of_wf _ _ _ Hwf Hin) as [Hsorted <-].
    rewrite getValue_seriesPoints. by apply lookup_point_elem_of.
Qed.

Lemma empty_wf : wf empty.
Proof. split; [apply NoDup_nil_2 | apply Forall_nil_2]. Qed.

Lemma allSeries_sorted st s pts :
  wf st -> (s, pts) ∈ allSeries st -> StronglySorted Z.lt pts.*1.
Proof. intros Hwf Hin. by apply (elem_of_wf _ _ _ Hwf Hin). Qed.

End Table.

(** ** The implementation meets the interface *)

#[global] Instance list_store : Store t := {|
  store_empty := empty;
  store_set := setValue;
  store_get := getValue;
  store_all := allSeries;
  store_wf := wf;
  store_get_empty := fun _ _ => eq_refl;
  store_get_set_eq := getValue_setValue_eq;
  store_get_set_ne := getValue_setValue_ne;
  store_set_set := setValue_setValue;
  store_wf_empty := empty_wf;
  store_wf_set := setValue_wf;
  store_all_empty := eq_refl;
  store_all_names := names_setValue;
  store_all_nodup := fun st Hwf => proj1 Hwf;
  store_all_sorted := allSeries_sorted;
  store_all_get := fun st s n v Hwf => getValue_allSeries s n v st Hwf
|}.

(** ** Refinement to a finite map *)

Section Refinement.
Implicit Types (s : string) (n v : Z) (st : t).

Lemma lookup_series_map s s' n (pts : points) :
  (list_to_map ((fun nv => ((s', nv.1), nv.2)) <$> pts) : gmap (string * Z) Z)
    !! (s, n) = if decide (s = s') then lookup_point n pts else None.
Proof.
  induction pts as [|[k x] pts IH]; csimpl.
  - rewrite lookup_empty. by case_decide.
  - rewrite lookup_insert, IH. repeat case_decide; simplify_eq; done.
Qed.

(** On a store with no series listed twice, [getValue] is the lookup of the
    abstract map. *)
Lemma abs_getValue s n st : NoDup (names st) -> abs st !! (s, n) = getValue s n st.
Proof.
  unfold abs, flatten, names.
  induction st as [|[s' pts] st IH]; csimpl; intros Hnd; [apply lookup_empty|].
  apply NoDup_cons in Hnd as [Hfresh Hnd].
  rewrite list_to_map_app, lookup_union, lookup_series_map, IH by done.
  case_decide; subst.
  - rewrite (getValue_not_named _ _ _ Hfresh). by destruct (lookup_point n pts).
  - by destruct (getValue s n st).
Qed.

Lemma abs_empty : abs empty = ∅.
Proof. reflexivity. Qed.

(** [setValue] is the insertion of the abstract map. *)
Lemma abs_setValue s n v st :
  wf st -> abs (setValue s n v st) = <[(s, n) := v]> (abs st).
Proof.
  intros Hwf. apply map_eq. intros [s' n'].
  rewrite abs_getValue by apply (setValue_wf _ _ _ _ Hwf).
  rewrite lookup_insert. case_decide as Heq.
  - inversion Heq; subst. apply getValue_setValue_eq.
  - rewrite getValue_setValue_ne by done. symmetry. apply abs_getValue, Hwf.
Qed.

End Refinement.

End SeriesStoreFacts.
