(* ===== verification/Profiler.v ===== *)
(** * Profiler: the profiling core the demo calls (spec 3, 4.2 to 4.5, 7)

    Profiler.h is not among the sources; this file models it from the
    specification.  A [Profiler] is the one active session: its name, its
    generation (bumped by every [reset]), the series store, the running
    timers, the groups, and whether a report was shown.  The store is any
    implementation of the [Store] interface of [SeriesStore]; everything
    here is proved from the interface laws alone.

    - Operation Handle (4.2): [createOperation] writes 0 and returns a
      handle that remembers the generation; [count] adds to the handle and
      rewrites the total; [destroyOperation] is the write at scope exit;
      a handle of an older generation writes nothing (7, stale handle).
      [countOperation] is the fire-and-forget form and overwrites.
    - Timer Session (4.3): [startTimer] records a timestamp, [stopTimer]
      writes the elapsed time and forgets the timestamp, or fails with
      [UnmatchedStop].  The timestamps are arguments: the clock belongs to
      the caller.
    - Group Registry (4.4): [createGroup], [groupMembers].
    - Session Manager (4.5): [createSession], [reset], [showReport].

    The last part is the session state machine: the calls as the
    inductive type [Call], [call_step] as the transition they induce,
    [reachable] as the states a fresh session can get to, and the
    invariant [wf], the phase and the generation along every step. *)

From S2P Require Import Prelude Monad SeriesStore.
From stdpp Require Import base option list gmap strings sorting.

#[local] Open Scope Z_scope.

(** ** Data *)

(** The lifecycle of a session (4.5): it accepts writes until the report is
    shown; [reset] starts over. *)
Inductive Phase : Type := Active | Reported.

#[export] Instance Phase_eq_dec : EqDecision Phase.
Proof. solve_decision. Defined.

(** An operation handle: the key it counts for, its running total, and the
    generation of the session that created it. *)
Record Operation : Type := mkOperation {
  op_series : string;
  op_size : Z;
  op_total : Z;
  op_generation : nat
}.

(** What [showReport] hands to the renderer: each group with the points of
    its series (in the order the group lists them), then the series that
    belong to no group. *)
Record Report : Type := mkReport {
  rep_session : string;
  rep_groups : list (string * list (string * list (Z * Z)));
  rep_ungrouped : list (string * list (Z * Z))
}.

Section Profiler.
Context {T : Type} `{Store T}.

Record Profiler : Type := mkProfiler {
  sessionName : string;
  generation : nat;
  series : T;
  timers : gmap (string * Z) Z;
  groups : list (string * list string);
  phase : Phase
}.

Implicit Types (p : Profiler) (o : Operation) (s g : string) (n v : Z).

Definition with_series (st : T) p : Profiler :=
  mkProfiler (sessionName p) (generation p) st (timers p) (groups p) (phase p).

Definition with_timers (tm : gmap (string * Z) Z) p : Profiler :=
  mkProfiler (sessionName p) (generation p) (series p) tm (groups p) (phase p).

Definition with_groups (gs : list (string * list string)) p : Profiler :=
  mkProfiler (sessionName p) (generation p) (series p) (timers p) gs (phase p).

Definition with_phase (ph : Phase) p : Profiler :=
  mkProfiler (sessionName p) (generation p) (series p) (timers p) (groups p) ph.

(** ** Series Store access *)

Definition storeValue s n v p : Profiler := with_series (store_set s n v (series p)) p.

Definition valueAt s n p : option Z := store_get s n (series p).

(** ** Session Manager: creation and reset *)

Definition createSession (name : string) : Profiler :=
  mkProfiler name 0 store_empty ∅ [] Active.

(** [reset name] drops every series, timer and group, and starts the next
    generation under [name]. *)
Definition reset (name : string) p : Profiler :=
  mkProfiler name (S (generation p)) store_empty ∅ [] Active.

(** ** Operation Handle *)

(** A handle is current while no [reset] happened since it was created. *)
Definition current o p : bool := bool_decide (op_generation o = generation p).

Definition createOperation s n p : Operation * Profiler :=
  (mkOperation s n 0 (generation p), storeValue s n 0 p).

(** [o.count(delta)]: the handle adds [delta]; a current handle rewrites its
    total into the store. *)
Definition count o (delta : Z) p : Operation * Profiler :=
  let o' := mkOperation (op_series o) (op_size o) (op_total o + delta)
                        (op_generation o) in
  (o', if current o p then storeValue (op_series o) (op_size o) (op_total o') p else p).

(** The write at the end of the handle's scope. *)
Definition destroyOperation o p : Profiler :=
  if current o p then storeValue (op_series o) (op_size o) (op_total o) p else p.

(** [countOperation series size delta]: one measurement, stored as is. *)
Definition countOperation s n (delta : Z) p : Profiler := storeValue s n delta p.

(** ** Timer Session *)

Definition startTimer (now : Z) s n p : Profiler :=
  with_timers (<[(s, n) := now]> (timers p)) p.

Definition stopTimer (now : Z) s n p : result Profiler :=
  match timers p !! (s, n) with
  | Some started =>
      Ok (storeValue s n (now - started) (with_timers (delete (s, n) (timers p)) p))
  | None => Err (UnmatchedStop s n)
  end.

(** ** Group Registry *)

Fixpoint put_group g (members : list string) (gs : list (string * list string))
  : list (string * list string) :=
  match gs with
  | [] => [(g, members)]
  | (g', ms) :: rest =>
      if decide (g = g') then (g, members) :: rest
      else (g', ms) :: put_group g members rest
  end.

Definition createGroup g (members : list string) p : Profiler :=
  with_groups (put_group g members (groups p)) p.

Fixpoint find_group g (gs : list (string * list string)) : option (list string) :=
  match gs with
  | [] => None
  | (g', ms) :: rest => if decide (g = g') then Some ms else find_group g rest
  end.

Definition groupMembers g p : option (list string) := find_group g (groups p).

(** ** Session Manager: the report *)

(** The points of a series in the listing of the store, empty when the
    series was never written. *)
Fixpoint points_of s (all : list (string * list (Z * Z))) : list (Z * Z) :=
  match all with
  | [] => []
  | (s', pts) :: rest => if decide (s = s') then pts else points_of s rest
  end.

Definition grouped (gs : list (string * list string)) : list string :=
  mbind (M := list) snd gs.

Definition report p : Report :=
  let all := store_all (series p) in
  mkReport (sessionName p)
    ((fun gm : string * list string =>
        (gm.1, (fun s => (s, points_of s all)) <$> gm.2)) <$> groups p)
    (filter (fun sp : string * list (Z * Z) => sp.1 ∉ grouped (groups p)) all).

Definition showReport p : Report * Profiler := (report p, with_phase Reported p).

(** ** The invariant *)

Definition wf p : Prop := store_wf (series p) /\ NoDup (groups p).*1.

(** ** The session as a state machine *)

(** The calls of the instrumentation API (6).  A timer call carries the
    clock reading it takes, a handle call the handle it is made on. *)
Inductive Call : Type :=
| CallCreateOperation (s : string) (n : Z)
| CallCount (o : Operation) (delta : Z)
| CallDestroy (o : Operation)
| CallCountOperation (s : string) (n : Z) (delta : Z)
| CallStartTimer (now : Z) (s : string) (n : Z)
| CallStopTimer (now : Z) (s : string) (n : Z)
| CallCreateGroup (g : string) (members : list string)
| CallReset (name : string)
| CallShowReport.

(** One call: the next state, or the usage error of [stopTimer]. *)
Definition call_step (c : Call) p : result Profiler :=
  match c with
  | CallCreateOperation s n => Ok (createOperation s n p).2
  | CallCount o delta => Ok (count o delta p).2
  | CallDestroy o => Ok (destroyOperation o p)
  | CallCountOperation s n delta => Ok (countOperation s n delta p)
  | CallStartTimer now s n => Ok (startTimer now s n p)
  | CallStopTimer now s n => stopTimer now s n p
  | CallCreateGroup g members => Ok (createGroup g members p)
  | CallReset name => Ok (reset name p)
  | CallShowReport => Ok (showReport p).2
  end.

(** A sequence of calls, stopped by the first error. *)
Fixpoint run_calls (cs : list Call) p : result Profiler :=
  match cs with
  | [] => Ok p
  | c :: cs' =>
      match call_step c p with
      | Ok p' => run_calls cs' p'
      | Err e => Err e
      end
  end.

(** The states a session can be in: those some sequence of successful
    calls leads to from a fresh session. *)
Inductive reachable : Profiler -> Prop :=
| reachable_init name : reachable (createSession name)
| reachable_step p c p' : reachable p -> call_step c p = Ok p' -> reachable p'.

(** The phase after a call (4.5): [showReport] ends the session, [reset]
    starts the next one, every other call stays where it is. *)
Definition next_phase (c : Call) (ph : Phase) : Phase :=
  match c with
  | CallReset _ => Active
  | CallShowReport => Reported
  | _ => ph
  end.

(** ** Series Store access *)

Lemma valueAt_storeValue_eq s n v p : valueAt s n (storeValue s n v p) = Some v.
Proof. apply store_get_set_eq. Qed.

Lemma valueAt_storeValue_ne s n s' n' v p :
  (s, n) <> (s', n') -> valueAt s' n' (storeValue s n v p) = valueAt s' n' p.
Proof. apply store_get_set_ne. Qed.

Lemma storeValue_storeValue s n v v' p :
  storeValue s n v' (storeValue s n v p) = storeValue s n v' p.
Proof. unfold storeValue, with_series. simpl. by rewrite store_set_set. Qed.

Lemma storeValue_wf s n v p : wf p -> wf (storeValue s n v p).
Proof. intros [Hs Hg]. split; [by apply store_wf_set | done]. Qed.

(** ** Sessions *)

Lemma createSession_wf name : wf (createSession name).
Proof. split; [apply store_wf_empty | apply NoDup_nil_2]. Qed.

Lemma reset_wf name p : wf (reset name p).
Proof. split; [apply store_wf_empty | apply NoDup_nil_2]. Qed.

(** After [reset] no key of the old session is there, and the session has
    the new name. *)
Lemma valueAt_reset name s n p : valueAt s n (reset name p) = None.
Proof. apply store_get_empty. Qed.

Lemma valueAt_createSession name s n : valueAt s n (createSession name) = None.
Proof. apply store_get_empty. Qed.

(** ** Operation Handle *)

Lemma current_spec o p : current o p = true <-> op_generation o = generation p.
Proof. unfold current. apply bool_decide_eq_true. Qed.

Lemma current_storeValue o s n v p : current o (storeValue s n v p) = current o p.
Proof. reflexivity. Qed.

Lemma createOperation_current s n p :
  current (createOperation s n p).1 (createOperation s n p).2 = true.
Proof. by apply current_spec. Qed.

(** A handle created and never counted leaves 0 at its key. *)
Lemma valueAt_createOperation s n p :
  valueAt s n (createOperation s n p).2 = Some 0.
Proof. apply valueAt_storeValue_eq. Qed.

Lemma count_current o delta p :
  current o p = true ->
  count o delta p =
  (mkOperation (op_series o) (op_size o) (op_total o + delta) (op_generation o),
   storeValue (op_series o) (op_size o) (op_total o + delta) p).
Proof. intros Hc. unfold count. by rewrite Hc. Qed.

Lemma count_keeps_current o delta p :
  current (count o delta p).1 (count o delta p).2 = current o p.
Proof. unfold count. simpl. by destruct (current o p) eqn:Hc. Qed.

Lemma destroyOperation_current o p :
  current o p = true ->
  destroyOperation o p = storeValue (op_series o) (op_size o) (op_total o) p.
Proof. intros Hc. unfold destroyOperation. by rewrite Hc. Qed.

(** A handle of a session that was reset since is stale: counting on it or
    destroying it leaves the new session untouched. *)
Lemma reset_stale o name p :
  (op_generation o <= generation p)%nat -> current o (reset name p) = false.
Proof. intros Hle. apply bool_decide_eq_false. simpl. lia. Qed.

Lemma count_stale o delta p : current o p = false -> (count o delta p).2 = p.
Proof. intros Hc. unfold count. by rewrite Hc. Qed.

Lemma destroyOperation_stale o p : current o p = false -> destroyOperation o p = p.
Proof. intros Hc. unfold destroyOperation. by rewrite Hc. Qed.

Lemma count_wf o delta p : wf p -> wf (count o delta p).2.
Proof. intros Hwf. unfold count. simpl. destruct (current o p); auto using storeValue_wf. Qed.

Lemma destroyOperation_wf o p : wf p -> wf (destroyOperation o p).
Proof. intros Hwf. unfold destroyOperation. destruct (current o p); auto using storeValue_wf. Qed.

(** [k] unit counts on a current handle add [k] to its total and leave the
    new total in the store; all the writes collapse into the last one. *)
Lemma count_iter (k : nat) o p :
  current o p = true ->
  Nat.iter k (fun op => count op.1 1 op.2) (o, p) =
  (mkOperation (op_series o) (op_size o) (op_total o + Z.of_nat k) (op_generation o),
   match k with
   | O => p
   | S _ => storeValue (op_series o) (op_size o) (op_total o + Z.of_nat k) p
   end).
Proof.
  intros Hc. induction k as [|k IH].
  - simpl. rewrite Z.add_0_r. by destruct o.
  - rewrite Nat.iter_succ, IH. simpl fst. simpl snd.
    rewrite count_current by (destruct k; done).
    simpl. f_equal; [f_equal; lia|].
    destruct k; [f_equal; lia|]. rewrite storeValue_storeValue. f_equal. lia.
Qed.

(** [count(delta)] once is [count()] [delta] times (spec 4.2, 8). *)
Lemma count_delta_as_units (delta : nat) o p :
  current o p = true -> (0 < delta)%nat ->
  count o (Z.of_nat delta) p = Nat.iter delta (fun op => count op.1 1 op.2) (o, p).
Proof.
  intros Hc Hpos. rewrite count_iter, count_current by done.
  by destruct delta; [lia|].
Qed.

(** The fire-and-forget form is a handle created, counted once and
    destroyed. *)
Lemma countOperation_as_handle s n delta p :
  countOperation s n delta p =
  let op := createOperation s n p in
  let op' := count op.1 delta op.2 in
  destroyOperation op'.1 op'.2.
Proof.
  cbv zeta. rewrite count_current by apply createOperation_current.
  rewrite destroyOperation_current by (by apply current_spec).
  unfold countOperation. cbn [fst snd op_series op_size op_total createOperation].
  by rewrite !storeValue_storeValue.
Qed.

(** ** Timer Session *)

Lemma stopTimer_started now0 now s n p :
  timers p !! (s, n) = Some now0 ->
  stopTimer now s n p =
  Ok (storeValue s n (now - now0) (with_timers (delete (s, n) (timers p)) p)).
Proof. intros Ht. unfold stopTimer. by rewrite Ht. Qed.

(** Start then stop stores the elapsed time. *)
Lemma stopTimer_startTimer now0 now s n p :
  stopTimer now s n (startTimer now0 s n p) =
  Ok (storeValue s n (now - now0) (with_timers (delete (s, n) (timers p)) p)).
Proof.
  unfold stopTimer, startTimer. simpl. rewrite lookup_insert_eq.
  by rewrite delete_insert_eq.
Qed.

(** Starting twice keeps the second timestamp only. *)
Lemma startTimer_startTimer now0 now1 s n p :
  startTimer now1 s n (startTimer now0 s n p) = startTimer now1 s n p.
Proof. unfold startTimer, with_timers. simpl. by rewrite insert_insert_eq. Qed.

(** A stop with no start is the usage error, and so is a second stop. *)
Lemma stopTimer_unmatched now s n p :
  timers p !! (s, n) = None -> stopTimer now s n p = Err (UnmatchedStop s n).
Proof. intros Ht. unfold stopTimer. by rewrite Ht. Qed.

Lemma stopTimer_twice now now' s n p p' :
  stopTimer now s n p = Ok p' -> stopTimer now' s n p' = Err (UnmatchedStop s n).
Proof.
  unfold stopTimer. destruct (timers p !! (s, n)); [|done].
  intros [= <-]. simpl. by rewrite lookup_delete_eq.
Qed.

Lemma stopTimer_wf now s n p p' : wf p -> stopTimer now s n p = Ok p' -> wf p'.
Proof.
  intros Hwf. unfold stopTimer. destruct (timers p !! (s, n)); [|done].
  intros [= <-]. by apply storeValue_wf.
Qed.

(** ** Group Registry *)

Lemma find_put_group_eq g ms gs : find_group g (put_group g ms gs) = Some ms.
Proof.
  induction gs as [|[g' ms'] gs IH]; simpl; repeat (case_decide; simpl); done.
Qed.

Lemma find_put_group_ne g g' ms gs :
  g <> g' -> find_group g' (put_group g ms gs) = find_group g' gs.
Proof.
  intros Hne.
  induction gs as [|[g0 ms'] gs IH]; simpl; repeat (case_decide; simpl);
    simplify_eq; done.
Qed.

Lemma put_group_names g ms gs :
  (put_group g ms gs).*1 = if decide (g ∈ gs.*1) then gs.*1 else gs.*1 ++ [g].
Proof.
  induction gs as [|[g' ms'] gs IH]; csimpl; [done|].
  destruct (decide (g = g')) as [->|Hne]; csimpl.
  - rewrite decide_True; [done | set_solver].
  - rewrite IH. destruct (decide (g ∈ gs.*1)).
    + rewrite decide_True; [done | set_solver].
    + rewrite decide_False; [done | set_solver].
Qed.

(** [createGroup g a b] then asking for [g] gives exactly [a; b]. *)
Lemma groupMembers_createGroup g ms p : groupMembers g (createGroup g ms p) = Some ms.
Proof. apply find_put_group_eq. Qed.

Lemma createGroup_wf g ms p : wf p -> wf (createGroup g ms p).
Proof.
  intros [Hs Hg]. split; [done|]. simpl. rewrite put_group_names.
  case_decide; [done|].
  apply NoDup_app. split_and!; [done | set_solver | apply NoDup_singleton].
Qed.

(** ** The state machine *)

Lemma startTimer_wf now s n p : wf p -> wf (startTimer now s n p).
Proof. by intros [Hs Hg]. Qed.

Lemma showReport_wf p : wf p -> wf (showReport p).2.
Proof. by intros [Hs Hg]. Qed.

(** Every call keeps the invariant. *)
Lemma call_step_wf c p p' : wf p -> call_step c p = Ok p' -> wf p'.
Proof.
  intros Hwf Hc. destruct c; simpl in Hc; try (injection Hc as <-);
    [ apply storeValue_wf | apply count_wf | apply destroyOperation_wf
    | apply storeValue_wf | apply startTimer_wf | eapply stopTimer_wf
    | apply createGroup_wf | apply reset_wf | apply showReport_wf ]; eauto.
Qed.

Lemma reachable_wf p : reachable p -> wf p.
Proof.
  induction 1 as [name|p c p' _ IH Hc]; [apply createSession_wf|].
  by apply (call_step_wf c p).
Qed.

Lemma call_step_phase c p p' :
  call_step c p = Ok p' -> phase p' = next_phase c (phase p).
Proof.
  destruct c; simpl; intros Hc; try (by injection Hc as <-).
  - injection Hc as <-. unfold count. simpl. by case_match.
  - injection Hc as <-. unfold destroyOperation. by case_match.
  - unfold stopTimer in Hc. case_match; [|done]. by injection Hc as <-.
Qed.

(** The generation never goes back, and only [reset] advances it. *)
Lemma call_step_generation c p p' :
  call_step c p = Ok p' ->
  generation p' = match c with CallReset _ => S (generation p) | _ => generation p end.
Proof.
  destruct c; simpl; intros Hc; try (by injection Hc as <-).
  - injection Hc as <-. unfold count. simpl. by case_match.
  - injection Hc as <-. unfold destroyOperation. by case_match.
  - unfold stopTimer in Hc. case_match; [|done]. by injection Hc as <-.
Qed.

Lemma run_calls_app cs1 cs2 p :
  run_calls (cs1 ++ cs2) p =
  match run_calls cs1 p with Ok p' => run_calls cs2 p' | Err e => Err e end.
Proof.
  revert p. induction cs1 as [|c cs1 IH]; intros p; [done|].
  simpl. destruct (call_step c p); [apply IH | done].
Qed.

Lemma run_calls_generation cs p p' :
  run_calls cs p = Ok p' -> (generation p <= generation p')%nat.
Proof.
  revert p. induction cs as [|c cs IH]; intros p Hr; simpl in Hr.
  - injection Hr as <-. lia.
  - destruct (call_step c p) as [p1|] eqn:Hc; [|done].
    apply call_step_generation in Hc. apply IH in Hr. destruct c; lia.
Qed.

(** The reachable states are the results of the successful runs. *)
Lemma reachable_run_calls p :
  reachable p <-> exists name cs, run_calls cs (createSession name) = Ok p.
Proof.
  split.
  - induction 1 as [name|p c p' _ (name & cs & Hr) Hc]; [by exists name, []|].
    exists name, (cs ++ [c]). rewrite run_calls_app, Hr. simpl. by rewrite Hc.
  - intros (name & cs & Hr). revert p Hr.
    induction cs as [|c cs IH] using rev_ind; intros p Hr.
    + injection Hr as <-. constructor.
    + rewrite run_calls_app in Hr.
      destruct (run_calls cs (createSession name)) as [p1|] eqn:Hr1; [|done].
      simpl in Hr. destruct (call_step c p1) as [p2|] eqn:Hc; [|done].
      injection Hr as <-. by eapply reachable_step; [apply IH|].
Qed.

(** A handle made before a [reset] stays stale whatever is called later:
    its counts and its final write never reach the store. *)
Lemma stale_forever cs o name p p' :
  run_calls (CallReset name :: cs) p = Ok p' ->
  (op_generation o <= generation p)%nat -> current o p' = false.
Proof.
  simpl. intros Hr%run_calls_generation Ho. simpl in Hr.
  apply bool_decide_eq_false. lia.
Qed.

End Profiler.

Arguments Profiler T : clear implicits.
