(* ===== verification/World.v ===== *)
(** * World: what the demo runs in

    The state of a run of src/example1.cpp: the global object [profiler],
    what was printed, the reports shown, and the two things the program
    reads from outside, the wall clock and the random-number source, each
    an infinite sequence of readings with a cursor.

    The calls of the demo into the profiler are the programs of this file:
    each runs the operation of [Profiler] on the [profiler] field.  The
    [run_] lemmas say what each call does to the world; the algorithms are
    proved from them, never by unfolding the calls. *)

From S2P Require Import Prelude Monad SeriesStore Profiler.
From stdpp Require Import base option list gmap strings.

#[local] Open Scope Z_scope.
#[local] Open Scope prog_scope.

Section World.
Context {T : Type} `{Store T}.

Record World : Type := mkWorld {
  profiler : Profiler T;      (* the global [profiler] *)
  stdout : list string;       (* what [printf] wrote, oldest first *)
  reports : list Report;      (* what [showReport] rendered, oldest first *)
  ticks : nat;                (* clock readings taken so far *)
  clock : nat -> Z;           (* the k-th reading of the wall clock *)
  drawn : nat;                (* random numbers drawn so far *)
  random : nat -> Z           (* the k-th random number *)
}.

Implicit Types (w : World) (o : Operation) (s : string) (n : Z).

Definition with_profiler (p : Profiler T) w : World :=
  mkWorld p (stdout w) (reports w) (ticks w) (clock w) (drawn w) (random w).

(** The world at program start: the constructor of the global ran, nothing
    was printed or read. *)
Definition initial_world (name : string) (clk rnd : nat -> Z) : World :=
  mkWorld (createSession name) [] [] 0 clk 0 rnd.

(** ** The calls into the profiler *)

Definition createOperationM s n : M World Operation :=
  fun w => let r := createOperation s n (profiler w) in Ok (r.1, with_profiler r.2 w).

Definition countM o (delta : Z) : M World Operation :=
  fun w => let r := count o delta (profiler w) in Ok (r.1, with_profiler r.2 w).

Definition destroyM o : M World unit :=
  modify (fun w => with_profiler (destroyOperation o (profiler w)) w).

Definition countOperationM s n (delta : Z) : M World unit :=
  modify (fun w => with_profiler (countOperation s n delta (profiler w)) w).

(** The world after [createGroup], and the call. *)
Definition grouped_as (g : string) (members : list string) w : World :=
  with_profiler (createGroup g members (profiler w)) w.

Definition createGroupM (g : string) (members : list string) : M World unit :=
  modify (grouped_as g members).

(** The world after [reset]: the next session, nothing recorded. *)
Definition in_session (name : string) w : World :=
  with_profiler (reset name (profiler w)) w.

Definition resetM (name : string) : M World unit := modify (in_session name).

(** Reading the clock takes the next reading. *)
Definition ticked w : World :=
  mkWorld (profiler w) (stdout w) (reports w) (S (ticks w)) (clock w)
          (drawn w) (random w).

Definition now : M World Z := fun w => Ok (clock w (ticks w), ticked w).

Definition startTimerM s n : M World unit :=
  t <- now ;;
  modify (fun w => with_profiler (startTimer t s n (profiler w)) w).

Definition stopTimerM s n : M World unit :=
  t <- now ;;
  try_modify (fun w =>
    match stopTimer t s n (profiler w) with
    | Ok p => Ok (with_profiler p w)
    | Err e => Err e
    end).

(** The world after [showReport]: the report is appended to those shown. *)
Definition reported w : World :=
  let r := showReport (profiler w) in
  mkWorld r.2 (stdout w) (reports w ++ [r.1]) (ticks w) (clock w)
          (drawn w) (random w).

Definition showReportM : M World unit := modify reported.

(** ** The rest of the environment *)

(** The world after [printf]. *)
Definition printed (text : string) w : World :=
  mkWorld (profiler w) (stdout w ++ [text]) (reports w) (ticks w) (clock w)
          (drawn w) (random w).

Definition printf (text : string) : M World unit := modify (printed text).

(** The world after [size] random numbers were drawn. *)
Definition filled (size : Z) w : World :=
  mkWorld (profiler w) (stdout w) (reports w) (ticks w) (clock w)
          (drawn w + Z.to_nat size) (random w).

(** [FillRandomArray(v, size)], declared in Profiler.h and left out by the
    spec: what its call in [main] needs, [size] elements, each the next
    number of the random source, of which nothing is assumed. *)
Definition FillRandomArray (size : Z) : M World (list Z) :=
  fun w => Ok (random w <$> seq (drawn w) (Z.to_nat size), filled size w).

(** [v[i]]: reading outside the array is an error of the run. *)
Definition read (v : list Z) (i : Z) : M World Z :=
  if decide (0 <= i) then
    match v !! Z.to_nat i with
    | Some x => ret x
    | None => raise (OutOfBounds i)
    end
  else raise (OutOfBounds i).

(** ** What each call does *)

(** [recorded s n v w]: the world [w] after the value [v] was written at
    the key ([s], [n]) of the store.  Every effect of a handle is of this
    form, and two writes at one key collapse into the later one. *)
Definition recorded s n (v : Z) w : World :=
  with_profiler (storeValue s n v (profiler w)) w.

(** The handle [o] after [k] more units were counted on it. *)
Definition advance o (k : Z) : Operation :=
  mkOperation (op_series o) (op_size o) (op_total o + k) (op_generation o).

(** The world after [k] units were counted on [o] one by one: untouched
    when there was nothing to count. *)
Definition counted o (k : Z) w : World :=
  if decide (0 < k) then recorded (op_series o) (op_size o) (op_total o + k) w else w.

(** The world after [startTimer]: the clock was read and the reading kept. *)
Definition timer_started s n w : World :=
  with_profiler (startTimer (clock w (ticks w)) s n (profiler w)) (ticked w).

(** The world after a [stopTimer] whose timer was started at [t0]: the
    clock was read, the timer is gone and the elapsed time is stored. *)
Definition timer_stopped s n (t0 : Z) w : World :=
  with_profiler
    (storeValue s n (clock w (ticks w) - t0)
       (with_timers (delete (s, n) (timers (profiler w))) (profiler w)))
    (ticked w).

(** [sound w]: the profiler of [w] is a state of the session machine. *)
Definition sound w : Prop := reachable (profiler w).

Lemma recorded_recorded s n (v v' : Z) w :
  recorded s n v' (recorded s n v w) = recorded s n v' w.
Proof. unfold recorded, with_profiler. simpl. by rewrite storeValue_storeValue. Qed.

Lemma generation_recorded s n (v : Z) w :
  generation (profiler (recorded s n v w)) = generation (profiler w).
Proof. reflexivity. Qed.

Lemma valueAt_recorded_eq s n (v : Z) w :
  valueAt s n (profiler (recorded s n v w)) = Some v.
Proof. apply valueAt_storeValue_eq. Qed.

Lemma valueAt_recorded_ne s n s' n' (v : Z) w :
  (s, n) <> (s', n') ->
  valueAt s' n' (profiler (recorded s n v w)) = valueAt s' n' (profiler w).
Proof. apply valueAt_storeValue_ne. Qed.

Lemma recorded_wf s n (v : Z) w : wf (profiler w) -> wf (profiler (recorded s n v w)).
Proof. apply storeValue_wf. Qed.

Lemma advance_0 o : advance o 0 = o.
Proof. destruct o. unfold advance. simpl. f_equal. lia. Qed.

Lemma advance_advance o (j k : Z) : advance (advance o j) k = advance o (j + k).
Proof. unfold advance. simpl. f_equal. lia. Qed.

Lemma counted_step o (k : Z) w :
  0 <= k ->
  counted (advance o 1) k (recorded (op_series o) (op_size o) (op_total o + 1) w) =
  counted o (k + 1) w.
Proof.
  intros Hk. unfold counted. simpl. rewrite (decide_True (P := 0 < k + 1)) by lia.
  case_decide.
  - rewrite recorded_recorded. f_equal. lia.
  - by replace k with 0 by lia.
Qed.

Lemma counted_succ o (k : Z) w :
  0 <= k ->
  recorded (op_series o) (op_size o) (op_total o + k + 1) (counted o k w) =
  counted o (k + 1) w.
Proof.
  intros Hk. unfold counted. rewrite (decide_True (P := 0 < k + 1)) by lia.
  case_decide; rewrite ?recorded_recorded; f_equal; lia.
Qed.

Lemma counted_recorded o (k : Z) w :
  0 <= k ->
  counted o k (recorded (op_series o) (op_size o) (op_total o) w) =
  recorded (op_series o) (op_size o) (op_total o + k) w.
Proof.
  intros Hk. unfold counted. case_decide; [apply recorded_recorded|].
  f_equal. lia.
Qed.

Lemma generation_counted o (k : Z) w :
  generation (profiler (counted o k w)) = generation (profiler w).
Proof. unfold counted. by case_decide. Qed.

Lemma current_advance o (k : Z) (p : Profiler T) :
  current (advance o k) p = current o p.
Proof. reflexivity. Qed.

Lemma run_createOperationM s n w :
  createOperationM s n w =
  Ok (mkOperation s n 0 (generation (profiler w)), recorded s n 0 w).
Proof. reflexivity. Qed.

Lemma run_countM o delta w :
  current o (profiler w) = true ->
  countM o delta w =
  Ok (mkOperation (op_series o) (op_size o) (op_total o + delta) (op_generation o),
      recorded (op_series o) (op_size o) (op_total o + delta) w).
Proof. intros Hc. unfold countM. by rewrite count_current. Qed.

Lemma with_profiler_id w : with_profiler (profiler w) w = w.
Proof. by destruct w. Qed.

(** A stale handle counts on, and the world does not see it. *)
Lemma run_countM_stale o delta w :
  current o (profiler w) = false -> countM o delta w = Ok (advance o delta, w).
Proof.
  intros Hc. unfold countM, count. cbv zeta. rewrite Hc. cbn [fst snd].
  by rewrite with_profiler_id.
Qed.

Lemma run_destroyM_stale o w :
  current o (profiler w) = false -> destroyM o w = Ok (tt, w).
Proof.
  intros Hc. unfold destroyM, modify. by rewrite destroyOperation_stale, with_profiler_id.
Qed.

Lemma run_destroyM o w :
  current o (profiler w) = true ->
  destroyM o w = Ok (tt, recorded (op_series o) (op_size o) (op_total o) w).
Proof. intros Hc. unfold destroyM, modify. by rewrite destroyOperation_current. Qed.

Lemma run_countOperationM s n delta w :
  countOperationM s n delta w = Ok (tt, recorded s n delta w).
Proof. reflexivity. Qed.

Lemma run_read_ok (v : list Z) i x w :
  0 <= i -> v !! Z.to_nat i = Some x -> read v i w = Ok (x, w).
Proof. intros Hi Hx. unfold read. rewrite decide_True by done. by rewrite Hx. Qed.

Lemma run_read_out (v : list Z) i w :
  (i < 0 \/ Z.of_nat (length v) <= i) -> read v i w = Err (OutOfBounds i).
Proof.
  intros Hi. unfold read. case_decide; [|done].
  rewrite (proj2 (lookup_ge_None v (Z.to_nat i))); [done | lia].
Qed.

Lemma counted_counted o (j k : Z) w :
  0 <= j -> 0 <= k ->
  counted (advance o j) k (counted o j w) = counted o (j + k) w.
Proof.
  intros Hj Hk. unfold counted. cbn [advance op_series op_size op_total].
  repeat case_decide; try lia; rewrite ?recorded_recorded; try done; f_equal; lia.
Qed.

(** ** Timers *)

Lemma run_startTimerM s n w : startTimerM s n w = Ok (tt, timer_started s n w).
Proof. reflexivity. Qed.

Lemma run_stopTimerM s n t0 w :
  timers (profiler w) !! (s, n) = Some t0 ->
  stopTimerM s n w = Ok (tt, timer_stopped s n t0 w).
Proof.
  intros Ht. unfold stopTimerM, bind, now, try_modify, stopTimer. simpl. by rewrite Ht.
Qed.

Lemma run_stopTimerM_unmatched s n w :
  timers (profiler w) !! (s, n) = None -> stopTimerM s n w = Err (UnmatchedStop s n).
Proof.
  intros Ht. unfold stopTimerM, bind, now, try_modify, stopTimer. simpl. by rewrite Ht.
Qed.

Lemma timers_recorded s n (v : Z) w :
  timers (profiler (recorded s n v w)) = timers (profiler w).
Proof. reflexivity. Qed.

Lemma timers_counted o (k : Z) w :
  timers (profiler (counted o k w)) = timers (profiler w).
Proof. unfold counted. by case_decide. Qed.

Lemma timers_timer_started s n w :
  timers (profiler (timer_started s n w)) !! (s, n) = Some (clock w (ticks w)).
Proof. apply lookup_insert_eq. Qed.

(** The timers running after each kind of step. *)
Lemma timers_started s n w :
  timers (profiler (timer_started s n w)) =
  <[(s, n) := clock w (ticks w)]> (timers (profiler w)).
Proof. reflexivity. Qed.

Lemma timers_timer_stopped s n t0 w :
  timers (profiler (timer_stopped s n t0 w)) = delete (s, n) (timers (profiler w)).
Proof. reflexivity. Qed.

Lemma timers_in_session name w : timers (profiler (in_session name w)) = ∅.
Proof. reflexivity. Qed.

Lemma timers_grouped_as g members w :
  timers (profiler (grouped_as g members w)) = timers (profiler w).
Proof. reflexivity. Qed.

Lemma timers_reported w : timers (profiler (reported w)) = timers (profiler w).
Proof. reflexivity. Qed.

Lemma timers_printed text w : timers (profiler (printed text w)) = timers (profiler w).
Proof. reflexivity. Qed.

(** What is stored at a key after each kind of step. *)
Lemma valueAt_timer_started s n s' n' w :
  valueAt s' n' (profiler (timer_started s n w)) = valueAt s' n' (profiler w).
Proof. reflexivity. Qed.

Lemma valueAt_timer_stopped_eq s n t0 w :
  valueAt s n (profiler (timer_stopped s n t0 w)) = Some (clock w (ticks w) - t0).
Proof. apply valueAt_storeValue_eq. Qed.

Lemma valueAt_timer_stopped_ne s n s' n' t0 w :
  (s, n) <> (s', n') ->
  valueAt s' n' (profiler (timer_stopped s n t0 w)) = valueAt s' n' (profiler w).
Proof.
  intros Hne. unfold timer_stopped. cbn [profiler with_profiler].
  by rewrite valueAt_storeValue_ne.
Qed.

Lemma valueAt_in_session name s n w :
  valueAt s n (profiler (in_session name w)) = None.
Proof. apply valueAt_reset. Qed.

Lemma valueAt_grouped_as g members s n w :
  valueAt s n (profiler (grouped_as g members w)) = valueAt s n (profiler w).
Proof. reflexivity. Qed.

Lemma valueAt_reported s n w :
  valueAt s n (profiler (reported w)) = valueAt s n (profiler w).
Proof. reflexivity. Qed.

Lemma series_reported w : series (profiler (reported w)) = series (profiler w).
Proof. reflexivity. Qed.

Lemma valueAt_printed text s n w :
  valueAt s n (profiler (printed text w)) = valueAt s n (profiler w).
Proof. reflexivity. Qed.

Lemma generation_timer_started s n w :
  generation (profiler (timer_started s n w)) = generation (profiler w).
Proof. reflexivity. Qed.

Lemma generation_timer_stopped s n t0 w :
  generation (profiler (timer_stopped s n t0 w)) = generation (profiler w).
Proof. reflexivity. Qed.

(** ** The session machine under the calls

    [sound w]: the profiler of [w] is a state of the session machine.
    Every call of the demo is a step of the machine (or none), so every
    program made of them keeps the world sound. *)

Lemma sound_step c w p' :
  sound w -> call_step c (profiler w) = Ok p' -> sound (with_profiler p' w).
Proof. intros Hs Hc. exact (reachable_step _ c _ Hs Hc). Qed.

Lemma createOperationM_sound s n : preserves sound (createOperationM s n).
Proof.
  intros w a w' Hs [= _ <-]. by apply (sound_step (CallCreateOperation s n)).
Qed.

Lemma countM_sound o delta : preserves sound (countM o delta).
Proof. intros w a w' Hs [= _ <-]. by apply (sound_step (CallCount o delta)). Qed.

Lemma destroyM_sound o : preserves sound (destroyM o).
Proof. apply preserves_modify. intros w Hs. by apply (sound_step (CallDestroy o)). Qed.

Lemma countOperationM_sound s n delta : preserves sound (countOperationM s n delta).
Proof.
  apply preserves_modify. intros w Hs.
  by apply (sound_step (CallCountOperation s n delta)).
Qed.

Lemma createGroupM_sound g members : preserves sound (createGroupM g members).
Proof.
  apply preserves_modify. intros w Hs. by apply (sound_step (CallCreateGroup g members)).
Qed.

Lemma resetM_sound name : preserves sound (resetM name).
Proof. apply preserves_modify. intros w Hs. by apply (sound_step (CallReset name)). Qed.

Lemma showReportM_sound : preserves sound showReportM.
Proof. apply preserves_modify. intros w Hs. by apply (sound_step CallShowReport w). Qed.

Lemma startTimerM_sound s n : preserves sound (startTimerM s n).
Proof.
  intros w a w' Hs [= _ <-].
  by apply (sound_step (CallStartTimer (clock w (ticks w)) s n) (ticked w)).
Qed.

Lemma stopTimerM_sound s n : preserves sound (stopTimerM s n).
Proof.
  intros w a w' Hs Hr. unfold stopTimerM, bind, now, try_modify in Hr.
  destruct (stopTimer _ s n (profiler (ticked w))) as [p'|] eqn:Hp; [|done].
  injection Hr as _ <-.
  by apply (sound_step (CallStopTimer (clock w (ticks w)) s n) (ticked w)).
Qed.

Lemma printf_sound text : preserves sound (printf text).
Proof. by apply preserves_modify. Qed.

Lemma FillRandomArray_sound size : preserves sound (FillRandomArray size).
Proof. by intros w a w' Hs [= _ <-]. Qed.

Lemma read_sound (v : list Z) i : preserves sound (read v i).
Proof.
  unfold read. case_decide; [|apply preserves_raise].
  destruct (v !! Z.to_nat i); [apply preserves_ret | apply preserves_raise].
Qed.

(** ** The frame of each step

    What a step leaves of the world outside the store: the output, the
    reports, the clock and its cursor.  One equation per step and field;
    rewriting with [frame_rw] reads a field through a sequence of steps. *)

Lemma stdout_recorded s n (v : Z) w : stdout (recorded s n v w) = stdout w.
Proof. reflexivity. Qed.

Lemma stdout_timer_started s n w : stdout (timer_started s n w) = stdout w.
Proof. reflexivity. Qed.

Lemma stdout_timer_stopped s n (t0 : Z) w : stdout (timer_stopped s n t0 w) = stdout w.
Proof. reflexivity. Qed.

Lemma stdout_grouped_as g members w : stdout (grouped_as g members w) = stdout w.
Proof. reflexivity. Qed.

Lemma stdout_in_session name w : stdout (in_session name w) = stdout w.
Proof. reflexivity. Qed.

Lemma stdout_reported w : stdout (reported w) = stdout w.
Proof. reflexivity. Qed.

Lemma stdout_printed text w : stdout (printed text w) = stdout w ++ [text].
Proof. reflexivity. Qed.

Lemma stdout_filled size w : stdout (filled size w) = stdout w.
Proof. reflexivity. Qed.

Lemma reports_recorded s n (v : Z) w : reports (recorded s n v w) = reports w.
Proof. reflexivity. Qed.

Lemma reports_timer_started s n w : reports (timer_started s n w) = reports w.
Proof. reflexivity. Qed.

Lemma reports_timer_stopped s n (t0 : Z) w : reports (timer_stopped s n t0 w) = reports w.
Proof. reflexivity. Qed.

Lemma reports_grouped_as g members w : reports (grouped_as g members w) = reports w.
Proof. reflexivity. Qed.

Lemma reports_in_session name w : reports (in_session name w) = reports w.
Proof. reflexivity. Qed.

Lemma reports_reported w : reports (reported w) = reports w ++ [report (profiler w)].
Proof. reflexivity. Qed.

Lemma reports_printed text w : reports (printed text w) = reports w.
Proof. reflexivity. Qed.

Lemma reports_filled size w : reports (filled size w) = reports w.
Proof. reflexivity. Qed.

Lemma ticks_recorded s n (v : Z) w : ticks (recorded s n v w) = ticks w.
Proof. reflexivity. Qed.

Lemma ticks_timer_started s n w : ticks (timer_started s n w) = S (ticks w).
Proof. reflexivity. Qed.

Lemma ticks_timer_stopped s n (t0 : Z) w : ticks (timer_stopped s n t0 w) = S (ticks w).
Proof. reflexivity. Qed.

Lemma ticks_grouped_as g members w : ticks (grouped_as g members w) = ticks w.
Proof. reflexivity. Qed.

Lemma ticks_in_session name w : ticks (in_session name w) = ticks w.
Proof. reflexivity. Qed.

Lemma ticks_reported w : ticks (reported w) = ticks w.
Proof. reflexivity. Qed.

Lemma ticks_printed text w : ticks (printed text w) = ticks w.
Proof. reflexivity. Qed.

Lemma ticks_filled size w : ticks (filled size w) = ticks w.
Proof. reflexivity. Qed.

Lemma clock_recorded s n (v : Z) w : clock (recorded s n v w) = clock w.
Proof. reflexivity. Qed.

Lemma clock_timer_started s n w : clock (timer_started s n w) = clock w.
Proof. reflexivity. Qed.

Lemma clock_timer_stopped s n (t0 : Z) w : clock (timer_stopped s n t0 w) = clock w.
Proof. reflexivity. Qed.

Lemma clock_grouped_as g members w : clock (grouped_as g members w) = clock w.
Proof. reflexivity. Qed.

Lemma clock_in_session name w : clock (in_session name w) = clock w.
Proof. reflexivity. Qed.

Lemma clock_reported w : clock (reported w) = clock w.
Proof. reflexivity. Qed.

Lemma clock_printed text w : clock (printed text w) = clock w.
Proof. reflexivity. Qed.

Lemma clock_filled size w : clock (filled size w) = clock w.
Proof. reflexivity. Qed.

Lemma sessionName_recorded s n (v : Z) w :
  sessionName (profiler (recorded s n v w)) = sessionName (profiler w).
Proof. reflexivity. Qed.

Lemma sessionName_timer_started s n w :
  sessionName (profiler (timer_started s n w)) = sessionName (profiler w).
Proof. reflexivity. Qed.

Lemma sessionName_timer_stopped s n (t0 : Z) w :
  sessionName (profiler (timer_stopped s n t0 w)) = sessionName (profiler w).
Proof. reflexivity. Qed.

Lemma sessionName_grouped_as g members w :
  sessionName (profiler (grouped_as g members w)) = sessionName (profiler w).
Proof. reflexivity. Qed.

Lemma sessionName_in_session name w :
  sessionName (profiler (in_session name w)) = name.
Proof. reflexivity. Qed.

Lemma sessionName_reported w :
  sessionName (profiler (reported w)) = sessionName (profiler w).
Proof. reflexivity. Qed.

Lemma sessionName_printed text w :
  sessionName (profiler (printed text w)) = sessionName (profiler w).
Proof. reflexivity. Qed.

Lemma sessionName_filled size w :
  sessionName (profiler (filled size w)) = sessionName (profiler w).
Proof. reflexivity. Qed.

Lemma groups_recorded s n (v : Z) w :
  groups (profiler (recorded s n v w)) = groups (profiler w).
Proof. reflexivity. Qed.

Lemma groups_timer_started s n w :
  groups (profiler (timer_started s n w)) = groups (profiler w).
Proof. reflexivity. Qed.

Lemma groups_timer_stopped s n (t0 : Z) w :
  groups (profiler (timer_stopped s n t0 w)) = groups (profiler w).
Proof. reflexivity. Qed.

Lemma groups_grouped_as g members w :
  groups (profiler (grouped_as g members w)) = put_group g members (groups (profiler w)).
Proof. reflexivity. Qed.

Lemma groups_in_session name w : groups (profiler (in_session name w)) = [].
Proof. reflexivity. Qed.

Lemma groups_reported w : groups (profiler (reported w)) = groups (profiler w).
Proof. reflexivity. Qed.

Lemma groups_printed text w : groups (profiler (printed text w)) = groups (profiler w).
Proof. reflexivity. Qed.

Lemma groups_filled size w : groups (profiler (filled size w)) = groups (profiler w).
Proof. reflexivity. Qed.

(** What the report says of the session, in terms of the profiler. *)
Lemma rep_session_report (p : Profiler T) : rep_session (report p) = sessionName p.
Proof. reflexivity. Qed.

Lemma rep_groups_report (p : Profiler T) : (rep_groups (report p)).*1 = (groups p).*1.
Proof. unfold report. simpl. by rewrite <- list_fmap_compose. Qed.

End World.

Arguments World T : clear implicits.

(** ** Stepping through a program

    [solve_current] proves that a handle is current from the generations
    at hand; [run_call] proves what the call at the head of the goal does;
    [step] runs the first call of a [bind]. *)

Ltac solve_current :=
  repeat match goal with
         | H : current _ _ = true |- _ => apply current_spec in H; simpl in H
         end;
  apply current_spec; simpl; autorewrite with loop_rw;
  first [reflexivity | assumption | congruence].

Ltac run_call :=
  first [ apply run_createOperationM
        | apply run_countOperationM
        | apply run_countM; solve_current
        | apply run_destroyM; solve_current
        | eapply run_read_ok; [lia | eassumption]
        | apply run_startTimerM
        | eapply run_stopTimerM;
          rewrite ?timers_recorded, ?timers_counted; apply timers_timer_started
        | reflexivity ].

Ltac step :=
  cbv beta iota zeta; rewrite ?bind_bind;
  erewrite bind_ok by run_call;
  cbv beta iota zeta; cbn [op_series op_size op_total op_generation fst snd].

#[export] Hint Rewrite @recorded_recorded @generation_recorded @generation_counted
  @generation_timer_started @generation_timer_stopped : loop_rw.

(** [solve_key] proves that two keys of the store differ, from the series
    names or from sizes known to differ. *)
Ltac solve_key :=
  let E := fresh in intros E; inversion E; subst; first [done | congruence | lia].

(** Rewriting with [obs_rw] reads a key of the store through the steps
    that led to a world. *)
Create Rewrite HintDb obs_rw.
#[export] Hint Rewrite @valueAt_recorded_eq @valueAt_timer_stopped_eq
  @valueAt_timer_started @valueAt_in_session @valueAt_grouped_as @valueAt_reported
  @valueAt_printed : obs_rw.
#[export] Hint Rewrite @valueAt_recorded_ne @valueAt_timer_stopped_ne
  using solve_key : obs_rw.

#[export] Hint Resolve createOperationM_sound countM_sound destroyM_sound
  countOperationM_sound createGroupM_sound resetM_sound showReportM_sound
  startTimerM_sound stopTimerM_sound printf_sound FillRandomArray_sound read_sound
  : preserve_db.

(** [preserve] proves that a program keeps an invariant of the calls: it
    takes the program apart down to the calls. *)
Ltac preserve :=
  repeat first
    [ solve [auto 2 with preserve_db]
    | simple apply @preserves_while | simple apply @preserves_bind
    | match goal with
      | |- preserves _ (let '(_, _) := ?x in _) => destruct x
      | |- preserves _ (if ?b then _ else _) => destruct b
      | |- preserves _ (match ?x with _ => _ end) => destruct x
      | |- preserves _ (let x := ?v in _) => cbv zeta
      end
    | intro ].

Create Rewrite HintDb frame_rw.
#[export] Hint Rewrite @sessionName_recorded @sessionName_timer_started
  @sessionName_timer_stopped @sessionName_grouped_as @sessionName_in_session
  @sessionName_reported @sessionName_printed @sessionName_filled @groups_recorded
  @groups_timer_started @groups_timer_stopped @groups_grouped_as @groups_in_session
  @groups_reported @groups_printed @groups_filled : frame_rw.
#[export] Hint Rewrite @stdout_recorded @stdout_timer_started @stdout_timer_stopped
  @stdout_grouped_as @stdout_in_session @stdout_reported @stdout_printed @stdout_filled
  @reports_recorded @reports_timer_started @reports_timer_stopped @reports_grouped_as
  @reports_in_session @reports_reported @reports_printed @reports_filled @ticks_recorded
  @ticks_timer_started @ticks_timer_stopped @ticks_grouped_as @ticks_in_session
  @ticks_reported @ticks_printed @ticks_filled @clock_recorded @clock_timer_started
  @clock_timer_stopped @clock_grouped_as @clock_in_session @clock_reported
  @clock_printed @clock_filled : frame_rw.

(** A world to run examples in: the list store, a clock that advances by
    one per reading, and the random numbers 0, 1, 2, ... *)
Definition example_world : World SeriesStore.t :=
  initial_world "demo-power" Z.of_nat Z.of_nat.
