(* ===== verification/Report.v ===== *)
(** * Report: what [showReport] hands to the renderer

    The report of [Profiler.report] is computed from the listing of the
    store, [store_all].  This file derives, from the laws of the [Store]
    interface alone, that the listing is determined by what [store_get]
    answers: the points of a series are the only list, ascending in size,
    that holds exactly the values stored for it.  It then follows the
    names of the series and the well-formedness of the store through the
    steps of a run, so that the report of a program can be read off the
    values it stored. *)

From S2P Require Import Prelude Monad SeriesStore Profiler World.
From stdpp Require Import base option list gmap strings sorting.

#[local] Open Scope Z_scope.

(** The names of the series in the store of a world, in the order of their
    first write. *)
Definition store_names {T} `{Store T} (w : World T) : list string :=
  (store_all (series (profiler w))).*1.

(** The store of a world is well formed. *)
Definition store_ok {T} `{Store T} (w : World T) : Prop :=
  store_wf (series (profiler w)).

(** A write lists its series after the others unless it is listed. *)
Definition listed (s : string) (names : list string) : list string :=
  if decide (s ∈ names) then names else names ++ [s].

(** ** Lists of points *)

Section Points.
Implicit Types (pts : list (Z * Z)) (n v : Z).

(** In an ascending list the first size is below all others. *)
Lemma sorted_points_head k x pts n v :
  StronglySorted Z.lt ((k, x) :: pts).*1 -> (n, v) ∈ pts -> k < n.
Proof.
  csimpl. intros [_ Hall]%StronglySorted_inv Hin. rewrite Forall_forall in Hall.
  apply Hall. by apply (list_elem_of_fmap_2 fst _ (n, v)).
Qed.

(** Two ascending lists with the same points are the same list. *)
Lemma sorted_points_unique pts pts' :
  StronglySorted Z.lt pts.*1 -> StronglySorted Z.lt pts'.*1 ->
  (forall n v, (n, v) ∈ pts <-> (n, v) ∈ pts') -> pts = pts'.
Proof.
  revert pts'. induction pts as [|[k x] pts IH]; intros [|[k' x'] pts'] Hs Hs' Heq;
    [done | | |].
  - by destruct (not_elem_of_nil (k', x')); apply Heq; left.
  - by destruct (not_elem_of_nil (k, x)); apply Heq; left.
  - pose proof (fun n v => sorted_points_head k x pts n v Hs) as Hlt.
    pose proof (fun n v => sorted_points_head k' x' pts' n v Hs') as Hlt'.
    assert (Hhd : (k, x) = (k', x')).
    { assert (Hin : (k, x) ∈ (k', x') :: pts') by (apply Heq; left).
      assert (Hin' : (k', x') ∈ (k, x) :: pts) by (apply Heq; left).
      apply elem_of_cons in Hin as [?|Hin]; [done|].
      apply elem_of_cons in Hin' as [?|Hin']; [done|].
      apply Hlt' in Hin. apply Hlt in Hin'. lia. }
    inv Hhd. f_equal. csimpl in *.
    apply StronglySorted_inv in Hs as [Hs _], Hs' as [Hs' _].
    apply IH; [done..|]. intros n v. split; intros Hin.
    + assert (Hin' : (n, v) ∈ (k', x') :: pts') by (by apply Heq; right).
      apply elem_of_cons in Hin' as [?|?]; [|done].
      apply Hlt in Hin. simplify_eq. lia.
    + assert (Hin' : (n, v) ∈ (k', x') :: pts) by (by apply Heq; right).
      apply elem_of_cons in Hin' as [?|?]; [|done].
      apply Hlt' in Hin. simplify_eq. lia.
Qed.

(** [points_of] finds the points listed under a name. *)
Lemma points_of_elem s pts (all : list (string * list (Z * Z))) :
  NoDup all.*1 -> (s, pts) ∈ all -> points_of s all = pts.
Proof.
  induction all as [|[s' pts'] all IH]; csimpl; intros Hnd Hin; [by inv Hin|].
  apply NoDup_cons in Hnd as [Hfresh Hnd].
  apply elem_of_cons in Hin as [[= <- <-]|Hin]; [by rewrite decide_True|].
  rewrite decide_False; [by apply IH|]. intros <-. apply Hfresh.
  by apply (list_elem_of_fmap_2 fst _ (s, pts)).
Qed.

Lemma points_of_absent s (all : list (string * list (Z * Z))) :
  s ∉ all.*1 -> points_of s all = [].
Proof.
  induction all as [|[s' pts'] all IH]; csimpl; intros Hin; [done|].
  apply not_elem_of_cons in Hin as [? ?]. rewrite decide_False by done. by apply IH.
Qed.

(** The sizes of a counting loop ascend. *)
Lemma fmap_seq_sorted (f : nat -> Z) (a len : nat) :
  (forall i j : nat, (i < j)%nat -> f i < f j) -> StronglySorted Z.lt (f <$> seq a len).
Proof.
  intros Hf. revert a. induction len as [|len IH]; intros a; csimpl; constructor; [done|].
  apply Forall_forall. intros x (j & -> & Hj%elem_of_seq)%list_elem_of_fmap.
  apply Hf. lia.
Qed.

(** A listing is its names, each with the points [points_of] finds. *)
Lemma listing_by_names (all : list (string * list (Z * Z))) :
  NoDup all.*1 -> all = (fun s => (s, points_of s all)) <$> all.*1.
Proof.
  induction all as [|[s pts] all IH]; csimpl; intros Hnd; [done|].
  apply NoDup_cons in Hnd as [Hfresh Hnd]. rewrite decide_True by done. f_equal.
  rewrite IH at 1 by done. apply list_fmap_ext. intros i s' Hs'.
  rewrite decide_False; [done|]. intros ->. by apply list_elem_of_lookup_2 in Hs'.
Qed.

End Points.

(** ** The listing of a store, from its laws *)

Section Listing.
Context {T : Type} `{Store T}.
Implicit Types (st : T) (s : string) (n v : Z) (pts : list (Z * Z)).

(** Either the series is listed, with the points [points_of] finds, or it
    is not listed and [points_of] finds none. *)
Lemma points_of_cases st s :
  store_wf st ->
  (s, points_of s (store_all st)) ∈ store_all st \/
  ((s ∉ (store_all st).*1) /\ points_of s (store_all st) = []).
Proof.
  intros Hwf. destruct (decide (s ∈ (store_all st).*1)) as [Hin|Hin].
  - left. apply list_elem_of_fmap in Hin as ([s' pts] & -> & Hin).
    by rewrite (points_of_elem _ pts) by (done || by apply store_all_nodup).
  - right. split; [done | by apply points_of_absent].
Qed.

(** The points of a series are the values stored for it. *)
Lemma points_of_get st s n v :
  store_wf st -> (n, v) ∈ points_of s (store_all st) <-> store_get s n st = Some v.
Proof.
  intros Hwf. rewrite store_all_get by done. split.
  - intros Hin. destruct (points_of_cases st s Hwf) as [?|[_ Hnil]]; [eauto|].
    rewrite Hnil in Hin. by apply not_elem_of_nil in Hin.
  - intros (pts & Hpts & Hin).
    by rewrite (points_of_elem _ pts) by (done || by apply store_all_nodup).
Qed.

(** They ascend in size. *)
Lemma points_of_sorted st s :
  store_wf st -> StronglySorted Z.lt (points_of s (store_all st)).*1.
Proof.
  intros Hwf. destruct (points_of_cases st s Hwf) as [?|[_ ->]]; [|constructor].
  by eapply store_all_sorted.
Qed.

(** So the values stored determine the points reported: an ascending list
    that holds exactly the values stored is the list reported. *)
Lemma points_of_determined st s pts :
  store_wf st -> StronglySorted Z.lt pts.*1 ->
  (forall n v, (n, v) ∈ pts <-> store_get s n st = Some v) ->
  points_of s (store_all st) = pts.
Proof.
  intros Hwf Hs Hget. apply sorted_points_unique; [by apply points_of_sorted | done |].
  intros n v. by rewrite points_of_get, Hget.
Qed.

(** A report lists no series outside the groups when every series is a
    member of a group. *)
Lemma rep_ungrouped_report (p : Profiler T) :
  (forall s, s ∈ (store_all (series p)).*1 -> s ∈ grouped (groups p)) ->
  rep_ungrouped (report p) = [].
Proof.
  intros Hall. unfold report. cbn [rep_ungrouped].
  induction (store_all (series p)) as [|[s pts] all IH]; [done|].
  rewrite filter_cons_False.
  - apply IH. intros s' Hs'. apply Hall. csimpl. by right.
  - intros Hout. apply Hout, Hall. csimpl. by left.
Qed.

(** The groups of a report: each member with its points. *)
Lemma rep_groups_report_points (p : Profiler T) :
  rep_groups (report p) =
  (fun gm : string * list string =>
     (gm.1, (fun s => (s, points_of s (store_all (series p)))) <$> gm.2)) <$> groups p.
Proof. reflexivity. Qed.

End Listing.

(** ** Two implementations of the store

    Two well-formed stores, of whatever implementation, that list the same
    names and hold the same values list the same series; so do the reports
    of two profilers that differ in their stores only. *)

Section TwoStores.
Context {T1 T2 : Type} `{Store T1} `{Store T2}.

Lemma store_all_agree (st1 : T1) (st2 : T2) :
  store_wf st1 -> store_wf st2 ->
  (store_all st1).*1 = (store_all st2).*1 ->
  (forall s n, store_get s n st1 = store_get s n st2) ->
  store_all st1 = store_all st2.
Proof.
  intros Hwf1 Hwf2 Hnames Hget.
  rewrite (listing_by_names (store_all st1)), (listing_by_names (store_all st2))
    by (by apply store_all_nodup).
  rewrite Hnames. apply list_fmap_ext. intros i s _. f_equal.
  apply points_of_determined; [done | by apply points_of_sorted |].
  intros n v. by rewrite points_of_get, Hget.
Qed.

Lemma report_agree (p1 : Profiler T1) (p2 : Profiler T2) :
  store_all (series p1) = store_all (series p2) ->
  sessionName p1 = sessionName p2 -> groups p1 = groups p2 ->
  report p1 = report p2.
Proof. intros Hall Hname Hgroups. unfold report. by rewrite Hall, Hname, Hgroups. Qed.

End TwoStores.

(** ** The store through the steps of a run *)

Section Steps.
Context {T : Type} `{Store T}.
Implicit Types (w : World T) (s : string) (n v : Z).

Lemma store_names_recorded s n v w :
  store_names (recorded s n v w) = listed s (store_names w).
Proof. apply store_all_names. Qed.

Lemma store_names_timer_stopped s n t0 w :
  store_names (timer_stopped s n t0 w) = listed s (store_names w).
Proof. apply store_all_names. Qed.

Lemma store_names_timer_started s n w :
  store_names (timer_started s n w) = store_names w.
Proof. reflexivity. Qed.

Lemma store_names_in_session name w : store_names (in_session name w) = [].
Proof. unfold store_names. cbn. by rewrite store_all_empty. Qed.

Lemma store_names_grouped_as g members w :
  store_names (grouped_as g members w) = store_names w.
Proof. reflexivity. Qed.

Lemma store_names_printed text w : store_names (printed text w) = store_names w.
Proof. reflexivity. Qed.

Lemma store_ok_recorded s n v w : store_ok w -> store_ok (recorded s n v w).
Proof. apply store_wf_set. Qed.

Lemma store_ok_timer_stopped s n t0 w : store_ok w -> store_ok (timer_stopped s n t0 w).
Proof. apply store_wf_set. Qed.

Lemma store_ok_timer_started s n w : store_ok w -> store_ok (timer_started s n w).
Proof. done. Qed.

Lemma store_ok_in_session name w : store_ok (in_session name w).
Proof. apply store_wf_empty. Qed.

Lemma store_ok_grouped_as g members w : store_ok w -> store_ok (grouped_as g members w).
Proof. done. Qed.

Lemma store_ok_printed text w : store_ok w -> store_ok (printed text w).
Proof. done. Qed.

End Steps.

Create HintDb store_db discriminated.
Create Rewrite HintDb store_rw.
#[export] Hint Resolve store_ok_recorded store_ok_timer_stopped store_ok_timer_started
  store_ok_in_session store_ok_grouped_as store_ok_printed : store_db.
#[export] Hint Rewrite @store_names_recorded @store_names_timer_stopped
  @store_names_timer_started @store_names_in_session @store_names_grouped_as
  @store_names_printed : store_rw.
