(* ===== verification/Equiv.v ===== *)
(** * Equiv: worlds that hold the same measurements

    Two stores can hold the same value at every key and still differ: the
    list store keeps its series in the order of their first write.  What
    a program measured is the values, so the worlds of two runs are
    compared up to that order.

    [same_store] relates the stores that answer [store_get] alike,
    [same_profiler] and [same_world] lift it to the profiler and the
    world, everything else being equal.  The three are equivalences, the
    steps of [World] are morphisms for them, and two writes at different
    keys commute.  For well-formed stores the points [Report.points_of]
    finds for a series are the same, so the groups of a report do not
    tell such worlds apart. *)

From S2P Require Import Prelude Monad SeriesStore Profiler World Report.
From stdpp Require Import base option list gmap strings.

#[local] Open Scope Z_scope.

Section Equiv.
Context {T : Type} `{Store T}.
Implicit Types (st : T) (p : Profiler T) (w : World T) (s : string) (n v : Z).

(** The stores that hold the same value at every key. *)
Definition same_store : relation T :=
  fun st st' => forall s n, store_get s n st = store_get s n st'.

(** The profilers that differ in the representation of the store only. *)
Definition same_profiler : relation (Profiler T) :=
  fun p p' =>
    sessionName p = sessionName p' /\ generation p = generation p' /\
    same_store (series p) (series p') /\ timers p = timers p' /\
    groups p = groups p' /\ phase p = phase p'.

(** The worlds that differ in the representation of the store only. *)
Definition same_world : relation (World T) :=
  fun w w' =>
    same_profiler (profiler w) (profiler w') /\ stdout w = stdout w' /\
    reports w = reports w' /\ ticks w = ticks w' /\ clock w = clock w' /\
    drawn w = drawn w' /\ random w = random w'.

Infix "≃" := same_world (at level 70, no associativity).

(** ** The relations are equivalences *)

#[global] Instance same_store_equivalence : Equivalence same_store.
Proof.
  split; [by intros st s n | by intros st st' E s n |].
  intros st1 st2 st3 E1 E2 s n. by rewrite E1.
Qed.

#[global] Instance same_profiler_equivalence : Equivalence same_profiler.
Proof.
  split.
  - by intros p.
  - intros p p' (? & ? & ? & ? & ? & ?). by split_and!.
  - intros p1 p2 p3 (? & ? & ? & ? & ? & ?) (? & ? & ? & ? & ? & ?).
    split_and!; by etrans.
Qed.

#[global] Instance same_world_equivalence : Equivalence same_world.
Proof.
  split.
  - by intros w.
  - intros w w' (? & ? & ? & ? & ? & ? & ?). by split_and!.
  - intros w1 w2 w3 (? & ? & ? & ? & ? & ? & ?) (? & ? & ? & ? & ? & ? & ?).
    split_and!; by etrans.
Qed.

(** ** The operations of the store are morphisms *)

#[global] Instance store_get_proper s n : Proper (same_store ==> eq) (store_get s n).
Proof. intros st st' E. apply E. Qed.

#[global] Instance store_set_proper s n v :
  Proper (same_store ==> same_store) (store_set s n v).
Proof.
  intros st st' E s' n'. destruct (decide ((s, n) = (s', n'))) as [[= <- <-]|Hne].
  - by rewrite !store_get_set_eq.
  - by rewrite !store_get_set_ne.
Qed.

(** Two writes at different keys commute, up to the order of the series. *)
Lemma store_set_comm s n v s' n' v' st :
  (s, n) <> (s', n') ->
  same_store (store_set s n v (store_set s' n' v' st))
             (store_set s' n' v' (store_set s n v st)).
Proof.
  intros Hne s0 n0.
  destruct (decide ((s, n) = (s0, n0))) as [H1|H1];
    destruct (decide ((s', n') = (s0, n0))) as [H2|H2]; simplify_eq;
    repeat first [ rewrite store_get_set_eq | rewrite store_get_set_ne by done ];
    reflexivity.
Qed.

(** For well-formed stores, the points listed for a series are the same. *)
Lemma points_of_same_store s st st' :
  store_wf st -> store_wf st' -> same_store st st' ->
  points_of s (store_all st) = points_of s (store_all st').
Proof.
  intros Hwf Hwf' E. apply points_of_determined; [done | by apply points_of_sorted |].
  intros n v. by rewrite points_of_get, (E s n).
Qed.

(** ** The profiler *)

#[global] Instance series_proper : Proper (same_profiler ==> same_store) series.
Proof. by intros p p' (_ & _ & E & _). Qed.

#[global] Instance valueAt_proper s n : Proper (same_profiler ==> eq) (valueAt s n).
Proof. intros p p' E. unfold valueAt. by rewrite E. Qed.

#[global] Instance storeValue_proper s n v :
  Proper (same_profiler ==> same_profiler) (storeValue s n v).
Proof.
  intros p p' (? & ? & E & ? & ? & ?). unfold storeValue. split_and!; try done.
  simpl. by rewrite E.
Qed.

#[global] Instance current_proper o : Proper (same_profiler ==> eq) (current o).
Proof. intros p p' (_ & E & _). unfold current. by rewrite E. Qed.

(** ** The steps of the world *)

#[global] Instance profiler_proper : Proper (same_world ==> same_profiler) profiler.
Proof. by intros w w' [E _]. Qed.

#[global] Instance recorded_proper s n v :
  Proper (same_world ==> same_world) (recorded s n v).
Proof.
  intros w w' (E & ? & ? & ? & ? & ? & ?). unfold recorded. split_and!; try done.
  simpl. by rewrite E.
Qed.

#[global] Instance printed_proper text :
  Proper (same_world ==> same_world) (printed text).
Proof.
  intros w w' (E & Ho & ? & ? & ? & ? & ?). unfold printed. split_and!; try done.
  simpl. by rewrite Ho.
Qed.

#[global] Instance counted_proper o k : Proper (same_world ==> same_world) (counted o k).
Proof. intros w w' E. unfold counted. case_decide; by rewrite E. Qed.

Lemma recorded_comm s n v s' n' v' w :
  (s, n) <> (s', n') ->
  recorded s n v (recorded s' n' v' w) ≃ recorded s' n' v' (recorded s n v w).
Proof.
  intros Hne. unfold recorded. split_and!; try done. split_and!; try done.
  by apply store_set_comm.
Qed.

(** Three writes at different keys can be taken in the reverse order. *)
Lemma recorded_reverse s1 n1 v1 s2 n2 v2 s3 n3 v3 w :
  (s1, n1) <> (s2, n2) -> (s1, n1) <> (s3, n3) -> (s2, n2) <> (s3, n3) ->
  recorded s1 n1 v1 (recorded s2 n2 v2 (recorded s3 n3 v3 w)) ≃
  recorded s3 n3 v3 (recorded s2 n2 v2 (recorded s1 n1 v1 w)).
Proof.
  intros H12 H13 H23.
  rewrite (recorded_comm s2 n2 v2 s3) by done.
  rewrite (recorded_comm s1 n1 v1 s3) by done.
  by rewrite (recorded_comm s1 n1 v1 s2) by done.
Qed.

(** Such worlds show the same points for every series of a group. *)
Lemma points_of_same_world s w w' :
  store_ok w -> store_ok w' -> w ≃ w' ->
  points_of s (store_all (series (profiler w))) =
  points_of s (store_all (series (profiler w'))).
Proof. intros Hw Hw' E. apply points_of_same_store; [done..|]. by rewrite E. Qed.

End Equiv.

Infix "≃" := same_world (at level 70, no associativity) : prog_scope.
