(* ===== verification/MapStore.v ===== *)
(** * MapStore: the Series Store as a finite map

    The abstract specification of the Series Store, made executable: the
    values in one finite map from (series, size) to the value, and the
    names of the series in the order of their first write.  Nothing is
    kept sorted: the listing sorts the points of a series when it is
    asked for.

    [map_store] shows that this is a second implementation of the [Store]
    interface, so every theorem proved against the interface holds of it.
    [abstract] takes a list store to the map store it stands for, and the
    refinement lemmas say that each operation of the list store is the
    operation of the map store on the abstraction: the list store is a
    data refinement of the finite map. *)

From S2P Require Import Prelude SeriesStore Profiler Report.
From stdpp Require Import base option list gmap strings sorting.

#[local] Open Scope Z_scope.

Module MapStore.

Record t : Type := mk {
  values : gmap (string * Z) Z;   (* the value at each key *)
  order : list string             (* the series, in the order of first write *)
}.

Definition empty : t := mk ∅ [].

Definition setValue (s : string) (n v : Z) (st : t) : t :=
  mk (<[(s, n) := v]> (values st)) (listed s (order st)).

Definition getValue (s : string) (n : Z) (st : t) : option Z := values st !! (s, n).

(** Points are listed by ascending size. *)
Definition by_size : relation (Z * Z) := fun p q => p.1 <= q.1.

#[global] Instance by_size_dec : RelDecision by_size.
Proof. intros p q. unfold by_size. apply _. Defined.

(** The points of the series [s], in the order the map enumerates them. *)
Definition entries (s : string) (m : gmap (string * Z) Z) : list (Z * Z) :=
  (fun e : string * Z * Z => (e.1.2, e.2)) <$>
    filter (fun e : string * Z * Z => e.1.1 = s) (map_to_list m).

Definition seriesPoints (s : string) (m : gmap (string * Z) Z) : list (Z * Z) :=
  merge_sort by_size (entries s m).

Definition allSeries (st : t) : list (string * list (Z * Z)) :=
  (fun s => (s, seriesPoints s (values st))) <$> order st.

(** Every series that holds a value is listed, once. *)
Definition wf (st : t) : Prop :=
  NoDup (order st) /\ forall s n, is_Some (values st !! (s, n)) -> s ∈ order st.

End MapStore.

(** The map store a list store stands for. *)
Definition abstract (st : SeriesStore.t) : MapStore.t :=
  MapStore.mk (SeriesStore.abs st) (SeriesStore.names st).

Module MapStoreFacts.
Import MapStore.

#[global] Instance by_size_total : Total by_size.
Proof. intros p q. unfold by_size. lia. Qed.

#[global] Instance by_size_trans : Transitive by_size.
Proof. intros p q r. unfold by_size. lia. Qed.

Section Facts.
Implicit Types (s : string) (n v : Z) (st : t) (m : gmap (string * Z) Z)
  (pts : list (Z * Z)).

(** ** The names *)

Lemma listed_listed s (names : list string) : listed s (listed s names) = listed s names.
Proof.
  unfold listed. repeat case_decide; try done.
  exfalso. set_solver.
Qed.

Lemma elem_of_listed s s' (names : list string) :
  s' ∈ listed s names <-> s' = s \/ s' ∈ names.
Proof. unfold listed. case_decide; set_solver. Qed.

Lemma listed_NoDup s (names : list string) : NoDup names -> NoDup (listed s names).
Proof.
  intros Hnd. unfold listed. case_decide; [done|].
  apply NoDup_app. split_and!; [done | set_solver | apply NoDup_singleton].
Qed.

(** ** The points of a series *)

Lemma elem_of_entries s n v m : (n, v) ∈ entries s m <-> m !! (s, n) = Some v.
Proof.
  unfold entries. rewrite list_elem_of_fmap. split.
  - intros ([[s' n'] v'] & [= -> ->] & [Hs Hin]%list_elem_of_filter).
    simpl in Hs. subst. by apply elem_of_map_to_list.
  - intros Hm. exists (s, n, v). split; [done|].
    apply list_elem_of_filter. split; [done | by apply elem_of_map_to_list].
Qed.

Lemma entries_NoDup s m : NoDup (entries s m).
Proof.
  unfold entries. apply NoDup_fmap_2_strong; [|apply NoDup_filter, NoDup_map_to_list].
  intros [[s1 n1] v1] [[s2 n2] v2] [H1 _]%list_elem_of_filter [H2 _]%list_elem_of_filter.
  simpl in *. congruence.
Qed.

Lemma elem_of_seriesPoints s n v m : (n, v) ∈ seriesPoints s m <-> m !! (s, n) = Some v.
Proof. unfold seriesPoints. by rewrite merge_sort_Permutation, elem_of_entries. Qed.

(** A list without repetitions that ascends weakly and holds one value per
    size ascends strictly. *)
Lemma by_size_strict pts :
  StronglySorted by_size pts -> NoDup pts ->
  (forall n v v', (n, v) ∈ pts -> (n, v') ∈ pts -> v = v') ->
  StronglySorted Z.lt pts.*1.
Proof.
  induction 1 as [|[n v] pts Hs IH Hall]; intros Hnd Hfun; csimpl; constructor.
  - apply IH; [by apply NoDup_cons in Hnd as [_ ?]|].
    intros k x x' Hx Hx'. apply (Hfun k); by right.
  - apply Forall_fmap, Forall_forall. intros [k x] Hin. simpl.
    rewrite Forall_forall in Hall. specialize (Hall _ Hin). unfold by_size in Hall.
    simpl in Hall. destruct (decide (n = k)) as [->|]; [|lia].
    apply NoDup_cons in Hnd as [Hfresh _]. destruct Hfresh.
    by rewrite (Hfun k v x) by (by left || by right).
Qed.

Lemma seriesPoints_sorted s m : StronglySorted Z.lt (seriesPoints s m).*1.
Proof.
  apply by_size_strict.
  - apply StronglySorted_merge_sort; apply _.
  - unfold seriesPoints. rewrite merge_sort_Permutation. apply entries_NoDup.
  - intros n v v'. rewrite !elem_of_seriesPoints. congruence.
Qed.

(** ** The operations *)

Lemma map_setValue_setValue s n v v' st :
  setValue s n v' (setValue s n v st) = setValue s n v' st.
Proof. unfold setValue. simpl. by rewrite insert_insert_eq, listed_listed. Qed.

Lemma map_empty_wf : wf empty.
Proof.
  split; [apply NoDup_nil_2|]. intros s n [v Hv]. simpl in Hv.
  by rewrite lookup_empty in Hv.
Qed.

Lemma map_setValue_wf s n v st : wf st -> wf (setValue s n v st).
Proof.
  intros [Hnd Hin]. split; [by apply listed_NoDup|]. intros s' n' Hv. simpl in *.
  apply elem_of_listed. destruct (decide ((s, n) = (s', n'))) as [[= -> ->]|Hne];
    [by left|]. right. apply (Hin s' n'). by rewrite lookup_insert_ne in Hv.
Qed.

Lemma names_allSeries st : (allSeries st).*1 = order st.
Proof. unfold allSeries. rewrite <- list_fmap_compose. apply list_fmap_id. Qed.

Lemma elem_of_allSeries s pts st :
  (s, pts) ∈ allSeries st <-> s ∈ order st /\ pts = seriesPoints s (values st).
Proof.
  unfold allSeries. rewrite list_elem_of_fmap. split.
  - by intros (s' & [= -> ->] & Hin).
  - intros [Hin ->]. by exists s.
Qed.

Lemma map_getValue_allSeries s n v st :
  wf st ->
  getValue s n st = Some v <-> exists pts, (s, pts) ∈ allSeries st /\ (n, v) ∈ pts.
Proof.
  intros [_ Hin]. unfold getValue. split.
  - intros Hv. exists (seriesPoints s (values st)). split.
    + apply elem_of_allSeries. split; [|done]. apply (Hin s n). by exists v.
    + by apply elem_of_seriesPoints.
  - intros (pts & [_ ->]%elem_of_allSeries & Hp). by apply elem_of_seriesPoints.
Qed.

End Facts.

(** ** The map store meets the interface *)

#[global] Instance map_store : Store t := {|
  store_empty := empty;
  store_set := setValue;
  store_get := getValue;
  store_all := allSeries;
  store_wf := wf;
  store_get_empty := fun s n => lookup_empty (s, n);
  store_get_set_eq := fun s n v st => lookup_insert_eq (values st) (s, n) v;
  store_get_set_ne := fun s n s' n' v st Hne => lookup_insert_ne (values st) _ _ v Hne;
  store_set_set := map_setValue_setValue;
  store_wf_empty := map_empty_wf;
  store_wf_set := map_setValue_wf;
  store_all_empty := eq_refl;
  store_all_names := fun s n v st =>
    eq_trans (names_allSeries (setValue s n v st))
      (f_equal (listed s) (eq_sym (names_allSeries st)));
  store_all_nodup := fun st Hwf =>
    eq_ind_r NoDup (proj1 Hwf) (names_allSeries st);
  store_all_sorted := fun st s pts _ Hin =>
    eq_ind_r (fun pts => StronglySorted Z.lt pts.*1) (seriesPoints_sorted s (values st))
      (proj2 (proj1 (elem_of_allSeries s pts st) Hin));
  store_all_get := fun st s n v Hwf => map_getValue_allSeries s n v st Hwf
|}.

End MapStoreFacts.

(** ** The list store refines the map store *)

Section Abstraction.
Implicit Types (s : string) (n v : Z) (st : SeriesStore.t).

Lemma abstract_empty : abstract store_empty = store_empty.
Proof. reflexivity. Qed.

Lemma abstract_get s n st :
  store_wf st -> store_get s n (abstract st) = store_get s n st.
Proof. intros [Hnd _]. by apply SeriesStoreFacts.abs_getValue. Qed.

Lemma abstract_set s n v st :
  store_wf st -> abstract (store_set s n v st) = store_set s n v (abstract st).
Proof.
  intros Hwf. unfold abstract. simpl. unfold MapStore.setValue. simpl.
  by rewrite SeriesStoreFacts.abs_setValue, SeriesStoreFacts.names_setValue.
Qed.

Lemma abstract_wf st : store_wf st -> store_wf (abstract st).
Proof.
  intros [Hnd Hs]. split; [done|]. intros s n. simpl.
  rewrite SeriesStoreFacts.abs_getValue by done.
  destruct (decide (s ∈ SeriesStore.names st)) as [|Hout]; [done|].
  rewrite SeriesStoreFacts.getValue_not_named by done. by intros [? ?].
Qed.

(** The two stores list the same series: the points the list store keeps
    sorted are the points the map store sorts when asked. *)
Lemma abstract_all st : store_wf st -> store_all (abstract st) = store_all st.
Proof.
  intros Hwf. apply store_all_agree; [by apply abstract_wf | done | |].
  - apply MapStoreFacts.names_allSeries.
  - intros s n. by apply abstract_get.
Qed.

End Abstraction.
