(* ===== verification/Power.v ===== *)
(** * Power: the three power functions of src/example1.cpp

    [slow_pow] (lines 10 to 21) multiplies [n] times and counts each
    multiplication on a handle.  [fast_pow] (lines 26 to 45) squares and
    multiplies recursively and reports its multiplications through the
    fire-and-forget [countOperation].  [fast_pow_iter] (lines 50 to 64) is
    the loop form and counts on a handle.

    Each function is translated statement by statement.  A local
    [Operation] is a value threaded through the function, and its
    destructor at the end of the scope is the explicit [destroyM].

    Fuel: the loop of [slow_pow] runs with its variant [n]; the two
    functions that halve their argument run with [Int32.bits], the width of
    an [int].  The [_run] theorems give the result of each function in
    closed form on every [int], so none ends in [OutOfFuel].

    What is proved: the value each function returns (the wrapped power),
    what it leaves in the series store, that the three agree on
    non-negative exponents, and how they differ on negative ones; that
    [fast_pow_iter] counts at most 2 (log2 n + 1) multiplications, fewer
    than [slow_pow] from n = 6 on; that with the base 5 of [main] the
    result is exact up to n = 13 and overflows from 14 on; that the
    recursion of [fast_pow] is exactly as deep as the exponent has
    halvings, so that 32 is the least fuel that serves every [int]. *)

From S2P Require Import Prelude Int32 Monad SeriesStore Profiler World Report Equiv.
From stdpp Require Import base option list gmap strings.
Import Int32.

#[local] Open Scope string_scope.
#[local] Open Scope Z_scope.
#[local] Open Scope prog_scope.

Section Power.
Context {T : Type} `{Store T}.

Implicit Types (x n size : Z) (w : World T).

(** ** slow_pow *)

Definition slow_pow_body x (st : Z * Z * Operation) : M (World T) (Z * Z * Operation) :=
  let '(i, p, o) := st in
  o <- countM o 1 ;;
  let p := imul p x in
  ret (iadd i 1, p, o).

Definition slow_pow x n : M (World T) Z :=
  let p := 1 in
  o <- createOperationM "slow_pow" n ;;
  st <- while (Z.to_nat n) (fun '(i, _, _) => i <? n) (slow_pow_body x) (0, p, o) ;;
  let '(_, p, o) := st in
  destroyM o ;;
  ret p.

(** ** fast_pow *)

Fixpoint fast_pow_fuel (fuel : nat) x n size : M (World T) Z :=
  if n =? 0 then ret 1
  else if n =? 1 then ret x
  else
    match fuel with
    | O => raise OutOfFuel
    | S fuel' =>
        y <- fast_pow_fuel fuel' x (idiv n 2) size ;;
        if imod n 2 =? 0 then
          countOperationM "fast_pow" size 1 ;;
          ret (imul y y)
        else
          countOperationM "fast_pow" size 2 ;;
          ret (imul (imul y y) x)
    end.

Definition fast_pow x n size : M (World T) Z := fast_pow_fuel bits x n size.

(** What [fast_pow] leaves in the world: nothing for the exponents 0 and 1,
    which return at once; otherwise the delta of the outermost call, the
    last to write. *)
Definition fast_pow_world n size w : World T :=
  if decide (n = 0 \/ n = 1) then w
  else recorded "fast_pow" size (if Z.even n then 1 else 2) w.

(** The nested calls of [fast_pow] on the exponent [n]: one per halving
    until 0 or 1 is reached.  A negative exponent passes -1 and needs one
    more. *)
Definition fast_pow_calls (n : Z) : Z :=
  if n <? 0 then Z.log2 (- n) + 1 else Z.log2 n.

(** ** fast_pow_iter *)

Definition fast_pow_iter_body (st : Z * Z * Z * Operation)
  : M (World T) (Z * Z * Z * Operation) :=
  let '(x, n, res, o) := st in
  ro <- (if negb (iand n 1 =? 0) then
           o <- countM o 1 ;;
           ret (imul res x, o)
         else ret (res, o)) ;;
  let '(res, o) := ro in
  o <- countM o 1 ;;
  let x := imul x x in
  let n := ishr n 1 in
  ret (x, n, res, o).

Definition fast_pow_iter x n : M (World T) Z :=
  o <- createOperationM "fast_pow_iter" n ;;
  let res := 1 in
  st <- while bits (fun '(_, n, _, _) => 0 <? n) fast_pow_iter_body (x, n, res, o) ;;
  let '(_, _, res, o) := st in
  destroyM o ;;
  ret res.

(** The multiplications [fast_pow_iter] performs on the exponent [n]: one
    squaring per binary digit and one more product per digit that is 1. *)
Definition iter_steps (n : Z) : Z := Z.of_nat (bitlen n + popcount n).

(** ** slow_pow: result and count *)

(** The run of [slow_pow] as an equation, for the proofs of its callers. *)
Lemma run_slow_pow x n w :
  in_int n ->
  slow_pow x n w = Ok (wrap (x ^ Z.max 0 n), recorded "slow_pow" n (Z.max 0 n) w).
Proof.
  intros Hn. unfold slow_pow. step.
  apply (while_rule _ _
    (fun '(i, p, o) w' => 0 <= i <= Z.max 0 n /\ p = wrap (x ^ i) /\
       o = mkOperation "slow_pow" n i (generation (profiler w)) /\
       w' = recorded "slow_pow" n i w)
    (fun '(i, _, _) => Z.to_nat (n - i))).
  - intros [[i p] o] w1 (Hi & -> & -> & ->) Hc. bool_to_prop.
    assert (Hs : iadd i 1 = i + 1) by (apply iadd_small; int_lia).
    eexists (_, _, _), _. split; [|split].
    + unfold slow_pow_body. step. reflexivity.
    + rewrite Hs, imul_pow_step by lia. autorewrite with loop_rw.
      split_and!; try done; lia.
    + rewrite Hs. lia.
  - split_and!; try done; lia.
  - lia.
  - intros [[i p] o] w' (Hi & -> & -> & ->) Hc. bool_to_prop.
    step. autorewrite with loop_rw. simpl.
    replace i with (Z.max 0 n) by lia. reflexivity.
Qed.

(** C1: [slow_pow x n] returns x^n wrapped to an [int] (1 when [n] is not
    positive) and leaves the number of multiplications, [n], at the key
    ("slow_pow", n); nothing else in the world changes. *)
Theorem slow_pow_run x n w :
  in_int n ->
  slow_pow x n w = Ok (wrap (x ^ Z.max 0 n), recorded "slow_pow" n (Z.max 0 n) w).
Proof. apply run_slow_pow. Qed.

(** ** fast_pow: result and what is recorded *)

Lemma recorded_fast_pow_world n size v w :
  recorded "fast_pow" size v (fast_pow_world n size w) = recorded "fast_pow" size v w.
Proof. unfold fast_pow_world. case_decide; [done|]. apply recorded_recorded. Qed.

(** Fuel [k] is enough for every exponent below 2^k in absolute value. *)
Lemma fast_pow_fuel_run fuel x n size w :
  in_int x -> in_int n -> Z.abs n < 2 ^ Z.of_nat fuel ->
  fast_pow_fuel fuel x n size w = Ok (wrap (x ^ Z.abs n), fast_pow_world n size w).
Proof.
  intros Hx. revert n.
  induction fuel as [|fuel IH]; intros n Hn Hlt; simpl fast_pow_fuel;
    destruct (Z.eqb_spec n 0) as [->|Hn0];
    [done | exfalso; simpl in Hlt; lia | done |].
  destruct (Z.eqb_spec n 1) as [->|Hn1].
  { unfold ret. simpl Z.abs. rewrite Z.pow_1_r, wrap_small by done. done. }
  pose proof (abs_halve n) as Hh.
  assert (Hrec : Z.abs (Z.quot n 2) < 2 ^ Z.of_nat fuel).
  { rewrite Nat2Z.inj_succ, Z.pow_succ_r in Hlt by lia. destruct (Z.even n); lia. }
  rewrite <- idiv2_small in Hrec by done.
  rewrite (bind_ok _ _ _ _ _ (IH (idiv n 2) (wrap_in_int _) Hrec)).
  rewrite idiv2_small, imod2_even by done.
  unfold fast_pow_world at 2. rewrite decide_False by lia.
  destruct (Z.even n); step; unfold ret; rewrite recorded_fast_pow_world.
  - by rewrite imul_pow_double, Hh, Z.add_0_r by lia.
  - by rewrite imul_pow_double, imul_pow_step, Hh by lia.
Qed.

(** The run of [fast_pow] as an equation, for the proofs of its callers. *)
Lemma run_fast_pow x n size w :
  in_int x -> in_int n ->
  fast_pow x n size w = Ok (wrap (x ^ Z.abs n), fast_pow_world n size w).
Proof.
  intros Hx Hn. apply fast_pow_fuel_run; [done | done |].
  change (2 ^ Z.of_nat bits) with 4294967296. int_lia.
Qed.

(** C2: [fast_pow x n size] returns x^|n| wrapped to an [int], on every [int]
    exponent, and never runs out of fuel.  In the store it leaves, at
    ("fast_pow", size), 1 when [n] is even and 2 when it is odd: each
    [countOperation] overwrites, so only the outermost call shows. *)
Theorem fast_pow_run x n size w :
  in_int x -> in_int n ->
  fast_pow x n size w = Ok (wrap (x ^ Z.abs n), fast_pow_world n size w).
Proof. apply run_fast_pow. Qed.

(** ** fast_pow: the depth of the recursion *)

Lemma log2_halve (n : Z) : 2 <= n -> Z.log2 n = Z.log2 (n / 2) + 1.
Proof.
  intros Hn. change (n / 2) with (n / 2 ^ 1).
  rewrite <- (Z.shiftr_div_pow2 n 1), Z.log2_shiftr by lia.
  pose proof (Z.log2_le_mono 2 n). change (Z.log2 2) with 1 in *. lia.
Qed.

(** Every halving is one nested call. *)
Lemma fast_pow_calls_halve (n : Z) :
  n <> 0 -> n <> 1 -> fast_pow_calls n = fast_pow_calls (Z.quot n 2) + 1.
Proof.
  intros H0 H1. unfold fast_pow_calls.
  destruct (Z.ltb_spec n 0) as [Hneg|Hpos].
  - destruct (Z.eq_dec n (-1)) as [->|Hm1]; [reflexivity|].
    rewrite (proj2 (Z.ltb_lt (Z.quot n 2) 0))
      by (Z.to_euclidean_division_equations; lia).
    rewrite (log2_halve (- n)) by lia. do 3 f_equal.
    Z.to_euclidean_division_equations; lia.
  - rewrite (proj2 (Z.ltb_ge (Z.quot n 2) 0))
      by (Z.to_euclidean_division_equations; lia).
    rewrite (log2_halve n), Z.quot_div_nonneg by lia. reflexivity.
Qed.

(** An [int] is halved at most 32 times, and [INT_MIN] is. *)
Lemma fast_pow_calls_bits (n : Z) : in_int n -> 0 <= fast_pow_calls n <= Z.of_nat bits.
Proof.
  intros Hn. unfold fast_pow_calls, bits.
  destruct (Z.ltb_spec n 0) as [Hneg|Hpos].
  - pose proof (Z.log2_nonneg (- n)). pose proof (Z.log2_le_mono (- n) (2 ^ 31)).
    rewrite Z.log2_pow2 in * by lia. unfold in_int, INT_MIN in Hn. lia.
  - pose proof (Z.log2_nonneg n). pose proof (Z.log2_le_mono n (2 ^ 31)).
    rewrite Z.log2_pow2 in * by lia. unfold in_int, INT_MAX in Hn. lia.
Qed.

(** With fewer nested calls allowed than the exponent has halvings,
    [fast_pow] does not reach 0 or 1. *)
Lemma fast_pow_fuel_short fuel x : forall n size w,
  in_int n -> Z.of_nat fuel < fast_pow_calls n ->
  fast_pow_fuel fuel x n size w = Err OutOfFuel.
Proof.
  induction fuel as [|fuel IH]; intros n size w Hn Hf; simpl fast_pow_fuel;
    destruct (Z.eqb_spec n 0) as [->|H0]; try (exfalso; cbn in Hf; lia);
    destruct (Z.eqb_spec n 1) as [->|H1]; try (exfalso; cbn in Hf; lia);
    [reflexivity|].
  rewrite fast_pow_calls_halve in Hf by done.
  apply bind_err. rewrite idiv2_small by done. apply IH; [|lia].
  rewrite <- idiv2_small by done. apply wrap_in_int.
Qed.

(** Fuel beyond the halvings of the exponent changes nothing. *)
Lemma fast_pow_fuel_enough fuel x : forall fuel' n size w,
  in_int n -> fast_pow_calls n <= Z.of_nat fuel -> fast_pow_calls n <= Z.of_nat fuel' ->
  fast_pow_fuel fuel x n size w = fast_pow_fuel fuel' x n size w.
Proof.
  induction fuel as [|fuel IH]; intros [|fuel'] n size w Hn Hf Hf'; simpl fast_pow_fuel;
    destruct (Z.eqb_spec n 0) as [->|H0]; try reflexivity;
    destruct (Z.eqb_spec n 1) as [->|H1]; try reflexivity;
    rewrite fast_pow_calls_halve in Hf, Hf' by done;
    pose proof (fast_pow_calls_bits (Z.quot n 2)) as Hb;
    rewrite <- idiv2_small in Hb by done; specialize (Hb (wrap_in_int _));
    rewrite idiv2_small in Hb by done; try lia.
  unfold bind. rewrite idiv2_small by done.
  rewrite (IH fuel' (Z.quot n 2) size w); [reflexivity | | lia | lia].
  rewrite <- idiv2_small by done. apply wrap_in_int.
Qed.

(** C14: the recursion of [fast_pow] is exactly as deep as
    the exponent has halvings: log2 n nested calls for a positive [n],
    log2 (-n) + 1 for a negative one.  With fewer calls allowed the run
    ends in [OutOfFuel]; with that many it returns x^|n| wrapped.  No
    [int] needs more than 32, and [INT_MIN] needs all of them: 32 is the
    least fuel that serves every [int]. *)
Theorem fast_pow_depth fuel x n size w :
  in_int x -> in_int n ->
  (Z.of_nat fuel < fast_pow_calls n -> fast_pow_fuel fuel x n size w = Err OutOfFuel) /\
  (fast_pow_calls n <= Z.of_nat fuel ->
   fast_pow_fuel fuel x n size w = Ok (wrap (x ^ Z.abs n), fast_pow_world n size w)) /\
  fast_pow_calls n <= 32 /\ fast_pow_calls INT_MIN = 32.
Proof.
  intros Hx Hn. pose proof (fast_pow_calls_bits n Hn) as Hb.
  split; [intros Hf; by apply fast_pow_fuel_short|]. split; [|split; [apply Hb | reflexivity]].
  intros Hf. rewrite (fast_pow_fuel_enough fuel x bits) by (done || lia).
  by apply run_fast_pow.
Qed.

(** ** fast_pow_iter: result and count *)

Lemma iter_steps_halve n :
  0 < n -> iter_steps n = iter_steps (n / 2) + 1 + n mod 2.
Proof.
  intros Hn. unfold iter_steps. destruct (halve_pos n Hn) as [-> ->].
  pose proof (Z.mod_pos_bound n 2). lia.
Qed.

Lemma iter_steps_nonpos n : n <= 0 -> iter_steps n = 0.
Proof. by destruct n; try lia. Qed.

(** One round of the loop keeps [res * x^n] the same modulo 2^32. *)
Lemma square_multiply_invariant res xc nc :
  0 < nc ->
  wrap ((if negb (iand nc 1 =? 0) then imul res xc else res) * imul xc xc ^ (nc / 2))
  = wrap (res * xc ^ nc).
Proof.
  intros Hn. rewrite iand1.
  pose proof (Z.div_mod nc 2 ltac:(lia)) as Hdm.
  pose proof (Z.mod_pos_bound nc 2 ltac:(lia)) as Hb.
  assert (0 <= nc / 2) by (apply Z.div_pos; lia).
  rewrite Hdm at 3. unfold imul.
  destruct (Z.eqb_spec (nc mod 2) 0) as [He|Ho]; simpl negb; cbv iota.
  - rewrite wrap_mul_pow_r, He, Z.add_0_r, Z.pow_mul_r, Z.pow_2_r by lia. done.
  - rewrite wrap_mul_pow. replace (nc mod 2) with 1 by lia.
    rewrite Z.pow_add_r, Z.pow_mul_r, Z.pow_2_r, Z.pow_1_r by lia. f_equal. lia.
Qed.

(** The run of [fast_pow_iter] as an equation, for the proofs of its callers. *)
Lemma run_fast_pow_iter x n w :
  in_int n ->
  fast_pow_iter x n w =
  Ok (wrap (x ^ Z.max 0 n), recorded "fast_pow_iter" n (iter_steps n) w).
Proof.
  intros Hn. unfold fast_pow_iter. step.
  apply (while_rule _ _
    (fun '(xc, nc, res, o) w' =>
       in_int nc /\ in_int res /\
       wrap (res * xc ^ Z.max 0 nc) = wrap (x ^ Z.max 0 n) /\
       o = mkOperation "fast_pow_iter" n (iter_steps n - iter_steps nc)
             (generation (profiler w)) /\
       w' = recorded "fast_pow_iter" n (iter_steps n - iter_steps nc) w)
    (fun '(_, nc, _, _) => bitlen nc)).
  - intros [[[xc nc] res] o] w1 (Hnc & Hres & Hval & -> & ->) Hc. bool_to_prop.
    pose proof (iter_steps_halve nc Hc) as Hst.
    pose proof (square_multiply_invariant res xc nc Hc) as Hsq.
    pose proof (Z.mod_pos_bound nc 2 ltac:(lia)) as Hb.
    assert (Hhalf : 0 <= nc / 2) by (apply Z.div_pos; lia).
    rewrite Z.max_r in Hval by lia.
    unfold fast_pow_iter_body. rewrite iand1 in *.
    destruct (Z.eqb_spec (nc mod 2) 0) as [He|Ho]; simpl negb in *; cbv iota in *;
      (eexists (_, _, _, _), _; split; [|split]);
      [do 2 step; reflexivity | | | do 3 step; reflexivity | |].
    all: rewrite ishr1; try (destruct (halve_pos nc Hc) as [-> _]; lia).
    all: rewrite Z.max_r by lia; autorewrite with loop_rw.
    all: split_and!;
      [ rewrite <- ishr1; apply ishr1_in_int; int_lia | auto with arith_db
      | congruence | f_equal; lia | f_equal; lia ].
  - rewrite Z.sub_diag, Z.mul_1_l. by split_and!.
  - pose proof (bitlen_in_int n Hn). lia.
  - intros [[[xc nc] res] o] w' (Hnc & Hres & Hval & -> & ->) Hc. bool_to_prop.
    step. rewrite Z.max_l in Hval by lia. rewrite Z.pow_0_r, Z.mul_1_r in Hval.
    rewrite (wrap_small res) in Hval by done.
    autorewrite with loop_rw. rewrite (iter_steps_nonpos nc), Z.sub_0_r by done.
    unfold ret. by rewrite Hval.
Qed.

(** C3: [fast_pow_iter x n] returns x^n wrapped to an [int] (1 when [n] is not
    positive), within the fuel of 32 rounds, and leaves at
    ("fast_pow_iter", n) the number of multiplications it performed: the
    binary digits of [n] plus those that are 1. *)
Theorem fast_pow_iter_run x n w :
  in_int n ->
  fast_pow_iter x n w =
  Ok (wrap (x ^ Z.max 0 n), recorded "fast_pow_iter" n (iter_steps n) w).
Proof. apply run_fast_pow_iter. Qed.

(** ** The three functions against each other *)

(** C10: On a non-negative exponent the two functions return the same [int], so
    the comparison [p1 != p2] of [main] is false. *)
Theorem slow_pow_fast_pow_agree x n size w w' :
  in_int x -> in_int n -> 0 <= n ->
  exists p w1 w2,
    slow_pow x n w = Ok (p, w1) /\ fast_pow x n size w' = Ok (p, w2).
Proof.
  intros Hx Hn Hpos. eexists _, _, _.
  rewrite run_slow_pow, run_fast_pow by done.
  rewrite Z.max_r, Z.abs_eq by done. done.
Qed.

(** C29: On a negative exponent they differ: [slow_pow] skips its loop and
    returns 1, [fast_pow] halves toward zero and returns x^|n|. *)
Theorem slow_pow_fast_pow_negative x n size w :
  in_int x -> in_int n -> n < 0 ->
  (exists w1, slow_pow x n w = Ok (1, w1)) /\
  (exists w2, fast_pow x n size w = Ok (wrap (x ^ (- n)), w2)).
Proof.
  intros Hx Hn Hneg. split; eexists.
  - rewrite run_slow_pow by done. by rewrite Z.max_l by lia.
  - rewrite run_fast_pow by done. by rewrite Z.abs_neq by lia.
Qed.

(** C11: [fast_pow_iter] returns what [slow_pow]
    returns on every [int] exponent, the negative ones included (both
    skip their loop and return 1) and whatever the base, overflow
    included: squaring and multiplying in 32 bits is multiplying [n]
    times in 32 bits. *)
Theorem fast_pow_iter_slow_pow_agree x n w w' :
  in_int n ->
  exists p w1 w2,
    slow_pow x n w = Ok (p, w1) /\ fast_pow_iter x n w' = Ok (p, w2).
Proof. intros Hn. eexists _, _, _. by rewrite run_slow_pow, run_fast_pow_iter. Qed.

(** ** The order of the two calls

    [main] calls [slow_pow] and then [fast_pow].  In the other order the
    list store lists the two series in the other order, and nothing else
    changes. *)

Lemma fast_pow_world_recorded n size s k (v : Z) w :
  s <> "fast_pow" ->
  fast_pow_world n size (recorded s k v w) ≃ recorded s k v (fast_pow_world n size w).
Proof.
  intros Hs. unfold fast_pow_world. case_decide; [reflexivity|].
  apply recorded_comm. congruence.
Qed.

Lemma fast_pow_world_ok n size w : store_ok w -> store_ok (fast_pow_world n size w).
Proof. intros Hw. unfold fast_pow_world. case_decide; auto with store_db. Qed.

(** C38: the calls of [slow_pow] and [fast_pow] in
    the loop of [main] can be taken in either order: the results are the
    same and the worlds hold the same measurements, so a report shows the
    same points for every series of a group. *)
Theorem slow_pow_fast_pow_commute x n size w :
  in_int x -> in_int n -> store_ok w ->
  exists p q w1 w2,
    (a <- slow_pow x n ;; b <- fast_pow x n size ;; ret (a, b)) w = Ok ((p, q), w1) /\
    (b <- fast_pow x n size ;; a <- slow_pow x n ;; ret (a, b)) w = Ok ((p, q), w2) /\
    w1 ≃ w2 /\
    forall s, points_of s (store_all (series (profiler w1))) =
              points_of s (store_all (series (profiler w2))).
Proof.
  intros Hx Hn Hw. eexists _, _, _, _.
  split; [|split].
  - erewrite bind_ok by (by apply run_slow_pow).
    erewrite bind_ok by (by apply run_fast_pow). reflexivity.
  - erewrite bind_ok by (by apply run_fast_pow).
    erewrite bind_ok by (by apply run_slow_pow). reflexivity.
  - assert (E := fast_pow_world_recorded n size "slow_pow" n (Z.max 0 n) w ltac:(done)).
    split; [exact E|]. intros s.
    apply points_of_same_world; [| |exact E]; auto using fast_pow_world_ok with store_db.
Qed.

(** ** The range of the results *)

(** On [int] arguments [fast_pow] returns an [int]: the product it
    computes is kept within 32 bits at every step. *)
Lemma fast_pow_in_int x n size w :
  in_int x -> in_int n ->
  exists p w', fast_pow x n size w = Ok (p, w') /\ in_int p.
Proof.
  intros Hx Hn. eexists _, _. split; [by apply run_fast_pow|]. apply wrap_in_int.
Qed.

(** ** The cost of fast_pow_iter *)

(** C20: [fast_pow_iter] on a positive exponent
    records at most 2 * (log2 n + 1) multiplications, and never more than
    62, where [slow_pow] records [n]. *)
Theorem fast_pow_iter_logarithmic x n w :
  in_int n -> 0 < n ->
  exists p w' c,
    fast_pow_iter x n w = Ok (p, w') /\
    valueAt "fast_pow_iter" n (profiler w') = Some c /\
    c <= 2 * (Z.log2 n + 1) <= 62.
Proof.
  intros Hn Hpos. eexists _, _, _.
  split; [by apply run_fast_pow_iter|]. split; [apply valueAt_recorded_eq|].
  pose proof (popcount_le_bitlen n). pose proof (bitlen_in_int n Hn).
  pose proof (bitlen_log2 n Hpos). unfold iter_steps, bits in *. lia.
Qed.

(** C36: from the exponent 6 on, [fast_pow_iter] records
    fewer multiplications than [slow_pow] does for the same exponent. *)
Theorem fast_pow_iter_cheaper x n w w' :
  in_int n -> 6 <= n ->
  exists p p' w1 w2 c c',
    slow_pow x n w = Ok (p, w1) /\ fast_pow_iter x n w' = Ok (p', w2) /\
    valueAt "slow_pow" n (profiler w1) = Some c /\
    valueAt "fast_pow_iter" n (profiler w2) = Some c' /\ c' < c.
Proof.
  intros Hn Hbig. eexists _, _, _, _, _, _.
  split; [by apply run_slow_pow|]. split; [by apply run_fast_pow_iter|].
  split; [apply valueAt_recorded_eq|]. split; [apply valueAt_recorded_eq|].
  pose proof (digits_lt n Hbig). unfold iter_steps. lia.
Qed.

(** ** Overflow in the power experiment *)

(** C35: with the base 5 of [main], [slow_pow] returns 5^n
    exactly up to the exponent 13 and not from 14 on: 5^14 exceeds
    [INT_MAX], and [p *= x] overflows. *)
Theorem slow_pow_5_overflow n w :
  in_int n -> 0 <= n ->
  exists p w', slow_pow 5 n w = Ok (p, w') /\ (p = 5 ^ n <-> n <= 13).
Proof.
  intros Hn Hpos. eexists _, _. split; [by apply run_slow_pow|].
  rewrite Z.max_r by done. split.
  - intros He. destruct (Z.le_gt_cases n 13) as [|Hbig]; [done|].
    exfalso. apply (wrap_overflow (5 ^ n)); [|done].
    pose proof (Z.pow_le_mono_r 5 14 n). unfold INT_MAX. lia.
  - intros Hsmall. apply wrap_small.
    pose proof (Z.pow_le_mono_r 5 n 13). pose proof (Z.pow_pos_nonneg 5 n). int_lia.
Qed.

(** ** The session machine *)

Lemma slow_pow_sound x n : preserves sound (slow_pow x n).
Proof. unfold slow_pow, slow_pow_body. preserve. Qed.

Lemma fast_pow_fuel_sound fuel x n size : preserves sound (fast_pow_fuel fuel x n size).
Proof. revert x n. induction fuel as [|fuel IH]; intros x n; simpl; preserve. Qed.

Lemma fast_pow_sound x n size : preserves sound (fast_pow x n size).
Proof. apply fast_pow_fuel_sound. Qed.

(** Whatever its arguments, [fast_pow_iter] leaves the profiler in a state
    of the session machine when it found it in one: it only makes calls
    of the API. *)
Lemma fast_pow_iter_keeps_session x n : preserves sound (fast_pow_iter x n).
Proof. unfold fast_pow_iter, fast_pow_iter_body. preserve. Qed.

End Power.

#[export] Hint Resolve slow_pow_sound fast_pow_sound : preserve_db.

(** ** Refinement on the list store *)

(** C18: with the association-list store of
    [SeriesStore], a call of [slow_pow] is one insertion into the finite
    map the store stands for: the key ("slow_pow", n) gets max(0, n) and
    every other key keeps its value. *)
Theorem slow_pow_refines_insert x n (w : World SeriesStore.t) :
  SeriesStore.wf (series (profiler w)) -> in_int n ->
  exists p w',
    slow_pow x n w = Ok (p, w') /\
    SeriesStore.abs (series (profiler w')) =
    <[("slow_pow", n) := Z.max 0 n]> (SeriesStore.abs (series (profiler w))).
Proof.
  intros Hwf Hn. eexists _, _. split; [by apply run_slow_pow|].
  by apply SeriesStoreFacts.abs_setValue.
Qed.

(** ** Witnesses on concrete inputs *)

Lemma fast_pow_iter_run_witness :
  fast_pow_iter 5 14 example_world =
  Ok (1808548329, recorded "fast_pow_iter" 14 7 example_world).
Proof. apply (fast_pow_iter_run 5 14 example_world). int_lia. Defined.

Lemma fast_pow_in_int_witness :
  exists p w', fast_pow 5 14 14 example_world = Ok (p, w') /\ in_int p.
Proof. apply (fast_pow_in_int 5 14 14 example_world); int_lia. Defined.

Lemma fast_pow_iter_logarithmic_witness :
  exists p w' c,
    fast_pow_iter 5 14 example_world = Ok (p, w') /\
    valueAt "fast_pow_iter" 14 (profiler w') = Some c /\
    c <= 2 * (Z.log2 14 + 1) <= 62.
Proof. apply (fast_pow_iter_logarithmic 5 14 example_world); int_lia. Defined.

Lemma fast_pow_iter_keeps_session_witness :
  sound (recorded "fast_pow_iter" 14 7 example_world).
Proof.
  apply (fast_pow_iter_keeps_session 5 14 example_world 1808548329);
    [apply reachable_init | vm_compute; reflexivity].
Defined.

Lemma slow_pow_refines_insert_witness :
  exists p w',
    slow_pow 5 3 example_world = Ok (p, w') /\
    SeriesStore.abs (series (profiler w')) = <[("slow_pow", 3) := 3]> ∅.
Proof.
  apply (slow_pow_refines_insert 5 3 example_world);
    [apply SeriesStoreFacts.empty_wf | int_lia].
Defined.

Lemma slow_pow_run_witness :
  slow_pow 5 3 example_world = Ok (125, recorded "slow_pow" 3 3 example_world).
Proof. apply (slow_pow_run 5 3 example_world). int_lia. Defined.

Lemma fast_pow_run_witness :
  fast_pow 5 14 14 example_world =
  Ok (1808548329, recorded "fast_pow" 14 1 example_world).
Proof. apply (fast_pow_run 5 14 14 example_world); int_lia. Defined.

Lemma slow_pow_fast_pow_agree_witness :
  exists p w1 w2,
    slow_pow 5 14 example_world = Ok (p, w1) /\
    fast_pow 5 14 14 example_world = Ok (p, w2).
Proof.
  apply (slow_pow_fast_pow_agree 5 14 14 example_world example_world); int_lia.
Defined.

Lemma slow_pow_fast_pow_negative_witness :
  (exists w1, slow_pow 5 (-3) example_world = Ok (1, w1)) /\
  (exists w2, fast_pow 5 (-3) 7 example_world = Ok (125, w2)).
Proof. apply (slow_pow_fast_pow_negative 5 (-3) 7 example_world); int_lia. Defined.

Lemma fast_pow_iter_slow_pow_agree_witness :
  exists p w1 w2,
    slow_pow 7 (-3) example_world = Ok (p, w1) /\
    fast_pow_iter 7 (-3) example_world = Ok (p, w2).
Proof.
  apply (fast_pow_iter_slow_pow_agree 7 (-3) example_world example_world); int_lia.
Defined.

Lemma fast_pow_iter_cheaper_witness :
  exists p p' w1 w2 c c',
    slow_pow 5 190 example_world = Ok (p, w1) /\
    fast_pow_iter 5 190 example_world = Ok (p', w2) /\
    valueAt "slow_pow" 190 (profiler w1) = Some c /\
    valueAt "fast_pow_iter" 190 (profiler w2) = Some c' /\ c' < c.
Proof.
  apply (fast_pow_iter_cheaper 5 190 example_world example_world); int_lia.
Defined.

Lemma slow_pow_5_overflow_witness :
  exists p w', slow_pow 5 14 example_world = Ok (p, w') /\ (p = 5 ^ 14 <-> 14 <= 13).
Proof. apply (slow_pow_5_overflow 14 example_world); int_lia. Defined.

(** On the list store the order of the two calls shows in the table: the
    series are listed in the order of their first write. *)
Lemma slow_pow_fast_pow_order_visible :
  series (profiler (fast_pow_world 2 2 (recorded "slow_pow" 2 2 example_world))) <>
  series (profiler (recorded "slow_pow" 2 2 (fast_pow_world 2 2 example_world))).
Proof. vm_compute. discriminate. Qed.

Lemma slow_pow_fast_pow_commute_witness :
  exists p q w1 w2,
    (a <- slow_pow 5 2 ;; b <- fast_pow 5 2 2 ;; ret (a, b)) example_world =
      Ok ((p, q), w1) /\
    (b <- fast_pow 5 2 2 ;; a <- slow_pow 5 2 ;; ret (a, b)) example_world =
      Ok ((p, q), w2) /\
    w1 ≃ w2 /\
    forall s, points_of s (store_all (series (profiler w1))) =
              points_of s (store_all (series (profiler w2))).
Proof.
  apply (slow_pow_fast_pow_commute 5 2 2 example_world); [int_lia | int_lia |].
  apply SeriesStoreFacts.empty_wf.
Defined.

Lemma fast_pow_depth_witness :
  (Z.of_nat 2 < fast_pow_calls 14 ->
   fast_pow_fuel 2 5 14 14 example_world = Err OutOfFuel) /\
  (fast_pow_calls 14 <= Z.of_nat 2 ->
   fast_pow_fuel 2 5 14 14 example_world =
   Ok (wrap (5 ^ Z.abs 14), fast_pow_world 14 14 example_world)) /\
  fast_pow_calls 14 <= 32 /\ fast_pow_calls INT_MIN = 32.
Proof. apply (fast_pow_depth 2 5 14 14 example_world); int_lia. Defined.
