(* ===== verification/Factorial.v ===== *)
(** * Factorial: the two factorial functions of src/example1.cpp

    [factorial] (lines 88 to 97) multiplies in a loop and counts on its own
    handle.  [factorial_rec] (lines 102 to 112) recurses and counts on the
    handle of its caller, passed by reference: the model takes the handle
    and returns it with the result.

    Fuel: the loop runs with its variant [n - 1]; the recursion runs with
    its argument [n], one more than its depth.

    What is proved: both return n! wrapped to an [int] and perform
    max(0, n - 1) multiplications, so they agree; from n = 13 on the
    result is not n! any more, and from n = 34 on it is 0; the loop of
    [factorial] cannot exit for n = [INT_MAX]; [factorial_rec] with a
    stale handle computes the same value and writes nothing; the
    recursion of [factorial_rec] is exactly n - 1 deep. *)

From S2P Require Import Prelude Int32 Monad SeriesStore Profiler World.
From stdpp Require Import base option list gmap strings.
Import Int32.

#[local] Open Scope string_scope.
#[local] Open Scope Z_scope.
#[local] Open Scope prog_scope.

(** ** The specification: n! in [Z] *)

Fixpoint fact_upto (k : nat) : Z :=
  match k with
  | O => 1
  | S k' => Z.of_nat k * fact_upto k'
  end.

(** [zfact n] is n!, and 1 when [n] is not positive. *)
Definition zfact (n : Z) : Z := fact_upto (Z.to_nat n).

Section Factorial.
Context {T : Type} `{Store T}.

Implicit Types (n : Z) (o : Operation) (w : World T).

(** ** factorial *)

Definition factorial_body (st : Z * Z * Operation) : M (World T) (Z * Z * Operation) :=
  let '(i, res, o) := st in
  o <- countM o 1 ;;
  let res := imul res i in
  ret (iadd i 1, res, o).

Definition factorial n : M (World T) Z :=
  let res := 1 in
  o <- createOperationM "factorial_iter" n ;;
  st <- while (Z.to_nat (n - 1)) (fun '(i, _, _) => i <=? n) factorial_body (2, res, o) ;;
  let '(_, res, o) := st in
  destroyM o ;;
  ret res.

(** ** factorial_rec *)

Fixpoint factorial_rec_fuel (fuel : nat) n o : M (World T) (Z * Operation) :=
  if n <=? 1 then ret (1, o)
  else
    match fuel with
    | O => raise OutOfFuel
    | S fuel' =>
        o <- countM o 1 ;;
        r <- factorial_rec_fuel fuel' (isub n 1) o ;;
        ret (imul n r.1, r.2)
    end.

Definition factorial_rec n o : M (World T) (Z * Operation) :=
  factorial_rec_fuel (Z.to_nat n) n o.

(** ** n! and its wrap-around *)

Lemma zfact_step n : 1 <= n -> zfact n = n * zfact (n - 1).
Proof.
  intros Hn. unfold zfact.
  replace (Z.to_nat n) with (S (Z.to_nat (n - 1))) by lia.
  simpl fact_upto. f_equal. lia.
Qed.

Lemma zfact_small n : n <= 1 -> zfact n = 1.
Proof.
  intros Hn. unfold zfact. destruct (Z.to_nat n) as [|[|k]] eqn:Hk; try done. lia.
Qed.

(** One multiplication of the loop, modulo 2^32. *)
Lemma imul_zfact_step n : 1 <= n -> imul (wrap (zfact (n - 1))) n = wrap (zfact n).
Proof.
  intros Hn. unfold imul. rewrite wrap_mul_l, (zfact_step n) by done.
  f_equal. lia.
Qed.

(** ** factorial: result and count *)

(** The run of [factorial] as an equation, for the proofs of its callers. *)
Lemma run_factorial n w :
  in_int n -> n < INT_MAX ->
  factorial n w =
  Ok (wrap (zfact n), recorded "factorial_iter" n (Z.max 0 (n - 1)) w).
Proof.
  intros Hn Hmax. unfold factorial. step.
  apply (while_rule _ _
    (fun '(i, res, o) w' => 2 <= i <= Z.max 2 (n + 1) /\ res = wrap (zfact (i - 1)) /\
       o = mkOperation "factorial_iter" n (i - 2) (generation (profiler w)) /\
       w' = recorded "factorial_iter" n (i - 2) w)
    (fun '(i, _, _) => Z.to_nat (n + 1 - i))).
  - intros [[i res] o] w1 (Hi & -> & -> & ->) Hc. bool_to_prop.
    assert (Hs : iadd i 1 = i + 1) by (apply iadd_small; int_lia).
    eexists (_, _, _), _. split; [|split].
    + unfold factorial_body. step. reflexivity.
    + rewrite Hs, imul_zfact_step by lia. autorewrite with loop_rw.
      replace (i + 1 - 1) with i by lia. replace (i + 1 - 2) with (i - 2 + 1) by lia.
      split_and!; try done; lia.
    + rewrite Hs. lia.
  - split_and!; try done; lia.
  - lia.
  - intros [[i res] o] w' (Hi & -> & -> & ->) Hc. bool_to_prop.
    step. autorewrite with loop_rw. unfold ret.
    destruct (Z.le_gt_cases n 1) as [Hle|Hgt].
    + replace i with 2 by lia. rewrite (zfact_small n), Z.max_l by lia. done.
    + replace i with (n + 1) by lia. rewrite Z.max_r by lia.
      by replace (n + 1 - 1) with n by lia; replace (n + 1 - 2) with (n - 1) by lia.
Qed.

(** C5: [factorial n] returns n! wrapped to an [int] (1 when [n] is below 2) and
    leaves max(0, n - 1), the number of multiplications, at
    ("factorial_iter", n).  It never runs out of fuel.  [n = INT_MAX] is
    excluded: there [i <= n] cannot become false. *)
Theorem factorial_run n w :
  in_int n -> n < INT_MAX ->
  factorial n w =
  Ok (wrap (zfact n), recorded "factorial_iter" n (Z.max 0 (n - 1)) w).
Proof. apply run_factorial. Qed.

(** ** factorial_rec: result and count *)

(** Fuel [n - 1] is enough for the argument [n]. *)
Lemma factorial_rec_fuel_run fuel : forall n o w,
  in_int n -> n - 1 <= Z.of_nat fuel -> current o (profiler w) = true ->
  factorial_rec_fuel fuel n o w =
  Ok ((wrap (zfact n), advance o (Z.max 0 (n - 1))), counted o (n - 1) w).
Proof.
  induction fuel as [|fuel IH]; intros n o w Hn Hf Hc;
    simpl; destruct (Z.leb_spec n 1) as [Hle|Hgt]; try lia.
  1,2: unfold ret, counted; rewrite zfact_small, Z.max_l, advance_0, decide_False by lia;
       done.
  assert (Hs : isub n 1 = n - 1) by (apply isub_small; int_lia).
  step. rewrite Hs.
  erewrite bind_ok; [| apply IH; [int_lia | lia | solve_current]].
  unfold ret. simpl. rewrite imul_comm, imul_zfact_step by lia.
  fold (advance o 1). rewrite advance_advance, counted_step by lia.
  repeat f_equal; lia.
Qed.

(** The run of [factorial_rec] as an equation, for the proofs of its callers. *)
Lemma run_factorial_rec n o w :
  in_int n -> current o (profiler w) = true ->
  factorial_rec n o w =
  Ok ((wrap (zfact n), advance o (Z.max 0 (n - 1))), counted o (n - 1) w).
Proof. intros Hn Hc. apply factorial_rec_fuel_run; [done | lia | done]. Qed.

(** C6: [factorial_rec n o] returns n! wrapped to an [int] and the handle [o]
    advanced by max(0, n - 1), one unit per multiplication; the world
    holds the new total of the handle, and is untouched when [n] is below
    2.  A stale handle is not covered: it counts without recording. *)
Theorem factorial_rec_run n o w :
  in_int n -> current o (profiler w) = true ->
  factorial_rec n o w =
  Ok ((wrap (zfact n), advance o (Z.max 0 (n - 1))), counted o (n - 1) w).
Proof. apply run_factorial_rec. Qed.

(** ** The depth of the recursion *)

(** With fewer than [n - 1] nested calls allowed, [factorial_rec] does not
    reach its base case, whatever the handle. *)
Lemma factorial_rec_fuel_short fuel : forall n o w,
  in_int n -> Z.of_nat fuel < n - 1 ->
  factorial_rec_fuel fuel n o w = Err OutOfFuel.
Proof.
  induction fuel as [|fuel IH]; intros n o w Hn Hf;
    simpl; destruct (Z.leb_spec n 1) as [Hle|Hgt]; try lia; [reflexivity|].
  assert (Hs : isub n 1 = n - 1) by (apply isub_small; int_lia).
  erewrite bind_ok by reflexivity. rewrite Hs.
  apply bind_err, IH; [int_lia | lia].
Qed.

(** C21: the recursion of [factorial_rec] is exactly
    [n - 1] deep.  With fuel counting the nested calls allowed, fewer than
    [n - 1] end in [OutOfFuel] and [n - 1] or more return n! wrapped: the
    depth grows linearly with the argument, 99999 calls for the largest
    size of [main], where [fast_pow] needs at most 32. *)
Theorem factorial_rec_depth fuel n o w :
  in_int n -> 1 < n -> current o (profiler w) = true ->
  (Z.of_nat fuel < n - 1 -> factorial_rec_fuel fuel n o w = Err OutOfFuel) /\
  (n - 1 <= Z.of_nat fuel ->
   factorial_rec_fuel fuel n o w =
   Ok ((wrap (zfact n), advance o (n - 1)), counted o (n - 1) w)).
Proof.
  intros Hn H1 Hc. split; intros Hf.
  - apply factorial_rec_fuel_short; assumption.
  - rewrite <- (Z.max_r 0 (n - 1)) at 1 by lia. by apply factorial_rec_fuel_run.
Qed.

(** ** The size of n! *)

Lemma fact_upto_pos k : 0 < fact_upto k.
Proof. induction k as [|k IH]; [done|]. cbn [fact_upto]. lia. Qed.

(** j! divides k! for j <= k: what makes n! grow and keep its factors of 2. *)
Lemma fact_upto_divide j k : (j <= k)%nat -> (fact_upto j | fact_upto k).
Proof.
  induction 1 as [|k _ IH]; [reflexivity|].
  cbn [fact_upto]. by apply Z.divide_mul_r.
Qed.

Lemma zfact_divide m n : m <= n -> (zfact m | zfact n).
Proof. intros Hmn. apply fact_upto_divide. lia. Qed.

Lemma zfact_mono m n : m <= n -> zfact m <= zfact n.
Proof.
  intros Hmn. apply Z.divide_pos_le; [apply fact_upto_pos | by apply zfact_divide].
Qed.

(** 13! is the first factorial above [INT_MAX]. *)
Lemma zfact_overflow n : 13 <= n -> INT_MAX < zfact n.
Proof.
  intros Hn. apply Z.lt_le_trans with (zfact 13); [done | by apply zfact_mono].
Qed.

(** Up to 12! the [int] holds the factorial. *)
Lemma zfact_exact n : n <= 12 -> wrap (zfact n) = zfact n.
Proof.
  intros Hn. apply wrap_small.
  pose proof (zfact_mono n 12 Hn) as Hle. pose proof (fact_upto_pos (Z.to_nat n)) as Hp.
  change (zfact 12) with 479001600 in Hle. unfold zfact in *. int_lia.
Qed.

(** 34! is a multiple of 2^32, and so is every later factorial. *)
Lemma zfact_vanishes n : 34 <= n -> wrap (zfact n) = 0.
Proof.
  intros Hn. apply wrap_multiple.
  transitivity (zfact 34); [|by apply zfact_divide].
  by apply Z.mod_divide.
Qed.

(** ** The two functions against each other *)

(** C12: [factorial] and [factorial_rec] return the same [int], and the handle
    of the recursive one advances by the count the iterative one records. *)
Theorem factorial_agree n o w w' :
  in_int n -> n < INT_MAX -> current o (profiler w') = true ->
  exists r k o' w1 w2,
    factorial n w = Ok (r, w1) /\ factorial_rec n o w' = Ok ((r, o'), w2) /\
    valueAt "factorial_iter" n (profiler w1) = Some k /\
    op_total o' = op_total o + k.
Proof.
  intros Hn Hmax Hc. eexists _, _, _, _, _.
  rewrite run_factorial, run_factorial_rec by done.
  split_and!; [done | done | apply valueAt_recorded_eq | done].
Qed.

(** ** Overflow *)

(** C30: Up to n = 12 the value returned is n!. *)
Theorem factorial_exact n w :
  0 <= n <= 12 -> returned (factorial n w) = Some (zfact n).
Proof.
  intros Hn. rewrite run_factorial by int_lia. simpl. by rewrite zfact_exact by lia.
Qed.

(** From n = 13 on n! is no [int], so the value returned is not n!. *)
Lemma factorial_overflow n w :
  13 <= n < INT_MAX -> exists v w', factorial n w = Ok (v, w') /\ v <> zfact n.
Proof.
  intros Hn. eexists _, _. split; [apply run_factorial; int_lia|].
  apply wrap_overflow, zfact_overflow. lia.
Qed.

(** C15: From n = 34 on [factorial] returns 0. *)
Theorem factorial_vanishes n w :
  34 <= n < INT_MAX ->
  factorial n w = Ok (0, recorded "factorial_iter" n (n - 1) w).
Proof.
  intros Hn. rewrite run_factorial by int_lia.
  by rewrite zfact_vanishes, Z.max_r by lia.
Qed.

(** From n = 34 on [factorial_rec] returns 0 as well; it still counts its
    n - 1 multiplications. *)
Lemma factorial_rec_vanishes n o w :
  34 <= n <= INT_MAX -> current o (profiler w) = true ->
  factorial_rec n o w =
  Ok ((0, advance o (n - 1)), recorded (op_series o) (op_size o) (op_total o + (n - 1)) w).
Proof.
  intros Hn Hc. rewrite run_factorial_rec by (done || int_lia).
  unfold counted. by rewrite zfact_vanishes, Z.max_r, decide_True by lia.
Qed.

(** C31: With n = [INT_MAX] the loop of [factorial] never exits: whatever the
    fuel, the test [i <= n] holds of every [int], and the run ends in
    [OutOfFuel]. *)
Theorem factorial_INT_MAX_diverges fuel : forall i res o w,
  in_int i -> current o (profiler w) = true ->
  while fuel (fun '(i, _, _) => i <=? INT_MAX) factorial_body (i, res, o) w =
  Err OutOfFuel.
Proof.
  induction fuel as [|fuel IH]; intros i res o w Hi Hc; cbn [while];
    destruct (Z.leb_spec i INT_MAX) as [_|Hgt]; try int_lia; [done|].
  unfold factorial_body. step. unfold ret. cbn [bind].
  apply IH; [apply wrap_in_int | solve_current].
Qed.

(** ** A stale handle *)

Lemma factorial_rec_fuel_stale fuel : forall n o w,
  in_int n -> n - 1 <= Z.of_nat fuel -> current o (profiler w) = false ->
  factorial_rec_fuel fuel n o w =
  Ok ((wrap (zfact n), advance o (Z.max 0 (n - 1))), w).
Proof.
  induction fuel as [|fuel IH]; intros n o w Hn Hf Hc;
    simpl; destruct (Z.leb_spec n 1) as [Hle|Hgt]; try lia.
  1,2: unfold ret; rewrite zfact_small, Z.max_l, advance_0 by lia; done.
  assert (Hs : isub n 1 = n - 1) by (apply isub_small; int_lia).
  erewrite bind_ok by (by apply run_countM_stale). rewrite Hs.
  erewrite bind_ok by (apply IH; [int_lia | lia | done]).
  unfold ret. simpl. rewrite imul_comm, imul_zfact_step, advance_advance by lia.
  repeat f_equal; lia.
Qed.

(** C33: called with a handle of a session that was
    reset, [factorial_rec] returns the same value and advances the handle
    as usual, and leaves the world as it found it: nothing reaches the
    store of the new session. *)
Theorem factorial_rec_stale n o w :
  in_int n -> current o (profiler w) = false ->
  factorial_rec n o w = Ok ((wrap (zfact n), advance o (Z.max 0 (n - 1))), w).
Proof. intros Hn Hc. apply factorial_rec_fuel_stale; [done | lia | done]. Qed.

(** ** The session machine *)

Lemma factorial_sound n : preserves sound (factorial n).
Proof. unfold factorial, factorial_body. preserve. Qed.

Lemma factorial_rec_fuel_sound fuel n o : preserves sound (factorial_rec_fuel fuel n o).
Proof. revert n o. induction fuel as [|fuel IH]; intros n o; simpl; preserve. Qed.

Lemma factorial_rec_sound n o : preserves sound (factorial_rec n o).
Proof. apply factorial_rec_fuel_sound. Qed.

End Factorial.

#[export] Hint Resolve factorial_sound factorial_rec_sound : preserve_db.

(** ** Witnesses on concrete inputs *)

Lemma factorial_run_witness :
  factorial 5 example_world = Ok (120, recorded "factorial_iter" 5 4 example_world).
Proof. apply (factorial_run 5 example_world); int_lia. Defined.

Lemma factorial_rec_run_witness :
  factorial_rec 5 (mkOperation "factorial_rec" 5 0 0) example_world =
  Ok ((120, mkOperation "factorial_rec" 5 4 0), recorded "factorial_rec" 5 4 example_world).
Proof.
  apply (factorial_rec_run 5 (mkOperation "factorial_rec" 5 0 0) example_world);
    [int_lia | reflexivity].
Defined.

Lemma factorial_agree_witness :
  exists r k o' w1 w2,
    factorial 5 example_world = Ok (r, w1) /\
    factorial_rec 5 (mkOperation "factorial_rec" 5 0 0) example_world = Ok ((r, o'), w2) /\
    valueAt "factorial_iter" 5 (profiler w1) = Some k /\
    op_total o' = 0 + k.
Proof.
  apply (factorial_agree 5 (mkOperation "factorial_rec" 5 0 0) example_world example_world);
    [int_lia | int_lia | reflexivity].
Defined.

Lemma factorial_exact_witness : returned (factorial 12 example_world) = Some 479001600.
Proof. apply (factorial_exact 12 example_world). lia. Defined.

Lemma factorial_vanishes_witness :
  factorial 1000 example_world = Ok (0, recorded "factorial_iter" 1000 999 example_world).
Proof. apply (factorial_vanishes 1000 example_world). int_lia. Defined.

Lemma factorial_rec_vanishes_witness :
  factorial_rec 1000 (mkOperation "factorial_rec" 1000 0 0) example_world =
  Ok ((0, mkOperation "factorial_rec" 1000 999 0),
      recorded "factorial_rec" 1000 999 example_world).
Proof.
  apply (factorial_rec_vanishes 1000 (mkOperation "factorial_rec" 1000 0 0) example_world);
    [int_lia | reflexivity].
Defined.

Lemma factorial_INT_MAX_diverges_witness :
  while 1000 (fun '(i, _, _) => i <=? INT_MAX) factorial_body
    (2, 1, mkOperation "factorial_iter" INT_MAX 0 0) example_world = Err OutOfFuel.
Proof.
  apply (factorial_INT_MAX_diverges 1000 2 1
           (mkOperation "factorial_iter" INT_MAX 0 0) example_world);
    [int_lia | reflexivity].
Defined.

Lemma factorial_rec_stale_witness :
  factorial_rec 5 (mkOperation "factorial_rec" 5 0 7) example_world =
  Ok ((120, mkOperation "factorial_rec" 5 4 7), example_world).
Proof.
  apply (factorial_rec_stale 5 (mkOperation "factorial_rec" 5 0 7) example_world);
    [int_lia | reflexivity].
Defined.

Lemma factorial_rec_depth_witness :
  (Z.of_nat 3 < 5 - 1 ->
   factorial_rec_fuel 3 5 (mkOperation "factorial_rec" 5 0 0) example_world =
   Err OutOfFuel) /\
  (5 - 1 <= Z.of_nat 3 ->
   factorial_rec_fuel 3 5 (mkOperation "factorial_rec" 5 0 0) example_world =
   Ok ((wrap (zfact 5), advance (mkOperation "factorial_rec" 5 0 0) (5 - 1)),
       counted (mkOperation "factorial_rec" 5 0 0) (5 - 1) example_world)).
Proof.
  apply (factorial_rec_depth 3 5 (mkOperation "factorial_rec" 5 0 0) example_world);
    [int_lia | lia | reflexivity].
Defined.
