(* ===== verification/Word32.v ===== *)
(** * Word32: the arithmetic of the model is that of 32-bit machine words

    [Int32] keeps an [int] as a [Z] and writes the wrap-around out.  This
    file checks that model against an independent specification of
    two's-complement machine words, the [word] interface of coqutil: for
    every implementation of 32-bit words that satisfies [word.ok], each
    operator of [Int32] is the signed value of the word operator on the
    same arguments.  Division by zero and [INT_MIN / -1] are left out:
    they are undefined in C++ and unspecified for words.

    As corollaries of the run equations, the values the power functions
    and [factorial] return are those of reference computations written in
    words ([word_pow], [word_fact]).  The lemmas are stated
    against the abstract interface; the concrete words [Naive.word32] are
    used only to evaluate examples. *)

From S2P Require Import Prelude Int32 Monad SeriesStore Profiler World Power Factorial.
From coqutil Require Import Word.Interface Word.Properties Word.Naive.
From Stdlib Require Import Zquot String.
Import Int32.

#[local] Open Scope string_scope.
#[local] Open Scope Z_scope.

Section Word32.
Context {word : word.word 32} {word_ok : word.ok word}.

Implicit Types (a b z k : Z) (x y : word).

(** ** The reference computations, in words *)

(** [x] multiplied [k] times into 1. *)
Definition word_pow x (k : nat) : word :=
  Nat.iter k (fun p => word.mul p x) (word.of_Z 1).

(** The product 1 * 2 * ... * k. *)
Fixpoint word_fact (k : nat) : word :=
  match k with
  | O => word.of_Z 1
  | S k' => word.mul (word_fact k') (word.of_Z (Z.of_nat k))
  end.

(** ** The range and the wrap-around *)

Lemma wrap_swrap z : word.swrap (word := word) z = wrap z.
Proof. reflexivity. Qed.

Lemma in_int_signed x : in_int (word.signed x).
Proof.
  pose proof (word.signed_range x) as Hr. change (2 ^ (32 - 1)) with 2147483648 in Hr.
  unfold in_int, INT_MIN, INT_MAX. lia.
Qed.

Lemma signed_of_Z_wrap z : word.signed (word.of_Z (word := word) z) = wrap z.
Proof. rewrite word.signed_of_Z. apply wrap_swrap. Qed.

Lemma signed_of_Z_small z : in_int z -> word.signed (word.of_Z (word := word) z) = z.
Proof. intros Hz. rewrite signed_of_Z_wrap. apply wrap_small, Hz. Qed.

Lemma of_Z_wrap z : word.of_Z (word := word) (wrap z) = word.of_Z z.
Proof. apply word.signed_inj. rewrite !signed_of_Z_wrap. apply wrap_idem. Qed.

(** ** The operators *)

Lemma iadd_word a b :
  word.signed (word.add (word.of_Z (word := word) a) (word.of_Z b)) = iadd a b.
Proof.
  rewrite word.signed_add, !signed_of_Z_wrap, wrap_swrap.
  unfold iadd. rewrite wrap_add_l, wrap_add_r. reflexivity.
Qed.

Lemma isub_word a b :
  word.signed (word.sub (word.of_Z (word := word) a) (word.of_Z b)) = isub a b.
Proof.
  rewrite word.signed_sub, !signed_of_Z_wrap, wrap_swrap. unfold isub.
  apply wrap_congr. rewrite Zminus_mod, !wrap_mod, <- Zminus_mod. reflexivity.
Qed.

Lemma imul_word a b :
  word.signed (word.mul (word.of_Z (word := word) a) (word.of_Z b)) = imul a b.
Proof.
  rewrite word.signed_mul, !signed_of_Z_wrap, wrap_swrap.
  unfold imul. rewrite wrap_mul_l, wrap_mul_r. reflexivity.
Qed.

(** Division and remainder truncate toward zero.  [INT_MIN / -1] is left
    out: it is undefined in C++ and unspecified for a word. *)
Lemma quot_in_int a b : in_int a -> in_int b -> a <> INT_MIN \/ b <> -1 -> in_int (Z.quot a b).
Proof.
  unfold in_int, INT_MIN, INT_MAX. intros Ha Hb Hab.
  destruct (Z.eq_dec b 0) as [->|Hb0]; [rewrite Zquot.Zquot_0_r; lia|].
  pose proof (Zquot.Z_quot_rem_eq a b) as E. pose proof (Zquot.Zrem_lt a b Hb0) as Hlt.
  pose proof (Zquot.Zrem_sgn2 a b) as Hs. nia.
Qed.

Lemma idiv_word a b :
  in_int a -> in_int b -> b <> 0 -> a <> INT_MIN \/ b <> -1 ->
  word.signed (word.divs (word.of_Z (word := word) a) (word.of_Z b)) = idiv a b.
Proof.
  intros Ha Hb Hb0 Hab.
  rewrite word.signed_divs_nowrap; rewrite ?signed_of_Z_small by assumption;
    [| assumption | exact Hab].
  unfold idiv. symmetry. apply wrap_small, quot_in_int; assumption.
Qed.

Lemma imod_word a b :
  in_int a -> in_int b -> b <> 0 ->
  word.signed (word.mods (word.of_Z (word := word) a) (word.of_Z b)) = imod a b.
Proof.
  intros Ha Hb Hb0.
  rewrite word.signed_mods_nowrap; rewrite ?signed_of_Z_small by assumption;
    [reflexivity | assumption].
Qed.

Lemma iand_word a b :
  in_int a -> in_int b ->
  word.signed (word.and (word.of_Z (word := word) a) (word.of_Z b)) = iand a b.
Proof.
  intros Ha Hb. rewrite word.signed_and_nowrap, !signed_of_Z_small by assumption.
  reflexivity.
Qed.

Lemma ishr_word a k :
  in_int a -> 0 <= k < 32 ->
  word.signed (word.srs (word.of_Z (word := word) a) (word.of_Z k)) = ishr a k.
Proof.
  intros Ha Hk.
  assert (Hu : word.unsigned (word.of_Z (word := word) k) = k)
    by (apply word.unsigned_of_Z_nowrap; lia).
  rewrite word.signed_srs_nowrap, Hu, signed_of_Z_small by (assumption || lia).
  reflexivity.
Qed.

Lemma lts_word a b :
  in_int a -> in_int b ->
  word.lts (word.of_Z (word := word) a) (word.of_Z b) = (a <? b).
Proof. intros Ha Hb. rewrite word.signed_lts, !signed_of_Z_small by assumption. reflexivity. Qed.

Lemma eqb_word a b :
  in_int a -> in_int b ->
  word.eqb (word.of_Z (word := word) a) (word.of_Z b) = (a =? b).
Proof. intros Ha Hb. rewrite word.signed_eqb, !signed_of_Z_small by assumption. reflexivity. Qed.

(** C32: the operators of [Int32] are the operators of a 32-bit
    machine word.  On every implementation of 32-bit words, addition,
    subtraction and multiplication of the words of [a] and [b] have the
    signed value [iadd a b], [isub a b], [imul a b], for all integers and
    with overflow; on [int] arguments so do the bitwise and, the signed
    comparisons, the arithmetic shift by less than 32, and the truncating
    division and remainder where C++ defines them. *)
Theorem int_ops_word a b :
  let W z : word := word.of_Z z in
  word.signed (word.add (W a) (W b)) = iadd a b /\
  word.signed (word.sub (W a) (W b)) = isub a b /\
  word.signed (word.mul (W a) (W b)) = imul a b /\
  (in_int a -> in_int b ->
   word.signed (word.and (W a) (W b)) = iand a b /\
   word.lts (W a) (W b) = (a <? b) /\
   word.eqb (W a) (W b) = (a =? b) /\
   (0 <= b < 32 -> word.signed (word.srs (W a) (W b)) = ishr a b) /\
   (b <> 0 -> word.signed (word.mods (W a) (W b)) = imod a b) /\
   (b <> 0 -> a <> INT_MIN \/ b <> -1 ->
    word.signed (word.divs (W a) (W b)) = idiv a b)).
Proof.
  intros W. unfold W.
  split; [apply iadd_word|]. split; [apply isub_word|]. split; [apply imul_word|].
  intros Ha Hb. split; [apply iand_word; assumption|].
  split; [apply lts_word; assumption|]. split; [apply eqb_word; assumption|].
  split; [intros Hk; apply ishr_word; assumption|].
  split; [intros Hb0; apply imod_word; assumption|].
  intros Hb0 Hab. apply idiv_word; assumption.
Qed.

(** ** The functions of the demo, in words *)

Lemma signed_word_pow a (k : nat) :
  word.signed (word_pow (word.of_Z a) k) = wrap (a ^ Z.of_nat k).
Proof.
  induction k as [|k IH]; [exact (signed_of_Z_wrap 1)|].
  unfold word_pow in *. rewrite Nat.iter_succ.
  rewrite word.signed_mul, IH, signed_of_Z_wrap, wrap_swrap, wrap_mul_l, wrap_mul_r.
  f_equal. rewrite Nat2Z.inj_succ, Z.pow_succ_r by lia. ring.
Qed.

Lemma signed_word_fact (k : nat) : word.signed (word_fact k) = wrap (zfact (Z.of_nat k)).
Proof.
  unfold zfact. rewrite Nat2Z.id.
  induction k as [|k IH]; [exact (signed_of_Z_wrap 1)|].
  cbn [word_fact fact_upto].
  rewrite word.signed_mul, IH, signed_of_Z_wrap, wrap_swrap, wrap_mul_l, wrap_mul_r.
  f_equal. ring.
Qed.

Context {T : Type} `{Store T}.
Implicit Types (n : Z) (w : World T).

(** The power functions compute in 32-bit words: what [slow_pow] and
    [fast_pow_iter] return on an [int] exponent [n] is the signed value of
    the word that [n] word multiplications by [x] make of 1, and what
    [fast_pow] returns is that of |n| multiplications. *)
Corollary pow_word a n size w :
  in_int a -> in_int n ->
  let p k := word.signed (word_pow (word.of_Z a) (Z.to_nat k)) in
  slow_pow a n w = Ok (p n, recorded "slow_pow" n (Z.max 0 n) w) /\
  fast_pow_iter a n w = Ok (p n, recorded "fast_pow_iter" n (iter_steps n) w) /\
  fast_pow a n size w = Ok (p (Z.abs n), fast_pow_world n size w).
Proof.
  intros Ha Hn p. unfold p. rewrite !signed_word_pow.
  replace (Z.of_nat (Z.to_nat n)) with (Z.max 0 n) by lia.
  replace (Z.of_nat (Z.to_nat (Z.abs n))) with (Z.abs n) by lia.
  split; [|split].
  - apply run_slow_pow, Hn.
  - apply run_fast_pow_iter, Hn.
  - apply run_fast_pow; assumption.
Qed.

(** [factorial] computes in 32-bit words: the value it returns is the
    signed value of the product 1 * 2 * ... * n of words. *)
Lemma factorial_word n w :
  in_int n -> n < INT_MAX ->
  factorial n w =
  Ok (word.signed (word_fact (Z.to_nat n)), recorded "factorial_iter" n (Z.max 0 (n - 1)) w).
Proof.
  intros Hn Hmax. rewrite signed_word_fact, (run_factorial n w Hn Hmax).
  unfold zfact. rewrite Nat2Z.id. reflexivity.
Qed.

End Word32.

(** ** Witnesses on concrete inputs *)

Lemma int_ops_word_witness :
  let W z : Naive.word32 := word.of_Z z in
  let a := 1220703125 in
  let b := 5 in
  word.signed (word.add (W a) (W b)) = iadd a b /\
  word.signed (word.sub (W a) (W b)) = isub a b /\
  word.signed (word.mul (W a) (W b)) = imul a b /\
  (in_int a -> in_int b ->
   word.signed (word.and (W a) (W b)) = iand a b /\
   word.lts (W a) (W b) = (a <? b) /\
   word.eqb (W a) (W b) = (a =? b) /\
   (0 <= b < 32 -> word.signed (word.srs (W a) (W b)) = ishr a b) /\
   (b <> 0 -> word.signed (word.mods (W a) (W b)) = imod a b) /\
   (b <> 0 -> a <> INT_MIN \/ b <> -1 ->
    word.signed (word.divs (W a) (W b)) = idiv a b)).
Proof. exact (int_ops_word (word := Naive.word32) 1220703125 5). Defined.

Lemma pow_word_witness :
  let p k := word.signed (word_pow (word := Naive.word32) (word.of_Z 5) (Z.to_nat k)) in
  slow_pow 5 14 example_world = Ok (p 14, recorded "slow_pow" 14 14 example_world) /\
  fast_pow_iter 5 14 example_world =
    Ok (p 14, recorded "fast_pow_iter" 14 (iter_steps 14) example_world) /\
  fast_pow 5 14 14 example_world = Ok (p 14, fast_pow_world 14 14 example_world).
Proof. apply (pow_word (word := Naive.word32) 5 14 14 example_world); int_lia. Defined.

(** The overflow of 5^14 as the machine computes it. *)
Example word_pow_5_14 :
  word.signed (word_pow (word := Naive.word32) (word.of_Z 5) 14) = 1808548329.
Proof. vm_compute. reflexivity. Qed.
