(* ===== verification/Duplicates.v ===== *)
(** * Duplicates: [hasDuplicates] of src/example1.cpp

    [hasDuplicates v size] (lines 69 to 83) compares every pair of the
    first [size] elements of the array and counts the comparisons on a
    handle of the series "duplicates-comparation".  The array is a list;
    a read outside it is the error [OutOfBounds], where C++ leaves the
    behaviour undefined.  Of the two reads of a comparison, [v[i]] is
    taken first; C++ does not fix the order, which shows only in the
    index of the error on an empty array.

    Fuel: each loop runs with its variant at entry, [size - 1] for the
    outer loop and [size - (i + 1)] for the inner one.

    What is proved: on an array of at least [size] elements the function
    returns whether two of the first [size] elements are equal and records
    size * (size - 1) / 2 comparisons; on a shorter array it stops at the
    first read past the end; with [size] = [INT_MIN], where [size - 1]
    wraps around, it returns false after [INT_MAX] empty rounds. *)

From S2P Require Import Prelude Int32 Monad SeriesStore Profiler World.
From stdpp Require Import base option list gmap strings.
Import Int32.

#[local] Open Scope string_scope.
#[local] Open Scope Z_scope.
#[local] Open Scope prog_scope.

(** ** The specification *)

(** The elements at the positions [a] and [b] of [v] exist and are equal. *)
Definition same_at (v : list Z) (a b : Z) : Prop :=
  exists x, v !! Z.to_nat a = Some x /\ v !! Z.to_nat b = Some x.

(** Two of the first [size] elements are equal. *)
Definition has_dup (v : list Z) (size : Z) : Prop :=
  exists a b, 0 <= a < b /\ b < size /\ same_at v a b.

(** An equal pair among those compared before the inner loop of row [i]
    reaches column [j]. *)
Definition dup_seen (v : list Z) (size i j : Z) : Prop :=
  exists a b, 0 <= a < b /\ b < size /\ (a < i \/ a = i /\ b < j) /\ same_at v a b.

(** The number of pairs among [size] elements. *)
Definition comparisons (size : Z) : Z :=
  if size <=? 0 then 0 else size * (size - 1) / 2.

Section Duplicates.
Context {T : Type} `{Store T}.

Implicit Types (v : list Z) (size i j : Z) (o : Operation) (w : World T).

Definition hasDuplicates_inner_body v i (st : Z * bool * Operation)
  : M (World T) (Z * bool * Operation) :=
  let '(j, dup, o) := st in
  o <- countM o 1 ;;
  vi <- read v i ;;
  vj <- read v j ;;
  let dup := if vi =? vj then true else dup in
  ret (iadd j 1, dup, o).

Definition hasDuplicates_outer_body v size (st : Z * bool * Operation)
  : M (World T) (Z * bool * Operation) :=
  let '(i, dup, o) := st in
  inner <- while (Z.to_nat (size - iadd i 1)) (fun '(j, _, _) => j <? size)
             (hasDuplicates_inner_body v i) (iadd i 1, dup, o) ;;
  let '(_, dup, o) := inner in
  ret (iadd i 1, dup, o).

Definition hasDuplicates v size : M (World T) bool :=
  let dup := false in
  o <- createOperationM "duplicates-comparation" size ;;
  st <- while (Z.to_nat (isub size 1)) (fun '(i, _, _) => i <? isub size 1)
          (hasDuplicates_outer_body v size) (0, dup, o) ;;
  let '(_, dup, o) := st in
  destroyM o ;;
  ret dup.

(** ** Pairs seen so far *)

Lemma same_at_lookup v a b x y :
  v !! Z.to_nat a = Some x -> v !! Z.to_nat b = Some y -> same_at v a b <-> x = y.
Proof. unfold same_at. naive_solver. Qed.

Lemma dup_seen_step v size i j :
  0 <= i < j -> j < size ->
  dup_seen v size i (j + 1) <-> dup_seen v size i j \/ same_at v i j.
Proof.
  intros Hi Hj. unfold dup_seen. split.
  - intros (a & b & Ha & Hb & Hab & Hs).
    destruct (decide (a = i /\ b = j)) as [[-> ->]|]; [by right|].
    left. exists a, b. split_and!; try done; lia.
  - intros [(a & b & Ha & Hb & Hab & Hs)|Hs].
    + exists a, b. split_and!; try done; lia.
    + exists i, j. split_and!; try done; lia.
Qed.

Lemma dup_seen_next v size i :
  dup_seen v size i size <-> dup_seen v size (i + 1) (i + 1 + 1).
Proof.
  unfold dup_seen. split; intros (a & b & Ha & Hb & Hab & Hs);
    exists a, b; split_and!; try done; lia.
Qed.

Lemma dup_seen_none v size : ~ dup_seen v size 0 (0 + 1).
Proof. intros (a & b & Ha & Hb & Hab & Hs). lia. Qed.

Lemma dup_seen_all v size i :
  size - 1 <= i -> dup_seen v size i (i + 1) <-> has_dup v size.
Proof.
  intros Hi. unfold dup_seen, has_dup. split.
  - intros (a & b & Ha & Hb & Hab & Hs). by exists a, b.
  - intros (a & b & Ha & Hb & Hs). exists a, b. split_and!; try done; lia.
Qed.

Lemma has_dup_not_NoDup v size : has_dup v size -> ~ NoDup (take (Z.to_nat size) v).
Proof.
  intros (a & b & Ha & Hb & x & Hxa & Hxb) Hnd.
  assert (Z.to_nat a = Z.to_nat b); [|lia].
  eapply (NoDup_lookup _ _ _ x Hnd); rewrite lookup_take_lt; (done || lia).
Qed.

Lemma not_has_dup_NoDup v size : ~ has_dup v size -> NoDup (take (Z.to_nat size) v).
Proof.
  intros Hno. apply NoDup_alt. intros a b x Ha Hb.
  apply lookup_take_Some in Ha as [Ha Han], Hb as [Hb Hbn].
  destruct (Nat.lt_total a b) as [Hlt|[->|Hlt]]; [exfalso| done |exfalso]; apply Hno.
  - exists (Z.of_nat a), (Z.of_nat b). split_and!; try lia.
    exists x. by rewrite !Nat2Z.id.
  - exists (Z.of_nat b), (Z.of_nat a). split_and!; try lia.
    exists x. by rewrite !Nat2Z.id.
Qed.

(** The flag of the loops decides the specification. *)
Lemma dup_flag_NoDup v size (dup : bool) :
  (dup = true <-> has_dup v size) ->
  dup = negb (bool_decide (NoDup (take (Z.to_nat size) v))).
Proof.
  intros Hd. destruct dup.
  - rewrite bool_decide_eq_false_2; [done|]. by apply has_dup_not_NoDup, Hd.
  - rewrite bool_decide_eq_true_2; [done|].
    apply not_has_dup_NoDup. intros Hh. by apply Hd in Hh.
Qed.

Lemma comparisons_total size t :
  2 * t = Z.max 0 (size - 1) * (2 * size - Z.max 0 (size - 1) - 1) -> t = comparisons size.
Proof.
  unfold comparisons. intros Ht. destruct (Z.leb_spec size 0) as [Hle|Hgt].
  - rewrite Z.max_l in Ht by lia. lia.
  - rewrite Z.max_r in Ht by lia. apply Z.div_unique_exact; lia.
Qed.

(** ** The inner loop *)

Lemma dup_flag_step v size i j (dup : bool) x y :
  0 <= i < j -> j < size ->
  v !! Z.to_nat i = Some x -> v !! Z.to_nat j = Some y ->
  (dup = true <-> dup_seen v size i j) ->
  (if x =? y then true else dup) = true <-> dup_seen v size i (j + 1).
Proof.
  intros Hi Hj Hx Hy Hd.
  rewrite dup_seen_step, (same_at_lookup v i j x y), <- Hd by done.
  destruct (Z.eqb_spec x y); naive_solver.
Qed.

(** Row [i]: the loop compares [v[i]] with every later element, counting
    each comparison. *)
Lemma inner_loop_run v size i (dup : bool) o w :
  in_int size -> 0 <= i -> i + 1 <= size <= Z.of_nat (length v) ->
  current o (profiler w) = true ->
  (dup = true <-> dup_seen v size i (i + 1)) ->
  exists dup' : bool,
    while (Z.to_nat (size - iadd i 1)) (fun '(j, _, _) => j <? size)
      (hasDuplicates_inner_body v i) (iadd i 1, dup, o) w =
    Ok ((size, dup', advance o (size - i - 1)), counted o (size - i - 1) w) /\
    (dup' = true <-> dup_seen v size i size).
Proof.
  intros Hn Hi Hsz Hc Hd.
  assert (Hs : iadd i 1 = i + 1) by (apply iadd_small; int_lia). rewrite Hs.
  destruct (lookup_lt_is_Some_2 v (Z.to_nat i)) as [vi Hvi]; [lia|].
  destruct (while_total (fun '(j, _, _) => j <? size) (hasDuplicates_inner_body v i)
    (fun '(j, d, o') w' => i + 1 <= j <= size /\ (d = true <-> dup_seen v size i j) /\
       o' = advance o (j - i - 1) /\ w' = counted o (j - i - 1) w)
    (fun '(j, _, _) => Z.to_nat (size - j))) with
    (fuel := Z.to_nat (size - (i + 1))) (s := (i + 1, dup, o)) (w := w)
    as ([[j d] o'] & w' & Hrun & (Hj & Hd' & -> & ->) & Hexit).
  - intros [[j d] o'] w' (Hj & Hd' & -> & ->) Hcond. bool_to_prop.
    destruct (lookup_lt_is_Some_2 v (Z.to_nat j)) as [vj Hvj]; [lia|].
    assert (Hs' : iadd j 1 = j + 1) by (apply iadd_small; int_lia).
    eexists (_, _, _), _. split; [|split].
    + unfold hasDuplicates_inner_body. do 3 step. reflexivity.
    + rewrite Hs'. split_and!; [lia | lia | apply dup_flag_step; (done || lia) | |].
      * unfold advance. simpl. f_equal. lia.
      * cbn [advance op_series op_size op_total]. rewrite counted_succ by lia. f_equal. lia.
    + rewrite Hs'. lia.
  - replace (i + 1 - i - 1) with 0 by lia. rewrite advance_0.
    split_and!; (done || lia).
  - lia.
  - bool_to_prop. replace j with size in * by lia. by exists d.
Qed.

(** ** hasDuplicates: result and count *)

(** The run of [hasDuplicates] as an equation, for the proofs of its callers. *)
Lemma run_hasDuplicates v size w :
  in_int size -> INT_MIN < size -> size <= Z.max 1 (Z.of_nat (length v)) ->
  hasDuplicates v size w =
  Ok (negb (bool_decide (NoDup (take (Z.to_nat size) v))),
      recorded "duplicates-comparation" size (comparisons size) w).
Proof.
  intros Hn Hmin Hlen. unfold hasDuplicates. step.
  assert (Hs : isub size 1 = size - 1) by (apply isub_small; int_lia). rewrite Hs.
  set (s := "duplicates-comparation").
  apply (while_rule _ _
    (fun '(i, d, o) w' =>
       0 <= i <= Z.max 0 (size - 1) /\ (d = true <-> dup_seen v size i (i + 1)) /\
       exists t, 2 * t = i * (2 * size - i - 1) /\
         o = mkOperation s size t (generation (profiler w)) /\ w' = recorded s size t w)
    (fun '(i, _, _) => Z.to_nat (size - 1 - i))).
  - intros [[i d] o] w' (Hi & Hd & t & Ht & -> & ->) Hc. bool_to_prop.
    destruct (inner_loop_run v size i d (mkOperation s size t (generation (profiler w)))
                (recorded s size t w)) as (d' & Hrun & Hd');
      [done | lia | lia | solve_current | done |].
    assert (Hs' : iadd i 1 = i + 1) by (apply iadd_small; int_lia).
    eexists (_, _, _), _. split; [|split].
    + unfold hasDuplicates_outer_body. erewrite bind_ok by apply Hrun. reflexivity.
    + rewrite Hs'. split_and!; [lia | lia | by rewrite <- dup_seen_next |].
      exists (t + (size - i - 1)). split_and!; [lia | done |].
      by rewrite (counted_recorded (mkOperation s size t _)) by lia.
    + rewrite Hs'. lia.
  - split_and!; [lia | lia | | by exists 0].
    split; [done | intros Hd; by apply dup_seen_none in Hd].
  - lia.
  - intros [[i d] o] w' (Hi & Hd & t & Ht & -> & ->) Hc. bool_to_prop.
    step. autorewrite with loop_rw. unfold ret. repeat f_equal.
    + apply dup_flag_NoDup. rewrite Hd. apply dup_seen_all. lia.
    + apply comparisons_total. by replace (Z.max 0 (size - 1)) with i by lia.
Qed.

(** C4: On an array that holds the first [size] elements, [hasDuplicates v size]
    returns whether two of them are equal and leaves size * (size - 1) / 2,
    the number of comparisons, at ("duplicates-comparation", size).  It
    reads inside the array only and never runs out of fuel. *)
Theorem hasDuplicates_run v size w :
  in_int size -> INT_MIN < size -> size <= Z.max 1 (Z.of_nat (length v)) ->
  hasDuplicates v size w =
  Ok (negb (bool_decide (NoDup (take (Z.to_nat size) v))),
      recorded "duplicates-comparation" size (comparisons size) w).
Proof. apply run_hasDuplicates. Qed.

(** ** hasDuplicates on a short array *)

(** Row 0 on an array shorter than [size]: the loop reaches the end of the
    array and the read there fails. *)
Lemma inner_loop_out_of_bounds v size (dup : bool) o w :
  in_int size -> 2 <= size -> Z.of_nat (length v) < size ->
  current o (profiler w) = true ->
  while (Z.to_nat (size - iadd 0 1)) (fun '(j, _, _) => j <? size)
    (hasDuplicates_inner_body v 0) (iadd 0 1, dup, o) w =
  Err (OutOfBounds (Z.of_nat (length v))).
Proof.
  intros Hn Hsz Hlen Hc. change (iadd 0 1) with 1.
  apply (while_fails _ _
    (fun '(j, _, o') w' =>
       1 <= j <= Z.max 1 (Z.of_nat (length v)) /\ current o' (profiler w') = true)
    (fun '(j, _, _) => Z.to_nat (Z.of_nat (length v) - j))); [| split; [lia | done] | lia].
  intros [[j d] o'] w' [Hj Hc']. split; [apply Z.ltb_lt; lia|].
  unfold hasDuplicates_inner_body. step.
  destruct (v !! Z.to_nat 0) as [vi|] eqn:Hvi.
  - apply lookup_lt_Some in Hvi as Hlt. step.
    destruct (v !! Z.to_nat j) as [vj|] eqn:Hvj.
    + apply lookup_lt_Some in Hvj as Hlt'. step. right.
      assert (Hs : iadd j 1 = j + 1) by (apply iadd_small; int_lia).
      eexists (_, _, _), _. split; [reflexivity|]. rewrite Hs.
      split; [split; [lia | solve_current] | lia].
    + apply lookup_ge_None in Hvj. left.
      replace (Z.of_nat (length v)) with j by lia.
      apply bind_err, run_read_out. lia.
  - apply lookup_ge_None in Hvi. left.
    replace (Z.of_nat (length v)) with 0 by lia.
    apply bind_err, run_read_out. lia.
Qed.

(** C13: On an array of fewer than [size] elements, [hasDuplicates v size] with
    [size >= 2] ends in the error of the first read past the end, the one
    at index [length v]. *)
Theorem hasDuplicates_out_of_bounds v size w :
  in_int size -> 2 <= size -> Z.of_nat (length v) < size ->
  hasDuplicates v size w = Err (OutOfBounds (Z.of_nat (length v))).
Proof.
  intros Hn Hsz Hlen. unfold hasDuplicates. step.
  assert (Hs : isub size 1 = size - 1) by (apply isub_small; int_lia). rewrite Hs.
  apply bind_err.
  destruct (Z.to_nat (size - 1)) as [|fuel] eqn:Hf; [lia|].
  cbn [while]. rewrite (proj2 (Z.ltb_lt 0 (size - 1))) by lia.
  apply bind_err. unfold hasDuplicates_outer_body. apply bind_err.
  apply inner_loop_out_of_bounds; [done | done | done | solve_current].
Qed.

(** ** hasDuplicates on INT_MIN *)

(** A round of the outer loop with [size] = [INT_MIN]: no column is below
    [size], so nothing is compared and nothing is read. *)
Lemma outer_body_INT_MIN v i (dup : bool) o w :
  0 <= i < INT_MAX ->
  hasDuplicates_outer_body v INT_MIN (i, dup, o) w = Ok ((i + 1, dup, o), w).
Proof.
  intros Hi. unfold hasDuplicates_outer_body.
  assert (Hs : iadd i 1 = i + 1) by (apply iadd_small; int_lia). rewrite Hs.
  rewrite while_exit by (apply Z.ltb_ge; int_lia). reflexivity.
Qed.

(** C28: the one [int] size the run equation leaves
    out.  With [size] = [INT_MIN] the bound [size - 1] of the outer loop
    wraps around to [INT_MAX]: [hasDuplicates] compares nothing, reads
    nothing of the array and returns false with 0 comparisons recorded,
    but only after [INT_MAX] empty rounds of the outer loop; with fuel for
    fewer rounds the loop ends in [OutOfFuel]. *)
Theorem hasDuplicates_INT_MIN v w :
  hasDuplicates v INT_MIN w =
    Ok (false, recorded "duplicates-comparation" INT_MIN 0 w) /\
  forall fuel, Z.of_nat fuel < INT_MAX ->
    while fuel (fun '(i, _, _) => i <? isub INT_MIN 1)
      (hasDuplicates_outer_body v INT_MIN)
      (0, false, mkOperation "duplicates-comparation" INT_MIN 0 (generation (profiler w)))
      (recorded "duplicates-comparation" INT_MIN 0 w) = Err OutOfFuel.
Proof.
  change (isub INT_MIN 1) with INT_MAX. split.
  - unfold hasDuplicates. step. change (isub INT_MIN 1) with INT_MAX.
    set (o := mkOperation _ _ _ _).
    apply (while_rule _ _
      (fun '(i, d, o') w' => 0 <= i <= INT_MAX /\ d = false /\ o' = o /\
         w' = recorded "duplicates-comparation" INT_MIN 0 w)
      (fun '(i, _, _) => Z.to_nat (INT_MAX - i))); [| by split_and! | lia |].
    + intros [[i d] o'] w' (Hi & -> & -> & ->) Hc. bool_to_prop.
      eexists (_, _, _), _. split; [apply outer_body_INT_MIN; lia|].
      split; [split_and!; try done; lia | lia].
    + intros [[i d] o'] w' (Hi & -> & -> & ->) Hc. step.
      autorewrite with loop_rw. reflexivity.
  - intros fuel Hf.
    apply (while_short _ _ (fun '(i, _, _) _ => 0 <= i <= INT_MAX)
             (fun '(i, _, _) => Z.to_nat (INT_MAX - i))); [| int_lia | int_lia].
    intros [[i d] o'] w' Hi Hr. split; [apply Z.ltb_lt; lia|].
    eexists (_, _, _), _. split; [apply outer_body_INT_MIN; lia|]. split; lia.
Qed.

(** ** The session machine *)

Lemma hasDuplicates_sound v size : preserves sound (hasDuplicates v size).
Proof.
  unfold hasDuplicates, hasDuplicates_outer_body, hasDuplicates_inner_body. preserve.
Qed.

End Duplicates.

#[export] Hint Resolve hasDuplicates_sound : preserve_db.

(** ** Witnesses on concrete inputs *)

Lemma hasDuplicates_run_witness :
  hasDuplicates [1; 2; 3; 2] 4 example_world =
  Ok (true, recorded "duplicates-comparation" 4 6 example_world).
Proof. apply (hasDuplicates_run [1; 2; 3; 2] 4 example_world); simpl; int_lia. Defined.

Lemma hasDuplicates_out_of_bounds_witness :
  hasDuplicates [1; 2; 3] 5 example_world = Err (OutOfBounds 3).
Proof.
  apply (hasDuplicates_out_of_bounds [1; 2; 3] 5 example_world); simpl; int_lia.
Defined.

Lemma hasDuplicates_INT_MIN_witness :
  hasDuplicates [1; 2; 3] INT_MIN example_world =
    Ok (false, recorded "duplicates-comparation" INT_MIN 0 example_world) /\
  forall fuel, Z.of_nat fuel < INT_MAX ->
    while fuel (fun '(i, _, _) => i <? isub INT_MIN 1)
      (hasDuplicates_outer_body [1; 2; 3] INT_MIN)
      (0, false,
       mkOperation "duplicates-comparation" INT_MIN 0 (generation (profiler example_world)))
      (recorded "duplicates-comparation" INT_MIN 0 example_world) = Err OutOfFuel.
Proof. exact (hasDuplicates_INT_MIN [1; 2; 3] example_world). Defined.
