(* ===== verification/Experiments.v ===== *)
(** * Experiments: what the experiments of [main] do to the world

    The demo program runs three experiments.  Each is a counting loop, and
    one round of a loop has a fixed effect on the world: it writes one or
    two values in the series store, reads the clock, or both.  This file
    is the specification side of [main]: the constants of the program, the
    sizes each loop visits, the effect of one size, and the worlds the
    program passes through ([powers_world], [duplicates_world],
    [before_timers], [before_report], [main_world]), each as an explicit
    composition of the steps of [World].

    It then reads what can be observed of these worlds: what was printed,
    what the store holds at each key, the names and the listing of the
    series, the timers, the clock readings, and the report.  The worlds
    are large terms, so an observation is read by rewriting with the frame
    lemmas of [World] and the lemmas on [after_each], never by
    computation.

    Nothing here mentions the program; [Main] proves that [main] ends in
    [main_world] and derives its properties from the lemmas of this
    file. *)

From S2P Require Import Prelude Int32 Monad SeriesStore Profiler World Report.
From S2P Require Import Power Duplicates.
From stdpp Require Import base option list gmap strings sorting.
Import Int32.

#[local] Open Scope string_scope.
#[local] Open Scope Z_scope.

(** [#define MAX_SIZE 2000] *)
Definition MAX_SIZE : Z := 2000.

(** The end of a line written by [printf]. *)
Definition newline : string := String (Ascii.ascii_of_nat 10) EmptyString.

(** [const int step = 1000; const int nr_tests = 100;] *)
Definition step : Z := 1000.
Definition nr_tests : Z := 100.

Section Experiments.
Context {T : Type} `{Store T}.

Implicit Types (n x : Z) (w : World T).

(** ** What each experiment does

    The sizes an experiment visits, what one size does to the world, and
    the world [main] ends in. *)

Definition power_sizes : list Z :=
  (Z.of_nat <$> seq 0 10) ++ ((fun k => 10 * Z.of_nat k) <$> seq 1 19).

Definition duplicates_sizes : list Z := (fun k => 100 * Z.of_nat k) <$> seq 1 19.

Definition factorial_sizes : list Z := (fun k => step * Z.of_nat k) <$> seq 1 100.

Definition power_effect n w : World T :=
  fast_pow_world n n (recorded "slow_pow" n n w).

Definition duplicates_effect n w : World T :=
  recorded "duplicates-comparation" n (comparisons n) w.

Definition counts_effect n w : World T :=
  recorded "factorial_rec" n (n - 1) (recorded "factorial_iter" n (n - 1) w).

(** Timing [factorial]: the clock is read twice, and the elapsed time
    replaces the count the calls recorded. *)
Definition time_factorial_effect n w : World T :=
  timer_stopped "factorial_iter" n (clock w (ticks w))
    (recorded "factorial_iter" n (n - 1) (timer_started "factorial_iter" n w)).

(** Timing [factorial_rec]: the handle outlives the timer, so the count of
    all [nr_tests] calls replaces the elapsed time. *)
Definition time_factorial_rec_effect n w : World T :=
  recorded "factorial_rec" n (nr_tests * (n - 1))
    (timer_stopped "factorial_rec" n (clock w (ticks w))
       (recorded "factorial_rec" n (nr_tests * (n - 1))
          (timer_started "factorial_rec" n (recorded "factorial_rec" n 0 w)))).

Definition timers_effect n w : World T :=
  time_factorial_rec_effect n (time_factorial_effect n w).

(** The world after the power experiment. *)
Definition powers_world w : World T :=
  grouped_as "power" ["slow_pow"; "fast_pow"]
    (after_each power_effect power_sizes
       (printed ("Computing powers..." ++ newline) w)).

(** The world after the duplicates experiment. *)
Definition duplicates_world w : World T :=
  after_each duplicates_effect duplicates_sizes
    (filled MAX_SIZE (printed ("Finding duplicates..." ++ newline)
       (in_session "demo-duplicates" w))).

(** The world in which the timer loop of [main] starts. *)
Definition before_timers w : World T :=
  after_each counts_effect factorial_sizes
    (printed ("Computing factorial..." ++ newline)
       (in_session "demo-factorial" (duplicates_world (powers_world w)))).

(** The world in which [main] shows the report. *)
Definition before_report w : World T :=
  grouped_as "factorial" ["factorial_iter"; "factorial_rec"]
    (after_each timers_effect factorial_sizes (before_timers w)).

(** The world [main] ends in. *)
Definition main_world w : World T := reported (before_report w).

(** The series of the factorial experiment, the members of its group. *)
Definition factorial_names : list string := ["factorial_iter"; "factorial_rec"].

(** The points the report shows for "factorial_rec": the multiplications
    of [nr_tests] runs at each size. *)
Definition rec_points : list (Z * Z) :=
  (fun n => (n, nr_tests * (n - 1))) <$> factorial_sizes.

(** The points it shows for "factorial_iter": at the [k]-th size, the time
    between the clock readings 4k and 4k + 1 of [main]. *)
Definition iter_points w : list (Z * Z) :=
  (fun k => (step * Z.of_nat (S k),
             clock w (ticks w + 4 * k + 1)%nat - clock w (ticks w + 4 * k)%nat))
    <$> seq 0 100.

(** The report [showReport] computes at the end of [main]: one group, no
    series outside it. *)
Definition main_report w : Report :=
  mkReport "demo-factorial"
    [("factorial", [("factorial_iter", iter_points w); ("factorial_rec", rec_points)])]
    [].

(** The keys one size of the factorial loops writes. *)
Definition factorial_key (s : string) (m n : Z) : Prop :=
  (s = "factorial_iter" \/ s = "factorial_rec") /\ m = n.

(** ** Reading an observation through the steps *)

Section Observations.
Context {L B : Type} (effect : L -> World T -> World T) (obs : World T -> B).

(** An observation only the effect of [a] changes is, after a list
    without repetitions, what it was right after [a]. *)
Lemma after_each_at (l : list L) (k : nat) (a : L) w :
  NoDup l -> l !! k = Some a ->
  (forall s w', s <> a -> obs (effect s w') = obs w') ->
  obs (after_each effect l w) = obs (effect a (after_each effect (take k l) w)).
Proof.
  intros Hnd Hk Hne. rewrite <- (take_drop_middle l k a Hk) at 1.
  apply after_each_last_write. intros s w' Hin. apply Hne. intros ->.
  rewrite <- (take_drop_middle l k a Hk) in Hnd.
  apply NoDup_app in Hnd as (_ & _ & Hnd). apply NoDup_cons in Hnd as [Hnd _].
  by apply Hnd, list_elem_of_In.
Qed.

Lemma after_each_untouched (l : list L) w :
  (forall s w', obs (effect s w') = obs w') -> obs (after_each effect l w) = obs w.
Proof. intros Hp. apply after_each_preserved. auto. Qed.

End Observations.

(** [peel] reads an observation of the world through the steps of a run:
    the steps that do not touch it are skipped. *)
Ltac frame :=
  intros; unfold power_effect, fast_pow_world, duplicates_effect, counts_effect,
    timers_effect, time_factorial_rec_effect, time_factorial_effect;
  repeat case_decide; reflexivity.

Ltac peel :=
  repeat first
    [ progress autorewrite with frame_rw
    | rewrite after_each_untouched by frame ].

Lemma factorial_sizes_NoDup : NoDup factorial_sizes.
Proof.
  apply NoDup_fmap_2; [|apply NoDup_seq]. intros j k. unfold step. lia.
Qed.

Lemma factorial_sizes_lookup (k : nat) :
  (k < 100)%nat -> factorial_sizes !! k = Some (step * Z.of_nat (S k)).
Proof.
  intros Hk. unfold factorial_sizes. by rewrite list_lookup_fmap, lookup_seq_lt.
Qed.


(** ** What is printed *)

(** The three headings, and never the error message of the power
    experiment. *)
Lemma stdout_main_world w :
  stdout (main_world w) =
  app (stdout w) ["Computing powers..." ++ newline; "Finding duplicates..." ++ newline;
                  "Computing factorial..." ++ newline].
Proof.
  unfold main_world, before_report, before_timers, duplicates_world, powers_world. peel.
  rewrite <- !app_assoc. reflexivity.
Qed.

(** ** The store after the factorial experiment *)

Ltac solve_other_key :=
  unfold factorial_key in *; intros [= ? ?]; subst; intuition congruence.

Lemma valueAt_counts_effect_ne s m n w :
  ~ factorial_key s m n ->
  valueAt s m (profiler (counts_effect n w)) = valueAt s m (profiler w).
Proof.
  intros Hk. unfold counts_effect.
  by rewrite !valueAt_recorded_ne by solve_other_key.
Qed.

(** What the first loop of the factorial experiment leaves at a size it
    visits: the multiplications of one call, for either function. *)
Lemma valueAt_counts s n w :
  s = "factorial_iter" \/ s = "factorial_rec" -> n ∈ factorial_sizes ->
  valueAt s n (profiler (after_each counts_effect factorial_sizes w)) = Some (n - 1).
Proof.
  intros Hs [k Hk]%list_elem_of_lookup.
  rewrite (after_each_at counts_effect (fun w => valueAt s n (profiler w)) _ k n)
    by (done || apply factorial_sizes_NoDup ||
        (intros; apply valueAt_counts_effect_ne; unfold factorial_key; naive_solver)).
  unfold counts_effect. destruct Hs as [-> | ->].
  - by rewrite valueAt_recorded_ne, valueAt_recorded_eq by (intros [=]).
  - apply valueAt_recorded_eq.
Qed.

(** It reads no clock and leaves every other key as it was. *)
Lemma valueAt_counts_other s m w :
  (forall n, n ∈ factorial_sizes -> ~ factorial_key s m n) ->
  valueAt s m (profiler (after_each counts_effect factorial_sizes w)) =
  valueAt s m (profiler w).
Proof.
  intros Hk. apply (after_each_preserved _ (fun w => valueAt s m (profiler w))).
  intros n w' Hn%list_elem_of_In. apply valueAt_counts_effect_ne; auto.
Qed.

Lemma ticks_counts w : ticks (after_each counts_effect factorial_sizes w) = ticks w.
Proof. by peel. Qed.

Lemma valueAt_timers_effect_ne s m n w :
  ~ factorial_key s m n ->
  valueAt s m (profiler (timers_effect n w)) = valueAt s m (profiler w).
Proof.
  intros Hk. unfold timers_effect, time_factorial_rec_effect, time_factorial_effect.
  repeat first [ rewrite valueAt_recorded_ne by solve_other_key
               | rewrite valueAt_timer_stopped_ne by solve_other_key
               | rewrite valueAt_timer_started ].
  reflexivity.
Qed.

(** After one size of the timer loop, "factorial_rec" holds the count of
    all [nr_tests] runs: the handle is finalized after the timer stopped. *)
Lemma valueAt_timers_effect_rec n w :
  valueAt "factorial_rec" n (profiler (timers_effect n w)) = Some (nr_tests * (n - 1)).
Proof. apply valueAt_recorded_eq. Qed.

(** "factorial_iter" holds the time between the two readings of the clock:
    the stop overwrote the count. *)
Lemma valueAt_timers_effect_iter n w :
  valueAt "factorial_iter" n (profiler (timers_effect n w)) =
  Some (clock w (S (ticks w)) - clock w (ticks w)).
Proof.
  unfold timers_effect, time_factorial_rec_effect.
  repeat first [ rewrite valueAt_recorded_ne by (intros [=])
               | rewrite valueAt_timer_stopped_ne by (intros [=])
               | rewrite valueAt_timer_started ].
  apply valueAt_timer_stopped_eq.
Qed.

Lemma ticks_after_timers (l : list Z) w :
  ticks (after_each timers_effect l w) = (ticks w + 4 * length l)%nat.
Proof.
  revert w. induction l as [|n l IH]; intros w; [simpl; lia|].
  change (after_each timers_effect (n :: l) w)
    with (after_each timers_effect l (timers_effect n w)).
  rewrite IH. change (ticks (timers_effect n w)) with (4 + ticks w)%nat.
  simpl length. lia.
Qed.

Lemma ticks_before_timers w : ticks (before_timers w) = ticks w.
Proof. unfold before_timers, duplicates_world, powers_world. by peel. Qed.

Lemma clock_after_timers (l : list Z) w :
  clock (after_each timers_effect l (before_timers w)) = clock w.
Proof. unfold before_timers, duplicates_world, powers_world. by peel. Qed.


(** The clock was read four times per size of the timer loop. *)
Lemma ticks_main_world w : ticks (main_world w) = (ticks w + 400)%nat.
Proof.
  unfold main_world, before_report. autorewrite with frame_rw.
  by rewrite ticks_after_timers, ticks_before_timers.
Qed.

(** *** What the store holds when the report is shown *)

Lemma valueAt_main_world s n w :
  valueAt s n (profiler (main_world w)) = valueAt s n (profiler (before_report w)).
Proof. unfold main_world. apply valueAt_reported. Qed.

Lemma valueAt_before_report_at s n (k : nat) w :
  factorial_sizes !! k = Some n ->
  valueAt s n (profiler (before_report w)) =
  valueAt s n (profiler (timers_effect n
    (after_each timers_effect (take k factorial_sizes) (before_timers w)))).
Proof.
  intros Hk. unfold before_report. rewrite valueAt_grouped_as.
  apply (after_each_at timers_effect (fun w => valueAt s n (profiler w)));
    [apply factorial_sizes_NoDup | done |].
  intros; apply valueAt_timers_effect_ne. unfold factorial_key. intuition congruence.
Qed.

Lemma valueAt_before_report_rec n w :
  n ∈ factorial_sizes ->
  valueAt "factorial_rec" n (profiler (before_report w)) = Some (nr_tests * (n - 1)).
Proof.
  intros [k Hk]%list_elem_of_lookup.
  rewrite (valueAt_before_report_at _ _ k) by done. apply valueAt_timers_effect_rec.
Qed.

Lemma valueAt_before_report_iter (k : nat) w :
  (k < 100)%nat ->
  valueAt "factorial_iter" (step * Z.of_nat (S k)) (profiler (before_report w)) =
  Some (clock w (ticks w + 4 * k + 1)%nat - clock w (ticks w + 4 * k)%nat).
Proof.
  intros Hk. rewrite (valueAt_before_report_at _ _ k) by (by apply factorial_sizes_lookup).
  rewrite valueAt_timers_effect_iter, clock_after_timers, ticks_after_timers.
  rewrite ticks_before_timers, length_take, Nat.min_l
    by (unfold factorial_sizes; rewrite length_fmap, length_seq; lia).
  by rewrite Nat.add_1_r.
Qed.

(** A key no size of the factorial loops writes holds nothing: the store
    was emptied by [reset] before the loops. *)
Lemma valueAt_before_report_none s n w :
  (forall m, m ∈ factorial_sizes -> ~ factorial_key s n m) ->
  valueAt s n (profiler (before_report w)) = None.
Proof.
  intros Hk. unfold before_report, before_timers, duplicates_world, powers_world. rewrite valueAt_grouped_as.
  rewrite !(after_each_preserved _ (fun w => valueAt s n (profiler w)))
    by (intros m w' Hm%list_elem_of_In;
        (apply valueAt_timers_effect_ne || apply valueAt_counts_effect_ne); auto).
  by rewrite valueAt_printed, valueAt_in_session.
Qed.


(** "factorial_rec" holds nothing but the counts of the timer loop. *)
Lemma valueAt_before_report_rec_inv n (v : Z) w :
  valueAt "factorial_rec" n (profiler (before_report w)) = Some v ->
  n ∈ factorial_sizes /\ v = nr_tests * (n - 1).
Proof.
  intros Hv. destruct (decide (n ∈ factorial_sizes)) as [Hn|Hn].
  - rewrite valueAt_before_report_rec in Hv by exact Hn. by injection Hv as <-.
  - rewrite valueAt_before_report_none in Hv; [discriminate|].
    intros m Hm [_ ->]. contradiction.
Qed.

(** ** The report *)

Lemma factorial_sizes_cons :
  factorial_sizes = step :: ((fun k => step * Z.of_nat k) <$> seq 2 99).
Proof. reflexivity. Qed.

Lemma factorial_sizes_sorted : StronglySorted Z.lt factorial_sizes.
Proof. apply fmap_seq_sorted. unfold step. lia. Qed.

Lemma store_names_counts_effect n w :
  store_names w = [] \/ store_names w = factorial_names ->
  store_names (counts_effect n w) = factorial_names.
Proof.
  intros [E|E]; unfold counts_effect; autorewrite with store_rw; by rewrite E.
Qed.

Lemma store_names_timers_effect n w :
  store_names w = factorial_names -> store_names (timers_effect n w) = factorial_names.
Proof.
  intros E. unfold timers_effect, time_factorial_rec_effect, time_factorial_effect.
  autorewrite with store_rw. by rewrite E.
Qed.

(** When the report is shown the store lists the two factorial series, in
    the order of their first write. *)
Lemma store_names_before_report w : store_names (before_report w) = factorial_names.
Proof.
  unfold before_report. rewrite store_names_grouped_as.
  apply (after_each_keeps _ (fun w => store_names w = factorial_names));
    [intros; by apply store_names_timers_effect|].
  unfold before_timers, duplicates_world, powers_world. rewrite factorial_sizes_cons, after_each_cons.
  apply (after_each_keeps _ (fun w => store_names w = factorial_names));
    [intros; apply store_names_counts_effect; by right|].
  apply store_names_counts_effect. left. by autorewrite with store_rw.
Qed.

Lemma store_ok_before_report w : store_ok (before_report w).
Proof.
  unfold before_report, before_timers, duplicates_world, powers_world. apply store_ok_grouped_as.
  apply (after_each_keeps _ store_ok);
    [intros; unfold timers_effect, time_factorial_rec_effect, time_factorial_effect;
     auto 12 with store_db|].
  apply (after_each_keeps _ store_ok);
    [intros; unfold counts_effect; auto with store_db|].
  auto with store_db.
Qed.

Lemma groups_before_report w :
  groups (profiler (before_report w)) = [("factorial", factorial_names)].
Proof.
  unfold before_report. rewrite groups_grouped_as.
  rewrite (after_each_untouched _ (fun w => groups (profiler w))) by frame.
  unfold before_timers, duplicates_world, powers_world.
  rewrite (after_each_untouched _ (fun w => groups (profiler w))) by frame.
  by autorewrite with frame_rw.
Qed.

Lemma sessionName_before_report w :
  sessionName (profiler (before_report w)) = "demo-factorial".
Proof.
  unfold before_report. rewrite sessionName_grouped_as.
  rewrite (after_each_untouched _ (fun w => sessionName (profiler w))) by frame.
  unfold before_timers, duplicates_world, powers_world.
  rewrite (after_each_untouched _ (fun w => sessionName (profiler w))) by frame.
  by autorewrite with frame_rw.
Qed.

Lemma reports_before_report w : reports (before_report w) = reports w.
Proof. unfold before_report, before_timers, duplicates_world, powers_world. by peel. Qed.

Lemma rec_points_sizes : rec_points.*1 = factorial_sizes.
Proof. unfold rec_points. rewrite <- list_fmap_compose. apply list_fmap_id. Qed.

Lemma iter_points_sizes w : (iter_points w).*1 = factorial_sizes.
Proof.
  unfold iter_points, factorial_sizes.
  rewrite <- (fmap_S_seq 0), <- !list_fmap_compose. reflexivity.
Qed.

Lemma points_of_before_report s (pts : list (Z * Z)) w :
  pts.*1 = factorial_sizes ->
  (forall n v, (n, v) ∈ pts -> valueAt s n (profiler (before_report w)) = Some v) ->
  points_of s (store_all (series (profiler (before_report w)))) = pts.
Proof.
  intros Hsizes Hval. pose proof (store_ok_before_report w) as Hok.
  pose proof (fun n => valueAt_before_report_none s n w) as Hnone.
  revert Hval Hnone Hok. generalize (before_report w). intros W Hval Hnone Hok.
  apply points_of_determined; [exact Hok | rewrite Hsizes; apply factorial_sizes_sorted |].
  intros n v. split; [apply Hval|]. intros Hv.
  destruct (decide (n ∈ factorial_sizes)) as [Hn|Hn].
  - rewrite <- Hsizes in Hn. apply list_elem_of_fmap in Hn as ([n' v'] & -> & Hin).
    pose proof (Hval _ _ Hin) as Hv'. cbn [fst] in *.
    unfold valueAt in Hv'. rewrite Hv' in Hv. by injection Hv as <-.
  - unfold valueAt in Hnone. rewrite Hnone in Hv; [done|]. intros m Hm [_ ->]. done.
Qed.

Lemma points_of_factorial_iter w :
  points_of "factorial_iter" (store_all (series (profiler (before_report w)))) =
  iter_points w.
Proof.
  apply points_of_before_report; [apply iter_points_sizes|].
  intros n v (k & [= -> ->] & Hk%elem_of_seq)%list_elem_of_fmap.
  apply valueAt_before_report_iter. lia.
Qed.

Lemma points_of_factorial_rec w :
  points_of "factorial_rec" (store_all (series (profiler (before_report w)))) =
  rec_points.
Proof.
  apply points_of_before_report; [apply rec_points_sizes|].
  intros n v (m & [= -> ->] & Hm)%list_elem_of_fmap.
  by apply valueAt_before_report_rec.
Qed.

(** The report [showReport] computes at the end of [main]. *)
Lemma report_before_report w :
  report (profiler (before_report w)) = main_report w.
Proof.
  assert (Hi := points_of_factorial_iter w). assert (Hr := points_of_factorial_rec w).
  assert (Hn := store_names_before_report w). assert (Hg := groups_before_report w).
  assert (Hs := sessionName_before_report w). unfold store_names in Hn.
  revert Hi Hr Hn Hg Hs. generalize (profiler (before_report w)). intros p Hi Hr Hn Hg Hs.
  assert (Hu : rep_ungrouped (report p) = []).
  { apply rep_ungrouped_report. rewrite Hn, Hg. set_solver. }
  assert (Hgr := rep_groups_report_points p). assert (Hse := rep_session_report p).
  rewrite Hg in Hgr. cbn [fmap list_fmap fst snd factorial_names] in Hgr. rewrite Hi, Hr in Hgr.
  destruct (report p) as [a b c]. cbn [rep_session rep_groups rep_ungrouped] in *.
  unfold main_report. by rewrite Hu, Hgr, Hse, Hs.
Qed.


Lemma reports_main_world w : reports (main_world w) = app (reports w) [main_report w].
Proof.
  unfold main_world. by rewrite reports_reported, reports_before_report, report_before_report.
Qed.

Lemma phase_main_world w : phase (profiler (main_world w)) = Reported.
Proof. reflexivity. Qed.

(** ** What the first two experiments record

    The measurements of the sessions "demo-power" and "demo-duplicates",
    which [reset] drops before any report is shown. *)

Lemma duplicates_sizes_NoDup : NoDup duplicates_sizes.
Proof. apply NoDup_fmap_2; [|apply NoDup_seq]. intros j k. lia. Qed.

Lemma power_sizes_NoDup : NoDup power_sizes.
Proof.
  apply NoDup_app. split_and!.
  - apply NoDup_fmap_2; [apply _ | apply NoDup_seq].
  - intros x (i & -> & Hi%elem_of_seq)%list_elem_of_fmap
             (k & Hx & Hk%elem_of_seq)%list_elem_of_fmap. lia.
  - apply NoDup_fmap_2; [|apply NoDup_seq]. intros j k. lia.
Qed.

Lemma valueAt_power_effect_ne s m n w :
  m <> n -> valueAt s m (profiler (power_effect n w)) = valueAt s m (profiler w).
Proof.
  intros Hne. unfold power_effect, fast_pow_world.
  case_decide; by rewrite !valueAt_recorded_ne by (intros [=]; done).
Qed.

Lemma valueAt_power_effect_slow n w :
  valueAt "slow_pow" n (profiler (power_effect n w)) = Some n.
Proof.
  unfold power_effect, fast_pow_world.
  case_decide; rewrite ?valueAt_recorded_ne by (intros [=]); apply valueAt_recorded_eq.
Qed.

Lemma valueAt_power_effect_fast n w :
  valueAt "fast_pow" n (profiler (power_effect n w)) =
  if decide (n = 0 \/ n = 1) then valueAt "fast_pow" n (profiler w)
  else Some (if Z.even n then 1 else 2).
Proof.
  unfold power_effect, fast_pow_world.
  case_decide; [by rewrite valueAt_recorded_ne by (intros [=])|].
  apply valueAt_recorded_eq.
Qed.


Lemma valueAt_powers_world_slow n w :
  n ∈ power_sizes -> valueAt "slow_pow" n (profiler (powers_world w)) = Some n.
Proof.
  intros [k Hk]%list_elem_of_lookup. unfold powers_world. rewrite valueAt_grouped_as.
  rewrite (after_each_at power_effect (fun w => valueAt _ n (profiler w)) _ k n)
    by (done || apply power_sizes_NoDup || (intros; by apply valueAt_power_effect_ne)).
  apply valueAt_power_effect_slow.
Qed.

Lemma valueAt_powers_world_fast n w :
  n ∈ power_sizes ->
  valueAt "fast_pow" n (profiler (powers_world w)) =
  if decide (n = 0 \/ n = 1) then valueAt "fast_pow" n (profiler w)
  else Some (if Z.even n then 1 else 2).
Proof.
  intros [k Hk]%list_elem_of_lookup. unfold powers_world. rewrite valueAt_grouped_as.
  case_decide as Hn.
  - rewrite (after_each_untouched _ (fun w => valueAt "fast_pow" n (profiler w)));
      [apply valueAt_printed|].
    intros m w'. destruct (decide (n = m)) as [<-|]; [|by apply valueAt_power_effect_ne].
    by rewrite valueAt_power_effect_fast, decide_True.
  - rewrite (after_each_at power_effect (fun w => valueAt _ n (profiler w)) _ k n)
      by (done || apply power_sizes_NoDup || (intros; by apply valueAt_power_effect_ne)).
    by rewrite valueAt_power_effect_fast, decide_False.
Qed.

Lemma valueAt_duplicates_world n w :
  n ∈ duplicates_sizes ->
  valueAt "duplicates-comparation" n (profiler (duplicates_world w)) =
  Some (n * (n - 1) / 2).
Proof.
  intros Hn. pose proof Hn as [k Hk]%list_elem_of_lookup. unfold duplicates_world.
  rewrite (after_each_at duplicates_effect (fun w => valueAt _ n (profiler w)) _ k n)
    by (done || apply duplicates_sizes_NoDup ||
        (intros; apply valueAt_recorded_ne; intros [=]; done)).
  unfold duplicates_effect. rewrite valueAt_recorded_eq. unfold comparisons.
  apply list_elem_of_fmap in Hn as (i & -> & Hi%elem_of_seq). by case_cmp; [lia|].
Qed.

Lemma drawn_duplicates_world w :
  drawn (duplicates_world w) = (drawn w + Z.to_nat MAX_SIZE)%nat.
Proof. unfold duplicates_world. by rewrite (after_each_untouched _ drawn) by done. Qed.

(** ** The listing of the store when the report is shown *)

Lemma two_series (all : list (string * list (Z * Z))) (s1 s2 : string) :
  s1 <> s2 -> all.*1 = [s1; s2] ->
  all = [(s1, points_of s1 all); (s2, points_of s2 all)].
Proof.
  intros Hne. destruct all as [|[a p1] [|[b p2] [|? ?]]]; intros [= -> ->]; simpl.
  by rewrite (decide_True (P := s1 = s1)), (decide_False (P := s2 = s1)),
    (decide_True (P := s2 = s2)) by congruence.
Qed.

Lemma store_all_main_world w :
  store_all (series (profiler (main_world w))) =
  [("factorial_iter", iter_points w); ("factorial_rec", rec_points)].
Proof.
  unfold main_world. rewrite series_reported.
  assert (Hi := points_of_factorial_iter w). assert (Hr := points_of_factorial_rec w).
  assert (Hn := store_names_before_report w). unfold store_names in Hn.
  revert Hi Hr Hn. generalize (store_all (series (profiler (before_report w)))).
  intros all Hi Hr Hn. apply two_series in Hn; [|done].
  rewrite <- Hi, <- Hr. exact Hn.
Qed.

Lemma store_ok_main_world w : store_ok (main_world w).
Proof.
  unfold store_ok, main_world. rewrite series_reported. apply store_ok_before_report.
Qed.


(** ** The timers *)

Lemma timers_timers_effect n w :
  timers (profiler w) = ∅ -> timers (profiler (timers_effect n w)) = ∅.
Proof.
  intros E. unfold timers_effect, time_factorial_rec_effect, time_factorial_effect.
  repeat (rewrite timers_recorded || rewrite timers_timer_stopped || rewrite timers_started).
  rewrite E. by rewrite !delete_insert_eq, !delete_empty.
Qed.


Lemma timers_main_world w : timers (profiler (main_world w)) = ∅.
Proof.
  unfold main_world, before_report. rewrite timers_reported, timers_grouped_as.
  apply (after_each_keeps _ (fun w => timers (profiler w) = ∅));
    [intros; by apply timers_timers_effect|].
  unfold before_timers.
  apply (after_each_keeps _ (fun w => timers (profiler w) = ∅));
    [intros a w' E; unfold counts_effect; by rewrite !timers_recorded|].
  rewrite timers_printed. apply timers_in_session.
Qed.

End Experiments.

(** ** Independence of the store

    The report depends on the clock alone: not on the store the worlds
    are built on, nor on anything else in them. *)
Lemma main_report_clock {T1 T2 : Type} `{Store T1} `{Store T2}
    (w1 : World T1) (w2 : World T2) :
  clock w1 = clock w2 -> ticks w1 = ticks w2 -> main_report w1 = main_report w2.
Proof. intros Hc Ht. unfold main_report, iter_points. rewrite Hc, Ht. reflexivity. Qed.

(** The listing of the list store is the store. *)
Lemma list_store_all (st : SeriesStore.t) : store_all st = st.
Proof. reflexivity. Qed.
