(* ===== verification/Main.v ===== *)
(** * Main: the demo program of src/example1.cpp

    [main] (lines 114 to 170) runs three experiments on the global
    profiler, one session each: powers of 5 by [slow_pow] and [fast_pow],
    [hasDuplicates] on prefixes of a random array, and the two factorial
    functions, first counted and then timed over [nr_tests] repetitions.
    It ends with [showReport].

    The model is [main], composed of one program per experiment.  Each
    experiment is a counting loop; [Monad.while_for] turns it into the
    list of sizes it visits and the effect of one size on the world, so
    the world [main] ends in is an explicit composition, [main_world] of
    [Experiments].

    Fuel: the loop over the exponents runs with its variant at entry, 200;
    the loops with a stride run with their number of iterations.

    What is proved: [main] ends without an error and returns 0 from every
    world; it never prints the error message of the power experiment; what
    the power and duplicates experiments record, and that [reset] drops
    it; the report it shows ([main_report]), in full: the factorial
    session only, with the elapsed time in "factorial_iter" and the number
    of multiplications of [nr_tests] runs in "factorial_rec".

    The file has the program, the run of each experiment as an equation
    ([_run] lemmas), and the theorems on [main]: each says that [main]
    ends and what holds of the world it ends in, which [Experiments]
    reads off [main_world]. *)

From S2P Require Import Prelude Int32 Monad SeriesStore Profiler World Report.
From S2P Require Import MapStore Power Factorial Duplicates Experiments.
From stdpp Require Import base option list gmap strings sorting.
Import Int32.

#[local] Open Scope string_scope.
#[local] Open Scope Z_scope.
#[local] Open Scope prog_scope.

Section Main.
Context {T : Type} `{Store T}.

Implicit Types (n x : Z) (w : World T).

(** ** The power experiment (lines 117 to 130) *)

Definition main_powers_body x n : M (World T) Z :=
  p1 <- slow_pow x n ;;
  p2 <- fast_pow x n n ;;
  (if negb (p1 =? p2) then printf ("[ERROR] invalid result" ++ newline) else ret tt) ;;
  ret (iadd n (if n <? 10 then 1 else 10)).

Definition main_powers : M (World T) unit :=
  printf ("Computing powers..." ++ newline) ;;
  let x := 5 in
  while 200 (fun n => n <? 200) (main_powers_body x) 0 ;;
  createGroupM "power" ["slow_pow"; "fast_pow"].

(** ** The duplicates experiment (lines 133 to 139) *)

Definition main_duplicates : M (World T) unit :=
  resetM "demo-duplicates" ;;
  printf ("Finding duplicates..." ++ newline) ;;
  v <- FillRandomArray MAX_SIZE ;;
  while (Z.to_nat (MAX_SIZE / 100)) (fun n => n <? MAX_SIZE)
    (fun n => hasDuplicates v n ;; ret (iadd n 100)) 100 ;;
  ret tt.

(** ** The factorial experiment: counts (lines 146 to 151) *)

Definition main_factorial_counts_body n : M (World T) Z :=
  factorial n ;;
  op <- createOperationM "factorial_rec" n ;;
  r <- factorial_rec n op ;;
  destroyM r.2 ;;
  ret (iadd n step).

Definition main_factorial_counts : M (World T) unit :=
  while 100 (fun n => n <=? imul 100 step) main_factorial_counts_body step ;;
  ret tt.

(** ** The factorial experiment: timers (lines 152 to 165) *)

Definition main_time_factorial n : M (World T) unit :=
  startTimerM "factorial_iter" n ;;
  while (Z.to_nat nr_tests) (fun test => test <? nr_tests)
    (fun test => factorial n ;; ret (iadd test 1)) 0 ;;
  stopTimerM "factorial_iter" n.

Definition main_time_factorial_rec n : M (World T) unit :=
  op <- createOperationM "factorial_rec" n ;;
  startTimerM "factorial_rec" n ;;
  st <- while (Z.to_nat nr_tests) (fun '(test, _) => test <? nr_tests)
          (fun '(test, op) => r <- factorial_rec n op ;; ret (iadd test 1, r.2))
          (0, op) ;;
  stopTimerM "factorial_rec" n ;;
  destroyM st.2.

Definition main_factorial_timers : M (World T) unit :=
  while 100 (fun n => n <=? imul 100 step)
    (fun n => main_time_factorial n ;; main_time_factorial_rec n ;; ret (iadd n step))
    step ;;
  ret tt.

(** ** main *)

Definition main : M (World T) Z :=
  main_powers ;;
  main_duplicates ;;
  resetM "demo-factorial" ;;
  printf ("Computing factorial..." ++ newline) ;;
  main_factorial_counts ;;
  main_factorial_timers ;;
  createGroupM "factorial" ["factorial_iter"; "factorial_rec"] ;;
  showReportM ;;
  ret 0.


(** ** The sizes visited *)

Lemma power_visits :
  visits 200 (fun n => n <? 200) (fun n => iadd n (if n <? 10 then 1 else 10)) 0 =
  power_sizes.
Proof. vm_compute. reflexivity. Qed.

Lemma duplicates_visits :
  visits (Z.to_nat (MAX_SIZE / 100)) (fun n => n <? MAX_SIZE) (fun n => iadd n 100) 100 =
  duplicates_sizes.
Proof. vm_compute. reflexivity. Qed.

Lemma factorial_visits :
  visits 100 (fun n => n <=? imul 100 step) (fun n => iadd n step) step = factorial_sizes.
Proof. vm_compute. reflexivity. Qed.

(** ** The power experiment *)

(** One round of the loop: the two functions agree, so nothing is printed. *)
Lemma main_powers_body_run n w :
  0 <= n < 200 ->
  main_powers_body 5 n w = Ok (iadd n (if n <? 10 then 1 else 10), power_effect n w).
Proof.
  intros Hn. unfold main_powers_body, power_effect.
  erewrite bind_ok by (apply run_slow_pow; int_lia).
  erewrite bind_ok by (apply run_fast_pow; int_lia).
  rewrite Z.max_r, Z.abs_eq, Z.eqb_refl by lia. reflexivity.
Qed.

Lemma main_powers_run w : main_powers w = Ok (tt, powers_world w).
Proof.
  unfold main_powers, powers_world. step.
  erewrite bind_ok; [reflexivity|].
  rewrite <- power_visits.
  apply (while_for _ _ _ power_effect (fun n => 0 <= n) (fun n => Z.to_nat (200 - n)));
    [| | lia | lia].
  - intros n w' Hn Hc. bool_to_prop. apply main_powers_body_run. lia.
  - intros n Hn Hc. bool_to_prop.
    rewrite iadd_small by (case_cmp; int_lia). case_cmp; lia.
Qed.

(** ** The duplicates experiment *)

Lemma main_duplicates_run w : main_duplicates w = Ok (tt, duplicates_world w).
Proof.
  unfold main_duplicates, duplicates_world. do 3 step.
  erewrite bind_ok; [reflexivity|].
  rewrite <- duplicates_visits.
  apply (while_for _ _ _ duplicates_effect (fun n => 0 <= n)
           (stride_variant MAX_SIZE 100)); [| | lia | vm_compute; lia].
  - intros n w' Hn Hc. bool_to_prop. unfold MAX_SIZE in *.
    erewrite bind_ok; [reflexivity|].
    apply run_hasDuplicates; [int_lia | int_lia |].
    rewrite length_fmap, length_seq. lia.
  - intros n Hn Hc. bool_to_prop. unfold MAX_SIZE in *.
    rewrite iadd_small by int_lia. split; [lia | by apply stride_variant_step].
Qed.

(** ** The factorial experiment: counts *)

Lemma main_factorial_counts_body_run n w :
  2 <= n < INT_MAX ->
  main_factorial_counts_body n w = Ok (iadd n step, counts_effect n w).
Proof.
  intros Hn. unfold main_factorial_counts_body, counts_effect.
  erewrite bind_ok by (apply run_factorial; int_lia). step.
  erewrite bind_ok by (apply run_factorial_rec; [int_lia | solve_current]).
  cbn [snd]. rewrite Z.max_r by lia.
  unfold counted, advance. rewrite decide_True by lia.
  cbn [op_series op_size op_total]. step.
  autorewrite with loop_rw. reflexivity.
Qed.

Lemma main_factorial_counts_run w :
  main_factorial_counts w = Ok (tt, after_each counts_effect factorial_sizes w).
Proof.
  unfold main_factorial_counts.
  erewrite bind_ok; [reflexivity|].
  rewrite <- factorial_visits.
  change (imul 100 step) with 100000. unfold step.
  apply (while_for _ _ _ counts_effect (fun n => 2 <= n)
           (stride_variant 100001 1000)); [| | lia | vm_compute; lia].
  - intros n w' Hn Hc. bool_to_prop.
    apply main_factorial_counts_body_run. int_lia.
  - intros n Hn Hc. bool_to_prop.
    rewrite iadd_small by int_lia. split; [lia | apply stride_variant_step; lia].
Qed.

(** ** The factorial experiment: timers *)

Lemma main_time_factorial_run n w :
  2 <= n < INT_MAX ->
  main_time_factorial n w = Ok (tt, time_factorial_effect n w).
Proof.
  intros Hn. unfold main_time_factorial, time_factorial_effect. step.
  set (w1 := timer_started "factorial_iter" n w).
  apply (while_rule _ _
    (fun test w' => 0 <= test <= nr_tests /\
       w' = if decide (0 < test) then recorded "factorial_iter" n (n - 1) w1 else w1)
    (fun test => Z.to_nat (nr_tests - test))); unfold nr_tests.
  - intros test w' [Ht ->] Hc. bool_to_prop.
    eexists _, _. split; [|split].
    + erewrite bind_ok by (apply run_factorial; int_lia). reflexivity.
    + rewrite iadd_small, Z.max_r, (decide_True (P := 0 < test + 1)) by int_lia.
      split; [lia|]. case_decide; by autorewrite with loop_rw.
    + rewrite iadd_small by int_lia. lia.
  - by split.
  - lia.
  - intros test w' [Ht ->] Hc. bool_to_prop. rewrite decide_True by lia.
    apply run_stopTimerM. rewrite timers_recorded. apply timers_timer_started.
Qed.

Lemma main_time_factorial_rec_run n w :
  2 <= n <= INT_MAX ->
  main_time_factorial_rec n w = Ok (tt, time_factorial_rec_effect n w).
Proof.
  intros Hn. unfold main_time_factorial_rec, time_factorial_rec_effect. do 2 step.
  set (op := mkOperation "factorial_rec" n 0 (generation (profiler w))).
  set (w1 := timer_started "factorial_rec" n (recorded "factorial_rec" n 0 w)).
  apply (while_rule _ _
    (fun '(test, op') w' => 0 <= test <= nr_tests /\
       op' = advance op (test * (n - 1)) /\ w' = counted op (test * (n - 1)) w1)
    (fun '(test, _) => Z.to_nat (nr_tests - test))); unfold nr_tests.
  - intros [test op'] w' (Ht & -> & ->) Hc. bool_to_prop.
    eexists (_, _), _. split; [|split].
    + erewrite bind_ok by (apply run_factorial_rec; [int_lia | solve_current]).
      reflexivity.
    + cbn [snd]. rewrite iadd_small, Z.max_r, advance_advance, counted_counted by (int_lia || nia).
      split_and!; (lia || (f_equal; lia)).
    + rewrite iadd_small by int_lia. lia.
  - rewrite advance_0. by split_and!.
  - lia.
  - intros [test op'] w' (Ht & -> & ->) Hc. bool_to_prop.
    replace test with 100 by lia. step. cbn [snd].
    erewrite run_destroyM by solve_current.
    unfold counted, advance. rewrite decide_True by lia. reflexivity.
Qed.

Lemma main_factorial_timers_run w :
  main_factorial_timers w = Ok (tt, after_each timers_effect factorial_sizes w).
Proof.
  unfold main_factorial_timers.
  erewrite bind_ok; [reflexivity|].
  rewrite <- factorial_visits.
  change (imul 100 step) with 100000. unfold step.
  apply (while_for _ _ _ timers_effect (fun n => 2 <= n) (stride_variant 100001 1000));
    [| | lia | vm_compute; lia].
  - intros n w' Hn Hc. bool_to_prop.
    erewrite bind_ok by (apply main_time_factorial_run; int_lia).
    erewrite bind_ok by (apply main_time_factorial_rec_run; int_lia).
    reflexivity.
  - intros n Hn Hc. bool_to_prop.
    rewrite iadd_small by int_lia. split; [lia | apply stride_variant_step; lia].
Qed.

(** ** main *)

(** From every world, [main] runs to its end. *)
Lemma run_main w : main w = Ok (0, main_world w).
Proof.
  unfold main.
  erewrite bind_ok by apply main_powers_run.
  erewrite bind_ok by apply main_duplicates_run.
  do 2 step.
  erewrite bind_ok by apply main_factorial_counts_run.
  erewrite bind_ok by apply main_factorial_timers_run.
  reflexivity.
Qed.

(** ** The session machine *)

Lemma main_sound : preserves sound main.
Proof.
  unfold main, main_powers, main_powers_body, main_duplicates, main_factorial_counts,
    main_factorial_counts_body, main_factorial_timers, main_time_factorial,
    main_time_factorial_rec.
  preserve.
Qed.

(** ** What main does

    Each theorem says that [main] ends, and what holds of the world it
    ends in; the latter is read off [main_world] in [Experiments]. *)

(** C7: from every world, [main] runs to its end without an
    error and returns 0; the world it ends in is [main_world].  No loop
    runs out of fuel, no timer is stopped that was not started, and the
    array is never read outside its bounds. *)
Theorem main_run w : main w = Ok (0, main_world w).
Proof. apply run_main. Qed.

(** C8: the output of [main]: the three headings, and never the
    error message of the power experiment. *)
Theorem main_stdout w :
  exists w', main w = Ok (0, w') /\
    stdout w' =
    app (stdout w) ["Computing powers..." ++ newline; "Finding duplicates..." ++ newline;
                    "Computing factorial..." ++ newline].
Proof. exists (main_world w). split; [apply run_main | apply stdout_main_world]. Qed.

(** C9: the report [main] shows, in full.  It is the report of the
    session "demo-factorial" with the one group "factorial" and no series
    outside it.  The group holds "factorial_iter" with the elapsed time of
    each size and "factorial_rec" with the multiplications of [nr_tests]
    runs at each size, both ascending in size. *)
Theorem main_shows w :
  exists w', main w = Ok (0, w') /\ reports w' = app (reports w) [main_report w].
Proof. exists (main_world w). split; [apply run_main | apply reports_main_world]. Qed.

(** Started with the profiler in a state of the session machine, [main]
    ends with it in one, so the store it reports from is well formed. *)
Lemma main_keeps_session w :
  sound w -> exists w', main w = Ok (0, w') /\ sound w' /\ wf (profiler w').
Proof.
  intros Hs. exists (main_world w). split; [apply run_main|].
  assert (sound (main_world w)) by exact (main_sound w 0 _ Hs (run_main w)).
  split; [assumption | by apply reachable_wf].
Qed.

(** C17: [main] ends with the session reported: it
    shows exactly one report, that of the session "demo-factorial", with
    one group, "factorial". *)
Theorem main_reaches_reported w :
  exists w' r,
    main w = Ok (0, w') /\ phase (profiler w') = Reported /\
    reports w' = app (reports w) [r] /\ rep_session r = "demo-factorial" /\
    (rep_groups r).*1 = ["factorial"].
Proof.
  exists (main_world w), (main_report w). split; [apply run_main|].
  split; [apply phase_main_world|]. split; [apply reports_main_world|].
  split; reflexivity.
Qed.

(** C22: in the store [main] reports from, every size
    of "factorial_rec" holds the multiplications of [nr_tests] runs, not a
    time: the handle is finalized after the timer stopped. *)
Theorem main_factorial_rec_value w n :
  n ∈ factorial_sizes ->
  exists w', main w = Ok (0, w') /\
    valueAt "factorial_rec" n (profiler w') = Some (nr_tests * (n - 1)).
Proof.
  intros Hn. exists (main_world w). split; [apply run_main|].
  rewrite valueAt_main_world. apply valueAt_before_report_rec, Hn.
Qed.

(** C23: every size of "factorial_iter" holds the
    time between the two clock readings around its [nr_tests] runs, the
    readings 4k and 4k + 1 of [main]: the counts of the first loop are
    gone.  With a clock that never goes back the time is not negative. *)
Theorem main_factorial_iter_value w (k : nat) :
  (k < 100)%nat ->
  let e := clock w (ticks w + 4 * k + 1)%nat - clock w (ticks w + 4 * k)%nat in
  exists w', main w = Ok (0, w') /\
    valueAt "factorial_iter" (step * Z.of_nat (S k)) (profiler w') = Some e /\
    ((forall i j : nat, (i <= j)%nat -> clock w i <= clock w j) -> 0 <= e).
Proof.
  intros Hk e. exists (main_world w). split; [apply run_main|].
  split; [|intros Hmono; apply Zle_minus_le_0, Hmono; lia].
  rewrite valueAt_main_world. apply valueAt_before_report_iter, Hk.
Qed.

(** C24: nothing of the power and duplicates experiments is left
    when the report is shown: [reset] dropped their series. *)
Theorem main_forgets w s n :
  s <> "factorial_iter" -> s <> "factorial_rec" ->
  exists w', main w = Ok (0, w') /\ valueAt s n (profiler w') = None.
Proof.
  intros Hi Hr. exists (main_world w). split; [apply run_main|].
  rewrite valueAt_main_world. apply valueAt_before_report_none.
  unfold factorial_key. intuition congruence.
Qed.

(** C39: the counts [main] reports for "factorial_rec" are at
    the sizes of the loop, 1000 to 100000, and fit an [int]: the largest
    is 9999900.  The profiler of the model counts in [Z]; for this program
    a counter of 32 bits holds the same values. *)
Theorem main_counts_fit w :
  exists w', main w = Ok (0, w') /\
    forall n v, valueAt "factorial_rec" n (profiler w') = Some v ->
      1000 <= n <= 100000 /\ v = nr_tests * (n - 1) /\ in_int v.
Proof.
  exists (main_world w). split; [apply run_main|]. intros n v.
  rewrite valueAt_main_world. intros [Hn ->]%valueAt_before_report_rec_inv.
  apply list_elem_of_fmap in Hn as (k & -> & Hk%elem_of_seq).
  unfold step, nr_tests. split_and!; [lia | lia | reflexivity | int_lia].
Qed.

(** C37: [main] reads the clock exactly 400 times: twice
    around the runs of [factorial] and twice around those of
    [factorial_rec] at each of the 100 sizes of the timer loop, and
    nowhere else. *)
Theorem main_clock_reads w :
  exists w', main w = Ok (0, w') /\ ticks w' = (ticks w + 400)%nat.
Proof. exists (main_world w). split; [apply run_main | apply ticks_main_world]. Qed.

(** C34: [main] leaves no timer running: every [startTimer]
    of the timer loop is matched by its [stopTimer], and nothing else
    starts one. *)
Theorem main_stops_timers w :
  exists w', main w = Ok (0, w') /\ timers (profiler w') = ∅.
Proof. exists (main_world w). split; [apply run_main | apply timers_main_world]. Qed.

(** ** What the first two experiments record *)

(** C25: what the power experiment leaves in the store, at
    every exponent [n] it visits: [n] multiplications for "slow_pow"; for
    "fast_pow" 1 or 2, the delta of the outermost call, and nothing at all
    for the exponents 0 and 1. *)
Theorem main_powers_records w n :
  n ∈ power_sizes ->
  exists w1, main_powers w = Ok (tt, w1) /\
    valueAt "slow_pow" n (profiler w1) = Some n /\
    valueAt "fast_pow" n (profiler w1) =
      if decide (n = 0 \/ n = 1) then valueAt "fast_pow" n (profiler w)
      else Some (if Z.even n then 1 else 2).
Proof.
  intros Hn. exists (powers_world w). split; [apply main_powers_run|].
  split; [apply valueAt_powers_world_slow, Hn | apply valueAt_powers_world_fast, Hn].
Qed.

(** C26: what the duplicates experiment leaves in the
    store: at every size [n] it visits, the [n (n - 1) / 2] comparisons of
    [hasDuplicates], whatever the random array holds; and it draws
    [MAX_SIZE] random numbers, once. *)
Theorem main_duplicates_records w n :
  n ∈ duplicates_sizes ->
  exists w1, main_duplicates w = Ok (tt, w1) /\
    valueAt "duplicates-comparation" n (profiler w1) = Some (n * (n - 1) / 2) /\
    drawn w1 = (drawn w + Z.to_nat MAX_SIZE)%nat.
Proof.
  intros Hn. exists (duplicates_world w). split; [apply main_duplicates_run|].
  split; [apply valueAt_duplicates_world, Hn | apply drawn_duplicates_world].
Qed.

(** C16: what the first loop of the factorial
    experiment (lines 146 to 151) leaves in the store: at every size [n]
    it visits, the [n - 1] multiplications of one call, the same for
    "factorial_iter" and for "factorial_rec", whose handle is finalized at
    the end of each round.  It reads no clock.  The timer loop that
    follows writes at the same keys, so these counts are not what the
    report shows. *)
Theorem main_factorial_counts_records w n :
  n ∈ factorial_sizes ->
  exists w1, main_factorial_counts w = Ok (tt, w1) /\
    valueAt "factorial_iter" n (profiler w1) = Some (n - 1) /\
    valueAt "factorial_rec" n (profiler w1) = Some (n - 1) /\
    ticks w1 = ticks w.
Proof.
  intros Hn. eexists. split; [apply main_factorial_counts_run|].
  split_and!; [apply valueAt_counts; auto.. | apply ticks_counts].
Qed.

End Main.

(** ** On the list store

    With the association list of [SeriesStore] for the store, the listing
    is the store: the table itself is known when the report is shown. *)

(** C27: on the list store, [main] ends with the table of two rows,
    "factorial_iter" and "factorial_rec" in the order of their first
    write, each with its 100 points ascending in size. *)
Theorem main_store (w : World SeriesStore.t) :
  exists w',
    main w = Ok (0, w') /\
    series (profiler w') = [("factorial_iter", iter_points w); ("factorial_rec", rec_points)].
Proof.
  exists (main_world w). split; [apply run_main|].
  rewrite <- (list_store_all (series (profiler (main_world w)))).
  apply store_all_main_world.
Qed.

(** ** Whatever the store

    [main] is written against the [Store] interface.  Run on two
    implementations of it, with the same clock, it shows the same
    report. *)

(** The report of [main] does not depend on the implementation of the
    store, nor on anything in the initial world but the clock: two runs
    on two stores that read the same clock show the same report. *)
Corollary main_report_independent {T1 T2 : Type} `{Store T1} `{Store T2}
    (w1 : World T1) (w2 : World T2) :
  clock w1 = clock w2 -> ticks w1 = ticks w2 ->
  exists w1' w2' r,
    main w1 = Ok (0, w1') /\ main w2 = Ok (0, w2') /\
    reports w1' = app (reports w1) [r] /\ reports w2' = app (reports w2) [r].
Proof.
  intros Hc Ht. exists (main_world w1), (main_world w2), (main_report w1).
  split; [apply run_main|]. split; [apply run_main|].
  split; [apply reports_main_world|].
  rewrite (main_report_clock w1 w2 Hc Ht). apply reports_main_world.
Qed.

(** ** Witnesses on concrete inputs *)

Lemma main_factorial_counts_records_witness :
  exists w1, main_factorial_counts example_world = Ok (tt, w1) /\
    valueAt "factorial_iter" 1000 (profiler w1) = Some (1000 - 1) /\
    valueAt "factorial_rec" 1000 (profiler w1) = Some (1000 - 1) /\
    ticks w1 = ticks example_world.
Proof.
  apply (main_factorial_counts_records example_world 1000).
  apply (list_elem_of_lookup_2 _ 0%nat). reflexivity.
Defined.

Lemma main_factorial_rec_value_witness :
  exists w', main example_world = Ok (0, w') /\
    valueAt "factorial_rec" 1000 (profiler w') = Some 99900.
Proof.
  apply (main_factorial_rec_value example_world 1000).
  apply (list_elem_of_lookup_2 _ 0%nat). reflexivity.
Defined.

Lemma main_factorial_iter_value_witness :
  exists w', main example_world = Ok (0, w') /\
    valueAt "factorial_iter" 1000 (profiler w') = Some 1 /\
    ((forall i j : nat, (i <= j)%nat -> Z.of_nat i <= Z.of_nat j) -> 0 <= 1).
Proof. apply (main_factorial_iter_value example_world 0). lia. Defined.

Lemma main_forgets_witness :
  exists w', main example_world = Ok (0, w') /\ valueAt "slow_pow" 190 (profiler w') = None.
Proof. by apply (main_forgets example_world "slow_pow" 190). Defined.

Lemma main_powers_records_witness :
  exists w1, main_powers example_world = Ok (tt, w1) /\
    valueAt "slow_pow" 190 (profiler w1) = Some 190 /\
    valueAt "fast_pow" 190 (profiler w1) = Some 1.
Proof.
  apply (main_powers_records example_world 190).
  apply (list_elem_of_lookup_2 _ 28%nat). reflexivity.
Defined.

Lemma main_duplicates_records_witness :
  exists w1, main_duplicates example_world = Ok (tt, w1) /\
    valueAt "duplicates-comparation" 1900 (profiler w1) = Some 1804050 /\
    drawn w1 = 2000%nat.
Proof.
  apply (main_duplicates_records example_world 1900).
  apply (list_elem_of_lookup_2 _ 18%nat). reflexivity.
Defined.

Lemma main_report_independent_witness :
  exists w1' w2' r,
    main example_world = Ok (0, w1') /\
    main (initial_world "demo-power" Z.of_nat Z.of_nat : World MapStore.t) = Ok (0, w2') /\
    reports w1' = [r] /\ reports w2' = [r].
Proof.
  apply (main_report_independent example_world
           (initial_world "demo-power" Z.of_nat Z.of_nat : World MapStore.t));
    reflexivity.
Defined.
