(* ===== verification/Refinement.v ===== *)
(** * Refinement: a run on the list store simulates a run on the map store

    The programs of the demo are written against the [Store] interface.
    This file relates their runs on the two implementations: the world
    over the list store ([SeriesStore]) and the world over the finite map
    it stands for ([MapStore]), related by [abstract_world].

    Each call of [World] is shown to simulate itself ([≲]): from a
    world whose store is well formed, the call on the map store returns
    what the call on the list store returns, ends in the abstraction of
    the world it ends in, and fails when it fails, with the same error.
    The rules of [Monad.simulates] lift this to every program built from
    the calls; [simulate] is the tactic that takes a program apart.  It is
    applied to each function of src/example1.cpp and to [main]: the run of
    the demo on the list store and its run on the finite map end in worlds
    related by the abstraction, so whatever is observed of the one (the
    output, the reports, the value at each key) is observed of the other. *)

From S2P Require Import Prelude Int32 Monad SeriesStore Profiler World Report MapStore.
From S2P Require Import Power Factorial Duplicates Experiments Main.
From stdpp Require Import base option list gmap strings.

#[local] Open Scope Z_scope.
#[local] Open Scope prog_scope.

(** ** The abstraction *)

Definition abstract_profiler (p : Profiler SeriesStore.t) : Profiler MapStore.t :=
  mkProfiler (sessionName p) (generation p) (abstract (series p)) (timers p)
             (groups p) (phase p).

Definition abstract_world (w : World SeriesStore.t) : World MapStore.t :=
  mkWorld (abstract_profiler (profiler w)) (stdout w) (reports w) (ticks w)
          (clock w) (drawn w) (random w).

(** [c1 ≲ c2]: the program [c1] on the list store is simulated by [c2] on
    the map store. *)
Infix "≲" := (simulates store_ok abstract_world) (at level 70) : prog_scope.

Section Steps.
Implicit Types (p : Profiler SeriesStore.t) (w : World SeriesStore.t)
  (o : Operation) (s : string) (n v : Z).

(** ** The profiler *)

Lemma abstract_storeValue s n v p :
  store_wf (series p) ->
  abstract_profiler (storeValue s n v p) = storeValue s n v (abstract_profiler p).
Proof.
  intros Hwf. unfold storeValue, with_series, abstract_profiler. simpl.
  by rewrite abstract_set.
Qed.

Lemma current_abstract o p : current o (abstract_profiler p) = current o p.
Proof. reflexivity. Qed.

(** The two profilers hand the same report to the renderer. *)
Lemma report_abstract p :
  store_wf (series p) -> report (abstract_profiler p) = report p.
Proof. intros Hwf. apply report_agree; [by apply abstract_all | done | done]. Qed.

(** ** The steps of the world *)

Lemma abstract_with_profiler p w :
  abstract_world (with_profiler p w) = with_profiler (abstract_profiler p) (abstract_world w).
Proof. reflexivity. Qed.

Lemma abstract_recorded s n v w :
  store_ok w -> abstract_world (recorded s n v w) = recorded s n v (abstract_world w).
Proof.
  intros Hw. unfold recorded. by rewrite abstract_with_profiler, abstract_storeValue.
Qed.

Lemma store_ok_abstract w : store_ok w -> store_ok (abstract_world w).
Proof. apply abstract_wf. Qed.

(** ** The calls *)

Lemma createOperationM_refines s n : createOperationM s n ≲ createOperationM s n.
Proof.
  intros w Hw. unfold createOperationM, createOperation. cbn [fst snd].
  split; [by apply store_ok_recorded|].
  do 2 f_equal. symmetry. exact (abstract_recorded s n 0 w Hw).
Qed.

Lemma countM_refines o delta : countM o delta ≲ countM o delta.
Proof.
  intros w Hw. unfold countM, count. cbn [fst snd profiler abstract_world].
  rewrite current_abstract. destruct (current o (profiler w)).
  - split; [by apply store_ok_recorded|].
    do 2 f_equal. symmetry. exact (abstract_recorded _ _ _ w Hw).
  - by split.
Qed.

Lemma destroyM_refines o : destroyM o ≲ destroyM o.
Proof.
  apply simulates_modify. intros w Hw. unfold destroyOperation.
  cbn [profiler abstract_world]. rewrite current_abstract.
  destruct (current o (profiler w)).
  - split; [by apply store_ok_recorded | exact (abstract_recorded _ _ _ w Hw)].
  - by split.
Qed.

Lemma countOperationM_refines s n delta :
  countOperationM s n delta ≲ countOperationM s n delta.
Proof.
  apply simulates_modify. intros w Hw.
  split; [by apply store_ok_recorded | exact (abstract_recorded _ _ _ w Hw)].
Qed.

Lemma createGroupM_refines g members :
  createGroupM g members ≲ createGroupM g members.
Proof. apply simulates_modify. intros w Hw. by split. Qed.

Lemma resetM_refines name : resetM name ≲ resetM name.
Proof. apply simulates_modify. intros w Hw. split; [apply store_ok_in_session | done]. Qed.

Lemma startTimerM_refines s n : startTimerM s n ≲ startTimerM s n.
Proof. intros w Hw. by split. Qed.

Lemma stopTimerM_refines s n : stopTimerM s n ≲ stopTimerM s n.
Proof.
  intros w Hw. unfold stopTimerM, bind, now, try_modify, stopTimer.
  cbn [profiler abstract_world abstract_profiler timers ticked].
  destruct (timers (profiler w) !! (s, n)) as [t0|]; [|done].
  split; [by apply store_wf_set|].
  do 2 f_equal. symmetry. rewrite abstract_with_profiler. f_equal.
  by apply abstract_storeValue.
Qed.

Lemma showReportM_refines : showReportM ≲ showReportM.
Proof.
  apply simulates_modify. intros w Hw. split; [done|].
  unfold reported, showReport, abstract_world. cbn [fst snd profiler].
  by rewrite report_abstract.
Qed.

Lemma printf_refines text : printf text ≲ printf text.
Proof. apply simulates_modify. intros w Hw. by split. Qed.

Lemma FillRandomArray_refines size : FillRandomArray size ≲ FillRandomArray size.
Proof. intros w Hw. by split. Qed.

Lemma read_refines (l : list Z) i : read l i ≲ read l i.
Proof.
  unfold read. case_decide; [|apply simulates_raise].
  destruct (l !! Z.to_nat i); [apply simulates_ret | apply simulates_raise].
Qed.

End Steps.

#[export] Hint Resolve createOperationM_refines countM_refines destroyM_refines
  countOperationM_refines createGroupM_refines resetM_refines startTimerM_refines
  stopTimerM_refines showReportM_refines printf_refines FillRandomArray_refines
  read_refines : simulate_db.

(** [simulate] proves that a program refines itself on the other store: it
    takes the two programs apart, in step, down to the calls. *)
Ltac refine_step :=
  match goal with
  | |- simulates _ _ (let '(_, _) := ?x in _) _ => destruct x
  | |- simulates _ _ (if ?b then _ else _) _ => destruct b
  | |- simulates _ _ (match ?x with _ => _ end) _ => destruct x
  | |- simulates _ _ (let x := ?v in _) _ => cbv zeta
  end.

Ltac simulate :=
  repeat first
    [ solve [auto 2 with simulate_db]
    | simple apply @simulates_while | simple apply @simulates_bind
    | refine_step
    | match goal with |- forall _, _ => intro end ].

(** ** The functions of the demo *)

Lemma slow_pow_refines x n : slow_pow x n ≲ slow_pow x n.
Proof. unfold slow_pow, slow_pow_body. simulate. Qed.

Lemma fast_pow_fuel_refines fuel x n size :
  fast_pow_fuel fuel x n size ≲ fast_pow_fuel fuel x n size.
Proof. revert n. induction fuel as [|fuel IH]; intros n; simpl; simulate. Qed.

Lemma fast_pow_refines x n size : fast_pow x n size ≲ fast_pow x n size.
Proof. apply fast_pow_fuel_refines. Qed.

Lemma fast_pow_iter_refines x n : fast_pow_iter x n ≲ fast_pow_iter x n.
Proof. unfold fast_pow_iter, fast_pow_iter_body. simulate. Qed.

Lemma hasDuplicates_refines v size : hasDuplicates v size ≲ hasDuplicates v size.
Proof. unfold hasDuplicates, hasDuplicates_outer_body, hasDuplicates_inner_body. simulate. Qed.

Lemma factorial_refines n : factorial n ≲ factorial n.
Proof. unfold factorial, factorial_body. simulate. Qed.

Lemma factorial_rec_fuel_refines fuel n o :
  factorial_rec_fuel fuel n o ≲ factorial_rec_fuel fuel n o.
Proof. revert n o. induction fuel as [|fuel IH]; intros n o; simpl; simulate. Qed.

Lemma factorial_rec_refines n o : factorial_rec n o ≲ factorial_rec n o.
Proof. apply factorial_rec_fuel_refines. Qed.

#[export] Hint Resolve slow_pow_refines fast_pow_refines fast_pow_iter_refines
  hasDuplicates_refines factorial_refines factorial_rec_refines : simulate_db.

(** ** main *)

Lemma main_powers_refines : main_powers ≲ main_powers.
Proof. unfold main_powers, main_powers_body. simulate. Qed.

Lemma main_duplicates_refines : main_duplicates ≲ main_duplicates.
Proof. unfold main_duplicates. simulate. Qed.

Lemma main_factorial_counts_refines : main_factorial_counts ≲ main_factorial_counts.
Proof. unfold main_factorial_counts, main_factorial_counts_body. simulate. Qed.

Lemma main_factorial_timers_refines : main_factorial_timers ≲ main_factorial_timers.
Proof.
  unfold main_factorial_timers, main_time_factorial, main_time_factorial_rec. simulate.
Qed.

#[export] Hint Resolve main_powers_refines main_duplicates_refines
  main_factorial_counts_refines main_factorial_timers_refines : simulate_db.

Lemma main_simulates : main ≲ main.
Proof. unfold main. simulate. Qed.

(** [main] keeps the list store well formed. *)
Lemma main_keeps_store : preserves store_ok (main (T := SeriesStore.t)).
Proof. exact (simulates_preserves _ _ _ _ main_simulates). Qed.

(** The run of [main] on the list store and its run on the map store. *)
Lemma main_abstract_world (w : World SeriesStore.t) :
  store_ok w ->
  store_ok (main_world w) /\
  main (abstract_world w) = Ok (0, abstract_world (main_world w)).
Proof. intros Hw. apply (simulates_ok _ _ _ _ _ _ _ main_simulates Hw), run_main. Qed.

(** C19: [main] on the list store refines [main] on the finite
    map.  From a world whose store is well formed, the run on the list
    store returns 0 in a world whose store is well formed again, and the
    run on the map store, started in the abstraction of the first world,
    returns 0 in the abstraction of the last: the two runs print the same,
    show the same reports and hold the same value at every key. *)
Theorem main_refines (w : World SeriesStore.t) :
  store_ok w ->
  exists w',
    main w = Ok (0, w') /\ store_ok w' /\
    main (abstract_world w) = Ok (0, abstract_world w') /\
    stdout (abstract_world w') = stdout w' /\
    reports (abstract_world w') = reports w' /\
    forall s n, valueAt s n (profiler (abstract_world w')) = valueAt s n (profiler w').
Proof.
  intros Hw. destruct (main_abstract_world w Hw) as [Hok Hrun].
  pose proof (run_main w) as Hmain. revert Hmain Hok Hrun.
  generalize (main_world w). intros w' Hmain Hok Hrun. exists w'.
  split_and!; [exact Hmain | exact Hok | exact Hrun | reflexivity..|].
  intros s n. apply abstract_get, Hok.
Qed.

(** ** Witnesses on concrete inputs *)

Lemma main_refines_witness :
  exists w',
    main example_world = Ok (0, w') /\ store_ok w' /\
    main (abstract_world example_world) = Ok (0, abstract_world w') /\
    stdout (abstract_world w') = stdout w' /\
    reports (abstract_world w') = reports w' /\
    forall s n, valueAt s n (profiler (abstract_world w')) = valueAt s n (profiler w').
Proof. apply (main_refines example_world). vm_compute. split; constructor. Defined.
